(** * js-generator: the project-assembly pipeline

    A shallow embedding of [js-generator.js] (the legacy script) and of the
    Tailwind-capable script of the same repository, with the properties of
    the manifest merge, the command tokenizer and the pipeline.

    Conventions.
    - A JavaScript string is a [string]: one character per UTF-16 code unit,
      for code units below 256.  Every literal of the source is ASCII.
    - A JavaScript object is the list of its own enumerable properties in
      the order [OrdinaryOwnPropertyKeys] lists them.
    - File contents are JavaScript strings: [writeFile] of a string followed
      by [readFile] with the [utf8] encoding returns the string written. *)

From Stdlib Require Import ZArith NArith String Ascii List Lia Bool.
From Stdlib Require Import DecimalString Decimal DecimalPos DecimalN DecimalZ.
From stdpp Require Import base tactics option list sorting strings gmap.

Local Open Scope string_scope.
Local Open Scope list_scope.

(** ** JavaScript values that JSON can express *)

Module JS.

Unset Elimination Schemes.
Inductive value : Type :=
| JNull
| JBool (b : bool)
| JNum (n : Z)
| JStr (s : string)
| JArr (l : list value)
| JObj (o : list (string * value)).
Set Elimination Schemes.

(** An object: own properties in enumeration order. *)
Definition obj : Type := list (string * value).

Section value_ind.
Variable P : value -> Prop.
Hypothesis Hnull : P JNull.
Hypothesis Hbool : forall b, P (JBool b).
Hypothesis Hnum : forall n, P (JNum n).
Hypothesis Hstr : forall s, P (JStr s).
Hypothesis Harr : forall l, Forall P l -> P (JArr l).
Hypothesis Hobj : forall o, Forall (fun kv => P (snd kv)) o -> P (JObj o).

Fixpoint value_ind (v : value) : P v :=
  match v with
  | JNull => Hnull
  | JBool b => Hbool b
  | JNum n => Hnum n
  | JStr s => Hstr s
  | JArr l =>
      Harr l ((fix go (l : list value) : Forall P l :=
                 match l with
                 | [] => List.Forall_nil P
                 | x :: l' => List.Forall_cons P x l' (value_ind x) (go l')
                 end) l)
  | JObj o =>
      Hobj o ((fix go (o : obj) : Forall (fun kv => P (snd kv)) o :=
                 match o with
                 | [] => List.Forall_nil _
                 | kv :: o' =>
                     List.Forall_cons (fun kv => P (snd kv)) kv o'
                       (value_ind (snd kv)) (go o')
                 end) o)
  end.
End value_ind.

(** *** Property keys

    A key that is the canonical decimal form of an integer below
    [2^32 - 1] is an array index; such keys are enumerated first, in
    ascending numeric order, whatever the order of their creation. *)

Definition is_digit (c : ascii) : bool :=
  let n := N_of_ascii c in ((48 <=? n) && (n <=? 57))%N.

(** The number a canonical decimal numeral denotes: no sign, no leading
    zero. *)
Definition canonical_numeral (k : string) : option N :=
  match NilZero.uint_of_string k with
  | Some d =>
      if Decimal.uint_beq (Decimal.unorm d) d then Some (N.of_uint d) else None
  | None => None
  end.

Definition array_index (k : string) : option N :=
  match canonical_numeral k with
  | Some n => if (n <=? 4294967294)%N then Some n else None
  | None => None
  end.

(** *** Reading and defining properties *)

Fixpoint obj_get (o : obj) (k : string) : option value :=
  match o with
  | [] => None
  | (k', v) :: o' => if String.eqb k' k then Some v else obj_get o' k
  end.

Definition obj_has (o : obj) (k : string) : bool :=
  match obj_get o k with Some _ => true | None => false end.

Fixpoint obj_update (o : obj) (k : string) (v : value) : obj :=
  match o with
  | [] => []
  | (k', v') :: o' =>
      if String.eqb k' k then (k', v) :: o' else (k', v') :: obj_update o' k v
  end.

(** A new array-index key goes before the first key that is not an array
    index or is a larger one. *)
Fixpoint obj_insert_index (n : N) (k : string) (v : value) (o : obj) : obj :=
  match o with
  | [] => [(k, v)]
  | (k', v') :: o' =>
      match array_index k' with
      | Some n' =>
          if (n' <? n)%N then (k', v') :: obj_insert_index n k v o'
          else (k, v) :: o
      | None => (k, v) :: o
      end
  end.

(** [CreateDataProperty] / [Set] on an ordinary object: an existing
    property keeps its place; a new one is placed by the enumeration rule. *)
Definition obj_set (o : obj) (k : string) (v : value) : obj :=
  if obj_has o k then obj_update o k v
  else
    match array_index k with
    | Some n => obj_insert_index n k v o
    | None => o ++ [(k, v)]
    end.

Definition obj_keys (o : obj) : list string := map fst o.

(** *** Well-formed values

    Numbers are the integers a double holds exactly; the keys of an object
    are distinct and stand in enumeration order: array indices first, in
    ascending numeric order, then the other keys. *)

Definition max_safe_integer : Z := 9007199254740991.

Definition key_before (k k' : string) : bool :=
  negb (String.eqb k k') &&
  match array_index k, array_index k' with
  | Some a, Some b => (a <? b)%N
  | Some _, None => true
  | None, Some _ => false
  | None, None => true
  end.

Fixpoint keys_ordered (ks : list string) : bool :=
  match ks with
  | [] => true
  | k :: ks' => forallb (key_before k) ks' && keys_ordered ks'
  end.

Fixpoint wf (v : value) : bool :=
  match v with
  | JNull | JBool _ | JStr _ => true
  | JNum n => (Z.abs n <=? max_safe_integer)%Z
  | JArr l => forallb wf l
  | JObj o => keys_ordered (map fst o) && forallb (fun kv => wf (snd kv)) o
  end.

Definition wf_obj (o : obj) : bool := wf (JObj o).

(** [String(i)] for an array position. *)
Definition string_of_N (n : N) : string := NilZero.string_of_uint (N.to_uint n).

Fixpoint indexed {A} (i : N) (l : list A) : list (string * A) :=
  match l with
  | [] => []
  | x :: l' => (string_of_N i, x) :: indexed (N.succ i) l'
  end.

Fixpoint chars (s : string) : list value :=
  match s with
  | EmptyString => []
  | String c s' => JStr (String c EmptyString) :: chars s'
  end.

(** The own enumerable properties a spread [...x] copies.  [None] stands
    for [undefined]. *)
Definition own_props (x : option value) : obj :=
  match x with
  | None | Some JNull | Some (JBool _) | Some (JNum _) => []
  | Some (JStr s) => indexed 0 (chars s)
  | Some (JArr l) => indexed 0 l
  | Some (JObj o) => o
  end.

(** [{...x}] copied into an object under construction. *)
Definition spread_into (acc : obj) (props : obj) : obj :=
  fold_left (fun a kv => obj_set a (fst kv) (snd kv)) props acc.

(** [Array.prototype.sort()] without a comparator on an array of strings:
    ascending by code units.  Any sorting algorithm gives this result. *)
Definition sort_keys (ks : list string) : list string :=
  merge_sort String.le ks.

End JS.

(** ** The JSON codec of the runtime: [JSON.stringify(v, null, 2)] and
    [JSON.parse] *)

Module JSON.
Import JS.

Definition text : Type := list ascii.

Definition dquote : ascii := "034"%char.

Definition of_string (s : string) : text := list_ascii_of_string s.
Definition to_string (t : text) : string := string_of_list_ascii t.

Definition hex_digit (n : N) : ascii :=
  ascii_of_N (if (n <? 10)%N then 48 + n else 87 + n)%N.

(** [QuoteJSONString]: the two-character escapes, [\u00xx] for the other
    control characters, everything else as it is. *)
Definition escape_char (c : ascii) : text :=
  let n := N_of_ascii c in
  if (n =? 8)%N then of_string "\b"
  else if (n =? 9)%N then of_string "\t"
  else if (n =? 10)%N then of_string "\n"
  else if (n =? 12)%N then of_string "\f"
  else if (n =? 13)%N then of_string "\r"
  else if (n =? 34)%N then ["\"%char; dquote]
  else if (n =? 92)%N then of_string "\\"
  else if (n <? 32)%N then
    of_string "\u00" ++ [hex_digit (n / 16)%N; hex_digit (n mod 16)%N]
  else [c].

Definition quote (s : string) : text :=
  dquote :: flat_map escape_char (of_string s) ++ [dquote].

Definition number_text (n : Z) : text :=
  of_string (NilZero.string_of_int (Z.to_int n)).

Definition nl : text := ["010"%char].
Definition gap : text := of_string "  ".

(** The items of a non-empty array or object, each on a line of its own
    at indentation [ind'], separated by commas. *)
Section items.
Context {A : Type}.
Variable item : A -> text.
Variable ind' : text.

Fixpoint items (first : bool) (l : list A) : text :=
  match l with
  | [] => []
  | x :: l' =>
      (if first then [] else [","%char]) ++ nl ++ ind' ++ item x
      ++ items false l'
  end.
End items.

(** [SerializeJSONProperty] with the gap of two spaces; [ind] is the
    current indentation. *)
Fixpoint ser (ind : text) (v : value) {struct v} : text :=
  match v with
  | JNull => of_string "null"
  | JBool true => of_string "true"
  | JBool false => of_string "false"
  | JNum n => number_text n
  | JStr s => quote s
  | JArr [] => of_string "[]"
  | JArr l =>
      let ind' := ind ++ gap in
      "["%char :: items (ser ind') ind' true l ++ nl ++ ind ++ ["]"%char]
  | JObj [] => of_string "{}"
  | JObj o =>
      let ind' := ind ++ gap in
      "{"%char ::
      items (fun kv => quote (fst kv) ++ of_string ": " ++ ser ind' (snd kv))
            ind' true o
      ++ nl ++ ind ++ ["}"%char]
  end.

Definition stringify (v : value) : string := to_string (ser [] v).

(** *** Parsing *)

Inductive result (A : Type) : Type :=
| Parsed (a : A)
| SyntaxError
| Unmodelled.
Arguments Parsed {A} a.
Arguments SyntaxError {A}.
Arguments Unmodelled {A}.

Definition bind {A B} (r : result A) (f : A -> result B) : result B :=
  match r with
  | Parsed a => f a
  | SyntaxError => SyntaxError
  | Unmodelled => Unmodelled
  end.

Definition is_ws (c : ascii) : bool :=
  let n := N_of_ascii c in
  ((n =? 32) || (n =? 9) || (n =? 10) || (n =? 13))%N.

Fixpoint skip_ws (t : text) : text :=
  match t with
  | c :: t' => if is_ws c then skip_ws t' else t
  | [] => []
  end.

Definition hex_val (c : ascii) : option N :=
  let n := N_of_ascii c in
  if ((48 <=? n) && (n <=? 57))%N then Some (n - 48)%N
  else if ((97 <=? n) && (n <=? 102))%N then Some (n - 87)%N
  else if ((65 <=? n) && (n <=? 70))%N then Some (n - 55)%N
  else None.

Definition hex4 (a b c d : ascii) : option N :=
  match hex_val a, hex_val b, hex_val c, hex_val d with
  | Some x, Some y, Some z, Some w =>
      Some (((x * 16 + y) * 16 + z) * 16 + w)%N
  | _, _, _, _ => None
  end.

(** The characters of a string literal after its opening quote. *)
Fixpoint parse_string_body (t : text) : result (string * text) :=
  match t with
  | [] => SyntaxError
  | c :: t' =>
      if Ascii.eqb c dquote then Parsed (EmptyString, t')
      else if Ascii.eqb c "\" then
        match t' with
        | [] => SyntaxError
        | e :: t'' =>
            let simple (x : ascii) :=
              bind (parse_string_body t'')
                   (fun '(s, r) => Parsed (String x s, r)) in
            if Ascii.eqb e dquote then simple dquote
            else if Ascii.eqb e "\" then simple "\"%char
            else if Ascii.eqb e "/" then simple "/"%char
            else if Ascii.eqb e "b" then simple "008"%char
            else if Ascii.eqb e "f" then simple "012"%char
            else if Ascii.eqb e "n" then simple "010"%char
            else if Ascii.eqb e "r" then simple "013"%char
            else if Ascii.eqb e "t" then simple "009"%char
            else if Ascii.eqb e "u" then
              match t'' with
              | a :: b :: c' :: d :: r =>
                  match hex4 a b c' d with
                  | Some n =>
                      if (n <? 256)%N then
                        bind (parse_string_body r)
                             (fun '(s, r') => Parsed (String (ascii_of_N n) s, r'))
                      else Unmodelled
                  | None => SyntaxError
                  end
              | _ => SyntaxError
              end
            else SyntaxError
        end
      else if (N_of_ascii c <? 32)%N then SyntaxError
      else bind (parse_string_body t')
                (fun '(s, r) => Parsed (String c s, r))
  end.

Fixpoint take_digits (t : text) : string * text :=
  match t with
  | c :: t' =>
      if is_digit c then
        let '(ds, r) := take_digits t' in (String c ds, r)
      else (EmptyString, t)
  | [] => (EmptyString, [])
  end.

Definition starts_fraction_or_exponent (t : text) : bool :=
  match t with
  | c :: _ => Ascii.eqb c "." || Ascii.eqb c "e" || Ascii.eqb c "E"
  | [] => false
  end.

(** A number literal; [neg] tells whether a minus sign was read.  Only
    integers a double holds exactly are modelled, and not the negative
    zero. *)
Definition parse_number (neg : bool) (t : text) : result (value * text) :=
  let '(ds, r) := take_digits t in
  match NilZero.uint_of_string ds with
  | None => SyntaxError
  | Some d =>
      if negb (Decimal.uint_beq (Decimal.unorm d) d) then SyntaxError
      else if starts_fraction_or_exponent r then Unmodelled
      else
        let n := Z.of_N (N.of_uint d) in
        if (max_safe_integer <? n)%Z then Unmodelled
        else if neg then
          if (n =? 0)%Z then Unmodelled else Parsed (JNum (- n), r)
        else Parsed (JNum n, r)
  end.

Fixpoint parse_value (fuel : nat) (t : text) {struct fuel}
  : result (value * text) :=
  match fuel with
  | O => Unmodelled
  | S fuel' =>
      match skip_ws t with
      | [] => SyntaxError
      | c :: r =>
          if Ascii.eqb c "n" then
            match r with
            | "u"%char :: "l"%char :: "l"%char :: r' => Parsed (JNull, r')
            | _ => SyntaxError
            end
          else if Ascii.eqb c "t" then
            match r with
            | "r"%char :: "u"%char :: "e"%char :: r' => Parsed (JBool true, r')
            | _ => SyntaxError
            end
          else if Ascii.eqb c "f" then
            match r with
            | "a"%char :: "l"%char :: "s"%char :: "e"%char :: r' =>
                Parsed (JBool false, r')
            | _ => SyntaxError
            end
          else if Ascii.eqb c dquote then
            bind (parse_string_body r) (fun '(s, r') => Parsed (JStr s, r'))
          else if Ascii.eqb c "[" then
            match skip_ws r with
            | c' :: r' =>
                if Ascii.eqb c' "]" then Parsed (JArr [], r')
                else parse_elements fuel' [] r
            | [] => SyntaxError
            end
          else if Ascii.eqb c "{" then
            match skip_ws r with
            | c' :: r' =>
                if Ascii.eqb c' "}" then Parsed (JObj [], r')
                else parse_members fuel' [] r
            | [] => SyntaxError
            end
          else if Ascii.eqb c "-" then parse_number true r
          else if is_digit c then parse_number false (c :: r)
          else SyntaxError
      end
  end

with parse_elements (fuel : nat) (acc : list value) (t : text) {struct fuel}
  : result (value * text) :=
  match fuel with
  | O => Unmodelled
  | S fuel' =>
      bind (parse_value fuel' t) (fun '(v, r) =>
        match skip_ws r with
        | c :: r' =>
            if Ascii.eqb c "," then parse_elements fuel' (acc ++ [v]) r'
            else if Ascii.eqb c "]" then Parsed (JArr (acc ++ [v]), r')
            else SyntaxError
        | [] => SyntaxError
        end)
  end

(** Members are defined on the object in the order they are read, so a
    repeated key keeps its first place with its last value and array
    indices move to the front. *)
with parse_members (fuel : nat) (acc : obj) (t : text) {struct fuel}
  : result (value * text) :=
  match fuel with
  | O => Unmodelled
  | S fuel' =>
      match skip_ws t with
      | c :: r =>
          if Ascii.eqb c dquote then
            bind (parse_string_body r) (fun '(k, r1) =>
              match skip_ws r1 with
              | c1 :: r2 =>
                  if Ascii.eqb c1 ":" then
                    bind (parse_value fuel' r2) (fun '(v, r3) =>
                      match skip_ws r3 with
                      | c3 :: r4 =>
                          if Ascii.eqb c3 "," then
                            parse_members fuel' (obj_set acc k v) r4
                          else if Ascii.eqb c3 "}" then
                            Parsed (JObj (obj_set acc k v), r4)
                          else SyntaxError
                      | [] => SyntaxError
                      end)
                  else SyntaxError
              | [] => SyntaxError
              end)
          else SyntaxError
      | [] => SyntaxError
      end
  end.

Definition parse (s : string) : result value :=
  let t := of_string s in
  bind (parse_value (S (List.length t)) t) (fun '(v, r) =>
    match skip_ws r with
    | [] => Parsed v
    | _ :: _ => SyntaxError
    end).

(** What may follow a serialized value in a serialized text: a comma, a
    line break or the end. *)
Definition terminated (rest : text) : bool :=
  match rest with
  | [] => true
  | c :: _ => Ascii.eqb c "," || Ascii.eqb c "010"
  end.

End JSON.

(** ** The command tokenizer: [command.match(/[^"\s]+|"[^"]+"/g)] *)

Module Tokenizer.

Definition text : Type := list ascii.
Definition dquote : ascii := JSON.dquote.

(** The class [\s], for code units below 256. *)
Definition is_space (c : ascii) : bool :=
  let n := N_of_ascii c in
  ((9 <=? n) && (n <=? 13) || (n =? 32) || (n =? 160))%N.

(** A character of the first alternative: neither a double quote nor
    white space. *)
Definition is_word_char (c : ascii) : bool :=
  negb (Ascii.eqb c dquote) && negb (is_space c).

(** A character allowed between the quotes of the second alternative. *)
Definition is_not_quote (c : ascii) : bool := negb (Ascii.eqb c dquote).

(** The longest prefix whose characters satisfy [p], and what is left. *)
Fixpoint span (p : ascii -> bool) (t : text) : text * text :=
  match t with
  | c :: t' =>
      if p c then let '(a, b) := span p t' in (c :: a, b) else ([], t)
  | [] => ([], [])
  end.

(** A match of the pattern at the very start of [t].  The first
    alternative takes the longest run of word characters; the second needs
    a quote, a non-empty run without quotes, and a closing quote: the
    greedy run stops only at a quote or at the end, and giving characters
    back never puts a quote after it. *)
Definition match_here (t : text) : option (text * text) :=
  match t with
  | [] => None
  | c :: t' =>
      if is_word_char c then Some (span is_word_char t)
      else if Ascii.eqb c dquote then
        let '(body, r) := span is_not_quote t' in
        match body, r with
        | _ :: _, q :: rest => Some (dquote :: body ++ [q], rest)
        | _, _ => None
        end
      else None
  end.

(** All matches, left to right, each search starting where the previous
    match ended; a position with no match is skipped. *)
Fixpoint match_all (fuel : nat) (t : text) : list text :=
  match fuel with
  | O => []
  | S fuel' =>
      match t with
      | [] => []
      | _ :: t' =>
          match match_here t with
          | Some (tok, rest) => tok :: match_all fuel' rest
          | None => match_all fuel' t'
          end
      end
  end.

(** The array [match] returns; the empty list stands for [null]. *)
Definition tokenize (command : string) : list string :=
  let t := list_ascii_of_string command in
  map string_of_list_ascii (match_all (List.length t) t).

(** The reading of the specification: split at white space, except inside
    double quotes, which are kept in the token. *)
Fixpoint spec_split (in_quote : bool) (cur : text) (t : text) : list text :=
  let flush := match cur with [] => [] | _ => [rev cur] end in
  match t with
  | [] => flush
  | c :: t' =>
      if Ascii.eqb c dquote then spec_split (negb in_quote) (c :: cur) t'
      else if is_space c && negb in_quote then flush ++ spec_split false [] t'
      else spec_split in_quote (c :: cur) t'
  end.

Definition spec_tokenize (command : string) : list string :=
  map string_of_list_ascii (spec_split false [] (list_ascii_of_string command)).

(** A word of a well-formed command line: a run of word characters, or a
    quoted run without quotes. *)
Definition is_word (w : text) : bool :=
  match w with
  | [] => false
  | c :: w' =>
      if Ascii.eqb c dquote then
        match rev w' with
        | q :: body' =>
            Ascii.eqb q dquote && negb (Nat.eqb (List.length body') 0)
            && forallb is_not_quote body'
        | [] => false
        end
      else forallb is_word_char w
  end.

(** White space, then each word followed by its own white space. *)
Definition assemble (lead : text) (words : list (text * text)) : text :=
  lead ++ flat_map (fun '(w, sep) => w ++ sep) words.

(** Separators are white space, and only the last may be empty. *)
Fixpoint separated (words : list (text * text)) : bool :=
  match words with
  | [] => true
  | [(w, sep)] => is_word w && forallb is_space sep
  | (w, sep) :: rest =>
      is_word w && forallb is_space sep
      && negb (Nat.eqb (List.length sep) 0) && separated rest
  end.

End Tokenizer.

(** ** The runtime: promises, the file system, child processes *)

Module Node.
Import JS.

(** What a promise can reject with. *)
Inductive error : Type :=
| Error (message : string)
| TypeError (what : string)
| JsonSyntaxError (text : string)
| SystemError (code syscall path : string)
| ChildError (message : string).

(** How a child process ended: the code of the [exit] event ([None] when
    the process was killed by a signal), or the [error] event. *)
Inductive proc_result : Type :=
| ExitCode (code : option Z)
| LaunchError (e : error).

Inductive op : Type :=
| ConsoleLog (line : string)
| ConsoleError (line : string)
| ConsoleErrorObject (e : error)
| ExistsSync (path : string)
| ReadFile (path : string)
| WriteFile (path data : string)
| Mkdir (path : string) (recursive : bool)
| Spawn (cmd : string) (args : list string) (cwd : string).

Inductive answer : Type :=
| AUnit
| ABool (b : bool)
| AText (s : string)
| AFailed (e : error)
| AProc (r : proc_result).

(** A program: what an [async] function does.  [Do] is a synchronous
    call; [Await] starts an asynchronous operation and suspends until it
    completes; [Fork] calls an [async] function without awaiting it. *)
Inductive prog (A : Type) : Type :=
| Ret (a : A)
| Throw (e : error)
| ExitProcess (code : Z)
| Stuck
| Do (o : op) (k : answer -> prog A)
| Await (o : op) (k : answer -> prog A)
| Fork (p : prog unit) (k : prog A).
Arguments Ret {A} a.
Arguments Throw {A} e.
Arguments ExitProcess {A} code.
Arguments Stuck {A}.
Arguments Do {A} o k.
Arguments Await {A} o k.
Arguments Fork {A} p k.

Fixpoint bind {A B} (p : prog A) (f : A -> prog B) : prog B :=
  match p with
  | Ret a => f a
  | Throw e => Throw e
  | ExitProcess c => ExitProcess c
  | Stuck => Stuck
  | Do o k => Do o (fun a => bind (k a) f)
  | Await o k => Await o (fun a => bind (k a) f)
  | Fork p' k => Fork p' (bind k f)
  end.

(** [try { p } catch (error) { h error }]. *)
Fixpoint try_catch {A} (p : prog A) (h : error -> prog A) : prog A :=
  match p with
  | Ret a => Ret a
  | Throw e => h e
  | ExitProcess c => ExitProcess c
  | Stuck => Stuck
  | Do o k => Do o (fun a => try_catch (k a) h)
  | Await o k => Await o (fun a => try_catch (k a) h)
  | Fork p' k => Fork p' (try_catch k h)
  end.

#[global] Instance prog_ret : MRet prog := fun A a => Ret a.
#[global] Instance prog_bind : MBind prog := fun A B f p => bind p f.

(** The calls of the source, by the type of what they give back. *)
Definition as_unit (a : answer) : prog unit :=
  match a with
  | AUnit => Ret tt
  | AFailed e => Throw e
  | _ => Stuck
  end.

Definition as_bool (a : answer) : prog bool :=
  match a with
  | ABool b => Ret b
  | AFailed e => Throw e
  | _ => Stuck
  end.

Definition as_text (a : answer) : prog string :=
  match a with
  | AText s => Ret s
  | AFailed e => Throw e
  | _ => Stuck
  end.

Definition console_log (line : string) : prog unit :=
  Do (ConsoleLog line) as_unit.
Definition console_error (line : string) : prog unit :=
  Do (ConsoleError line) as_unit.
Definition console_error_object (e : error) : prog unit :=
  Do (ConsoleErrorObject e) as_unit.
Definition existsSync (path : string) : prog bool :=
  Do (ExistsSync path) as_bool.
Definition readFile (path : string) : prog string :=
  Await (ReadFile path) as_text.
Definition writeFile (path data : string) : prog unit :=
  Await (WriteFile path data) as_unit.
Definition mkdir (path : string) (recursive : bool) : prog unit :=
  Await (Mkdir path recursive) as_unit.

(** *** Paths

    [path.join] and [path.resolve] on the arguments the source gives them:
    an absolute directory and a relative name without dots. *)
Fixpoint ends_with_slash (s : string) : bool :=
  match s with
  | EmptyString => false
  | String c EmptyString => Ascii.eqb c "/"
  | String _ s' => ends_with_slash s'
  end.

Definition path_join (a b : string) : string :=
  if ends_with_slash a then a ++ b else a ++ "/" ++ b.

Definition path_resolve (cwd name : string) : string := path_join cwd name.

(** The proper prefixes of a path that end before a slash: the directories
    a recursive [mkdir] may have to create. *)
Fixpoint ancestors (seen : string) (s : string) : list string :=
  match s with
  | EmptyString => []
  | String c s' =>
      let here := if Ascii.eqb c "/" then
                    match seen with EmptyString => [] | _ => [String.rev seen] end
                  else [] in
      here ++ ancestors (String c seen) s'
  end.

(** *** The state of the world *)

Inductive event : Type :=
| Did (o : op) (a : answer)
| Began (o : op)
| Ended (o : op) (a : answer)
| Exit (code : Z)
| Crashed (e : error).

(** A call that was not awaited: suspended on an operation, or rejected
    with nobody to handle the rejection. *)
Inductive task : Type :=
| Suspended (o : op) (k : answer -> prog unit)
| Rejected (e : error).

Record world : Type := World {
  files : gmap string string;
  dirs : gset string;
  trace : list event;
  pending : list task;
  ticks : nat
}.

Definition log (ev : event) (w : world) : world :=
  World (files w) (dirs w) (trace w ++ [ev]) (pending w) (ticks w).
Definition set_files (f : gmap string string) (w : world) : world :=
  World f (dirs w) (trace w) (pending w) (ticks w).
Definition set_dirs (d : gset string) (w : world) : world :=
  World (files w) d (trace w) (pending w) (ticks w).
Definition set_pending (p : list task) (w : world) : world :=
  World (files w) (dirs w) (trace w) p (ticks w).
Definition tick (w : world) : world :=
  World (files w) (dirs w) (trace w) (pending w) (S (ticks w)).

Definition exists_path (w : world) (path : string) : bool :=
  bool_decide (is_Some (files w !! path)) || bool_decide (path ∈ dirs w).

Inductive outcome (A : Type) : Type :=
| Returned (a : A)
| Threw (e : error)
| Exited (code : Z)
| Unmodelled.
Arguments Returned {A} a.
Arguments Threw {A} e.
Arguments Exited {A} code.
Arguments Unmodelled {A}.

Section semantics.

(** What an external command does to the files and directories, and how it
    ends. *)
Variable exec :
  string -> list string -> string ->
  gmap string string * gset string ->
  proc_result * (gmap string string * gset string).

(** How many steps the calls that were not awaited take while the main
    flow is suspended for the [n]-th time. *)
Variable sched : nat -> nat.

(** The completion of an operation. *)
Definition perform (o : op) (w : world) : answer * world :=
  match o with
  | ConsoleLog _ | ConsoleError _ | ConsoleErrorObject _ => (AUnit, w)
  | ExistsSync p => (ABool (exists_path w p), w)
  | ReadFile p =>
      if bool_decide (p ∈ dirs w)
      then (AFailed (SystemError "EISDIR" "read" p), w)
      else
        match files w !! p with
        | Some s => (AText s, w)
        | None => (AFailed (SystemError "ENOENT" "open" p), w)
        end
  | WriteFile p data =>
      if bool_decide (p ∈ dirs w)
      then (AFailed (SystemError "EISDIR" "open" p), w)
      else (AUnit, set_files (<[p := data]> (files w)) w)
  | Mkdir p false =>
      if exists_path w p
      then (AFailed (SystemError "EEXIST" "mkdir" p), w)
      else (AUnit, set_dirs ({[p]} ∪ dirs w) w)
  | Mkdir p true =>
      if bool_decide (is_Some (files w !! p))
      then (AFailed (SystemError "EEXIST" "mkdir" p), w)
      else (AUnit, set_dirs (list_to_set (p :: ancestors "" p) ∪ dirs w) w)
  | Spawn cmd args cwd =>
      let '(r, (f, d)) := exec cmd args cwd (files w, dirs w) in
      (AProc r, set_dirs d (set_files f w))
  end.

(** A call that is not awaited runs up to its first suspension. *)
Fixpoint start (p : prog unit) (w : world) : outcome unit * world :=
  match p with
  | Ret _ => (Returned tt, w)
  | Throw e => (Returned tt, set_pending (pending w ++ [Rejected e]) w)
  | ExitProcess c => (Exited c, set_pending [] (log (Exit c) w))
  | Stuck => (Unmodelled, w)
  | Do o k => let '(a, w') := perform o w in start (k a) (log (Did o a) w')
  | Await o k =>
      (Returned tt, set_pending (pending w ++ [Suspended o k]) (log (Began o) w))
  | Fork p' k =>
      match start p' w with
      | (Returned _, w') => start k w'
      | r => r
      end
  end.

Fixpoint first_rejected (ts : list task) : option error :=
  match ts with
  | [] => None
  | Rejected e :: _ => Some e
  | Suspended _ _ :: ts' => first_rejected ts'
  end.

(** A rejection nobody handles ends the process with status 1. *)
Definition check_rejections (w : world) : outcome unit * world :=
  match first_rejected (pending w) with
  | Some e => (Exited 1, set_pending [] (log (Exit 1) (log (Crashed e) w)))
  | None => (Returned tt, w)
  end.

(** The oldest suspended call gets the result of its operation and runs
    up to its next suspension. *)
Definition advance (w : world) : outcome unit * world :=
  match pending w with
  | Suspended o k :: rest =>
      let '(a, w') := perform o (set_pending rest w) in
      match start (k a) (log (Ended o a) w') with
      | (Returned _, w'') => check_rejections w''
      | r => r
      end
  | _ => (Returned tt, w)
  end.

Fixpoint advance_n (n : nat) (w : world) : outcome unit * world :=
  match n with
  | O => (Returned tt, w)
  | S n' =>
      match advance w with
      | (Returned _, w') => advance_n n' w'
      | r => r
      end
  end.

(** What happens while the main flow is suspended. *)
Definition suspend (w : world) : outcome unit * world :=
  match check_rejections w with
  | (Returned _, w') => advance_n (sched (ticks w')) (tick w')
  | r => r
  end.

(** How the main flow ends when the process ends under it.  A call that
    was not awaited never throws into the main flow. *)
Definition not_returned {A B} (r : outcome A) : outcome B :=
  match r with
  | Exited c => Exited c
  | _ => Unmodelled
  end.

Fixpoint run {A} (p : prog A) (w : world) : outcome A * world :=
  match p with
  | Ret a => (Returned a, w)
  | Throw e => (Threw e, w)
  | ExitProcess c => (Exited c, set_pending [] (log (Exit c) w))
  | Stuck => (Unmodelled, w)
  | Do o k => let '(a, w') := perform o w in run (k a) (log (Did o a) w')
  | Await o k =>
      match suspend (log (Began o) w) with
      | (Returned _, w1) =>
          let '(a, w2) := perform o w1 in run (k a) (log (Ended o a) w2)
      | (r, w1) => (not_returned r, w1)
      end
  | Fork p' k =>
      match start p' w with
      | (Returned _, w') => run k w'
      | (r, w') => (not_returned r, w')
      end
  end.

(** After the main flow has returned the process lives until the calls
    that were not awaited are done. *)
Fixpoint drain (fuel : nat) (w : world) : outcome unit * world :=
  match fuel with
  | O => (Unmodelled, w)
  | S fuel' =>
      match check_rejections w with
      | (Returned _, w') =>
          match pending w' with
          | [] => (Returned tt, w')
          | _ :: _ =>
              match advance w' with
              | (Returned _, w'') => drain fuel' w''
              | r => r
              end
          end
      | r => r
      end
  end.

Definition run_to_end (fuel : nat) (p : prog unit) (w : world)
  : outcome unit * world :=
  match run p w with
  | (Returned _, w') => drain fuel w'
  | r => r
  end.

End semantics.

(** A program that awaits every call it makes. *)
Fixpoint awaits_all {A : Type} (p : prog A) : Prop :=
  match p with
  | Ret _ | Throw _ | ExitProcess _ | Stuck => True
  | Do _ k | Await _ k => forall a, awaits_all (k a)
  | Fork _ _ => False
  end.

(** The trace only grows. *)
Definition extends (w w' : world) : Prop :=
  exists more, trace w' = trace w ++ more.

(** Two states of the world with the same files and directories and no
    call in flight. *)
Definition same_state (w w' : world) : Prop :=
  files w = files w' /\ dirs w = dirs w' /\ pending w = [] /\ pending w' = [].

End Node.

(** ** The scripts

    [Shared] holds the functions that the two scripts have in common,
    character for character; [Generator] is the script with Tailwind CSS
    support and [Legacy] is [js-generator.js]. *)

Module Shared.
Import JS Node.

Definition dq : string := String JSON.dquote EmptyString.
Definition newline : string := String "010"%char EmptyString.

Section shared.

(** The directory of the running script, where the templates are. *)
Variable dirname : string.

(** The text of the [message] of an error that the runtime creates. *)
Variable runtime_message : error -> string.

Definition message (e : error) : string :=
  match e with
  | Error m => m
  | ChildError m => m
  | _ => runtime_message e
  end.

Definition TSCONFIG : string := path_join dirname "project_config/tsconfig.json".
Definition ESLINT_CONFIG_JS : string :=
  path_join dirname "project_config/.eslintrc_js.json".
Definition ESLINT_CONFIG_TS : string :=
  path_join dirname "project_config/.eslintrc_ts.json".
Definition PRETTIER_CONFIG : string :=
  path_join dirname "project_config/.prettierrc.json".
Definition GITIGNORE : string := path_join dirname "project_config/.gitignore".

(** The colours of [chalk] are left out of what is printed. *)
Definition printCommand (command : string) : prog unit := console_log command.
Definition printOutput (output : string) : prog unit := console_log output.

(** An exit code inside a template literal. *)
Definition code_text (code : option Z) : string :=
  match code with
  | Some c => NilZero.string_of_int (Z.to_int c)
  | None => "null"
  end.

Definition is_zero (code : option Z) : bool :=
  match code with
  | Some c => (c =? 0)%Z
  | None => false
  end.

(** [runCommand(command, { cwd })].  When nothing matches, [match] gives
    [null] and [args.shift()] throws inside the executor, which rejects
    the promise. *)
Definition runCommand (command : string) (cwd : string) : prog unit :=
  printCommand command;;
  match Tokenizer.tokenize command with
  | [] => Throw (TypeError "args.shift")
  | cmd :: args =>
      Await (Spawn cmd args cwd) (fun a =>
        match a with
        | AProc (LaunchError error) =>
            console_error ("Error while executing command: " ++ command);;
            console_error_object error;;
            Throw error
        | AProc (ExitCode code) =>
            if is_zero code then Ret tt
            else
              let error :=
                Error ("Command " ++ dq ++ command ++ dq
                       ++ " failed with exit code " ++ code_text code) in
              console_error_object error;;
              Throw error
        | _ => Stuck
        end)
  end.

Definition JSON_parse (text : string) : prog value :=
  match JSON.parse text with
  | JSON.Parsed v => Ret v
  | JSON.SyntaxError => Throw (JsonSyntaxError text)
  | JSON.Unmodelled => Stuck
  end.

(** [target[key]] for a key that no prototype defines; [None] is
    [undefined]. *)
Definition get_property (target : value) (key : string) : prog (option value) :=
  match target with
  | JNull => Throw (TypeError "read of null")
  | JObj o => Ret (obj_get o key)
  | _ => Ret None
  end.

(** [target[key] = v] in strict code, for a key that is not an array
    index, as far as [JSON.stringify] can tell afterwards: an array does
    not serialize such a property. *)
Definition set_property (target : value) (key : string) (v : value)
  : prog value :=
  match target with
  | JObj o => Ret (JObj (obj_set o key v))
  | JArr l => Ret (JArr l)
  | JNull => Throw (TypeError "write to null")
  | _ => Throw (TypeError "write to a primitive")
  end.

(** An object literal: the properties are defined in the order written. *)
Definition object_literal (props : list (string * value)) : obj :=
  spread_into [] props.

(** [{ ...old, ...scripts }]. *)
Definition merged_scripts (old : option value) (scripts : obj) : obj :=
  spread_into (spread_into [] (own_props old)) scripts.

(** [Object.keys(merged).sort().reduce((obj, key) => ({ ...obj, [key]:
    merged[key] }), {})]. *)
Definition sorted_scripts (merged : obj) : obj :=
  fold_left
    (fun obj key =>
       match obj_get merged key with
       | Some v => obj_set (spread_into [] obj) key v
       | None => spread_into [] obj
       end)
    (sort_keys (obj_keys merged)) [].

(** What the two assignments to [packageJson.scripts] leave in a manifest
    that is an object. *)
Definition merged_manifest (o : obj) (scripts : obj) : obj :=
  let merged := merged_scripts (obj_get o "scripts") scripts in
  obj_set (obj_set o "scripts" (JObj merged)) "scripts"
          (JObj (sorted_scripts merged)).

Definition addScriptsToPackageJson (projectPath : string) (scripts : obj)
  : prog unit :=
  let packageJsonPath := path_join projectPath "package.json" in
  found ← existsSync packageJsonPath;
  if negb found then Throw (Error ("File not found: " ++ packageJsonPath))
  else
    packJsonFile ← readFile packageJsonPath;
    packageJson ← JSON_parse packJsonFile;
    old ← get_property packageJson "scripts";
    let merged := merged_scripts old scripts in
    packageJson ← set_property packageJson "scripts" (JObj merged);
    let sortedScripts := sorted_scripts merged in
    packageJson ← set_property packageJson "scripts" (JObj sortedScripts);
    writeFile packageJsonPath (JSON.stringify packageJson).

Definition createEslintConfig (projectPath type : string) : prog unit :=
  eslintConfig ←
    (if String.eqb type "JavaScript" then
       runCommand "npm install --save-dev eslint-config-airbnb" projectPath;;
       readFile ESLINT_CONFIG_JS
     else if String.eqb type "TypeScript" then readFile ESLINT_CONFIG_TS
     else Throw (Error "Invalid project type"));
  writeFile (path_join projectPath ".eslintrc.json") eslintConfig.

Definition createPrettierConfig (projectPath : string) : prog unit :=
  prettierConfig ← readFile PRETTIER_CONFIG;
  writeFile (path_join projectPath ".prettierrc.json") prettierConfig.

Definition setupGit (projectPath : string) (useGit : bool)
    (projectName : string) : prog unit :=
  (if useGit then
     gitIgnore ← readFile GITIGNORE;
     writeFile (path_join projectPath ".gitignore") gitIgnore;;
     runCommand "git init" projectPath;;
     runCommand "git add ." projectPath;;
     runCommand ("git commit -m " ++ dq ++ "Initial commit: project setup" ++ dq)
                projectPath;;
     runCommand "git checkout -b dev" projectPath;;
     printOutput "Git has been set up, and you are now on the 'dev' branch."
   else Ret tt);;
  printOutput ("Project " ++ projectName ++ " has been created").

End shared.
End Shared.

Module Generator.
Import JS Node Shared.

Section generator.
Variable dirname : string.
Variable runtime_message : error -> string.

(** [process.cwd()]. *)
Variable cwd : string.

Definition modulePackageJson (projectPath : string) : prog unit :=
  let packageJsonPath := path_join projectPath "package.json" in
  found ← existsSync packageJsonPath;
  if negb found then Throw (Error ("File not found: " ++ packageJsonPath))
  else
    packJsonFile ← readFile packageJsonPath;
    packageJson ← JSON_parse packJsonFile;
    packageJson ← set_property packageJson "type" (JStr "module");
    writeFile packageJsonPath (JSON.stringify packageJson).

Definition createNpmProject (projectPath : string) : prog unit :=
  try_catch
    (runCommand "npm init -y" projectPath;;
     runCommand
       "npm install --save-dev eslint prettier eslint-config-prettier eslint-config-airbnb eslint-plugin-import"
       projectPath;;
     modulePackageJson projectPath;;
     let scripts :=
       object_literal [("format", JStr "prettier --write .");
                       ("lint", JStr "eslint .")] in
     addScriptsToPackageJson projectPath scripts)
    (fun error =>
       console_error
         ("Error while creating npm project: " ++ message runtime_message error);;
       ExitProcess 1).

Definition setupTypescript (projectPath : string) (singleDevScript : bool)
  : prog unit :=
  runCommand
    "npm install --save-dev typescript @types/node @typescript-eslint/parser @typescript-eslint/eslint-plugin"
    projectPath;;
  tsconfig ← readFile (TSCONFIG dirname);
  writeFile (path_join projectPath "tsconfig.json") tsconfig;;
  mkdir (path_join projectPath "src") true;;
  (if singleDevScript then
     let scripts :=
       object_literal [("build", JStr "tsc"); ("dev", JStr "tsc -w");
                       ("typecheck", JStr "tsc -b")] in
     addScriptsToPackageJson projectPath scripts
   else
     addScriptsToPackageJson projectPath
       (object_literal [("dev:typescript", JStr "tsc -w")]));;
  writeFile (path_join (path_join projectPath "src") "app.ts")
            ("console.log(" ++ dq ++ "Hello, world!" ++ dq ++ ");").

(** [s.replace(/content: \[\],/, by)]: the first occurrence of the text
    the pattern spells is replaced; [by] has no dollar sign. *)
Fixpoint replace_first (pattern by_ : string) (s : string) : string :=
  if String.prefix pattern s
  then by_ ++ String.substring (String.length pattern)
                               (String.length s - String.length pattern) s
  else
    match s with
    | EmptyString => EmptyString
    | String c s' => String c (replace_first pattern by_ s')
    end.

Definition cssContent : string :=
  "@import 'tailwindcss/base';" ++ newline ++
  "  @import 'tailwindcss/components';" ++ newline ++
  "  @import 'tailwindcss/utilities';" ++ newline ++
  "  ".

Definition htmlContent (projectPath : string) : string :=
  newline ++
  "  <!DOCTYPE html>" ++ newline ++
  "  <html lang=" ++ dq ++ "en" ++ dq ++ ">" ++ newline ++
  "  <head>" ++ newline ++
  "    <meta charset=" ++ dq ++ "UTF-8" ++ dq ++ ">" ++ newline ++
  "    <meta name=" ++ dq ++ "viewport" ++ dq ++ " content=" ++ dq ++
  "width=device-width, initial-scale=1.0" ++ dq ++ ">" ++ newline ++
  "    <title>" ++ projectPath ++ "</title>" ++ newline ++
  "    <link href=" ++ dq ++ "./build/output.css" ++ dq ++ " rel=" ++ dq ++
  "stylesheet" ++ dq ++ ">" ++ newline ++
  "  </head>" ++ newline ++
  "  <body class=" ++ dq ++ "bg-gray-200 text-gray-900" ++ dq ++ ">" ++ newline ++
  "    <!-- Your content here -->" ++ newline ++
  "  </body>" ++ newline ++
  "  </html>" ++ newline ++
  "  ".

Definition setupTailwindcss (projectPath type : string)
    (singleDevScript : bool) : prog unit :=
  runCommand "npm install --save-dev tailwindcss" projectPath;;
  let configType := if String.eqb type "TypeScript" then "--ts" else "--esm" in
  runCommand ("npx tailwindcss init " ++ configType) projectPath;;
  mkdir (path_join projectPath "src/styles") true;;
  let tailwindConfigFileName :=
    if String.eqb type "TypeScript" then "tailwind.config.ts"
    else "tailwind.config.js" in
  let tailwindConfigPath := path_join projectPath tailwindConfigFileName in
  tailwindConfigFile ← readFile tailwindConfigPath;
  let tailwindConfigFile :=
    replace_first "content: [],"
      ("content: [" ++ dq ++ "./src/**/*.{html,js}" ++ dq ++ ", " ++ dq
       ++ "./index.html" ++ dq ++ "],")
      tailwindConfigFile in
  writeFile tailwindConfigPath tailwindConfigFile;;
  writeFile (path_join (path_join projectPath "src/styles/") "styles.css")
            cssContent;;
  writeFile (path_join projectPath "index.html") (htmlContent projectPath);;
  (if singleDevScript then
     Fork
       (addScriptsToPackageJson projectPath
          (object_literal
             [("css",
               JStr "tailwindcss -i ./src/styles.css -o ./build/output.css --watch")]))
       (Ret tt)
   else
     addScriptsToPackageJson projectPath
       (object_literal
          [("dev:tailwind",
            JStr "tailwindcss -i ./src/styles/tailwind.css -o ./build/output.css --watch")]));;
  runCommand "npm install --save-dev prettier-plugin-tailwindcss" projectPath.

(** The value the variable [singleDevScript] of [createProject] has once
    it is used. *)
Definition singleDevScript (type : string) (useTailwindcss : bool) : bool :=
  negb (String.eqb type "TypeScript" && useTailwindcss).

Definition createProject (projectName type : string)
    (useTailwindcss useGit : bool) : prog unit :=
  try_catch
    (let projectPath := path_resolve cwd projectName in
     mkdir projectPath false;;
     createNpmProject projectPath;;
     (if String.eqb type "TypeScript" && useTailwindcss then
        runCommand "npm install --save-dev npm-run-all" projectPath;;
        addScriptsToPackageJson projectPath
          (object_literal [("dev", JStr "run-p dev:*")])
      else Ret tt);;
     (if String.eqb type "TypeScript" then
        setupTypescript projectPath (singleDevScript type useTailwindcss)
      else Ret tt);;
     (if useTailwindcss then
        setupTailwindcss projectPath type (singleDevScript type useTailwindcss)
      else Ret tt);;
     createEslintConfig dirname projectPath type;;
     createPrettierConfig dirname projectPath;;
     setupGit dirname projectPath useGit projectName)
    (fun error =>
       console_error ("Error creating project: " ++ message runtime_message error);;
       ExitProcess 1).

End generator.
End Generator.

Module Legacy.
Import JS Node Shared.

Section legacy.
Variable dirname : string.
Variable runtime_message : error -> string.
Variable cwd : string.

Definition createNpmProject (projectPath : string) : prog unit :=
  try_catch
    (runCommand "npm init -y" projectPath;;
     runCommand
       "npm install --save-dev eslint prettier eslint-config-prettier eslint-config-airbnb eslint-plugin-import"
       projectPath;;
     let scripts :=
       object_literal [("format", JStr "prettier --write .");
                       ("lint", JStr "eslint .")] in
     addScriptsToPackageJson projectPath scripts)
    (fun error =>
       console_error
         ("Error while creating npm project: " ++ message runtime_message error);;
       ExitProcess 1).

Definition installTypescript (projectPath : string) : prog unit :=
  runCommand
    "npm install typescript @types/node @typescript-eslint/parser @typescript-eslint/eslint-plugin"
    projectPath;;
  tsconfig ← readFile (TSCONFIG dirname);
  writeFile (path_join projectPath "tsconfig.json") tsconfig;;
  mkdir (path_join projectPath "src") false;;
  let scripts :=
    object_literal [("build", JStr "tsc"); ("dev", JStr "tsc -w");
                    ("typecheck", JStr "tsc -b")] in
  addScriptsToPackageJson projectPath scripts.

Definition createProject (projectName type : string) (useGit : bool)
  : prog unit :=
  try_catch
    (let projectPath := path_resolve cwd projectName in
     mkdir projectPath false;;
     createNpmProject projectPath;;
     (if String.eqb type "TypeScript" then installTypescript projectPath
      else Ret tt);;
     createEslintConfig dirname projectPath type;;
     createPrettierConfig dirname projectPath;;
     setupGit dirname projectPath useGit projectName)
    (fun error =>
       console_error ("Error creating project: " ++ message runtime_message error);;
       ExitProcess 1).

End legacy.
End Legacy.

(** ** A toolchain and a machine for the examples *)

Module Fixture.
Import JS Node Shared.

(** External commands that do nothing and succeed. *)
Definition no_tools (cmd : string) (args : list string) (cwd : string)
    (fs : gmap string string * gset string)
  : proc_result * (gmap string string * gset string) :=
  (ExitCode (Some 0%Z), fs).

(** The calls that are not awaited never get to run while the main flow is
    suspended. *)
Definition lazy : nat -> nat := fun _ => 0.

(** They always run to their end while the main flow is suspended. *)
Definition eager : nat -> nat := fun _ => 8.

Definition runtime_message (e : error) : string :=
  match e with
  | SystemError code syscall path => code ++ ": " ++ syscall ++ " " ++ path
  | TypeError what => "TypeError: " ++ what
  | JsonSyntaxError _ => "Unexpected token in JSON"
  | Error m | ChildError m => m
  end.

(** The manifest [npm init -y] writes, as far as the scripts care. *)
Definition npm_manifest : value :=
  JObj [("name", JStr "demo"); ("version", JStr "1.0.0");
        ("scripts", JObj [("test", JStr "echo no test")])].

(** [npm init -y] creates the manifest unless there is one, the Tailwind
    initializer writes its configuration file, everything else leaves the
    files alone; all succeed. *)
Definition toolchain (cmd : string) (args : list string) (cwd : string)
    (fs : gmap string string * gset string)
  : proc_result * (gmap string string * gset string) :=
  let manifest := path_join cwd "package.json" in
  if String.eqb cmd "npm" && bool_decide (args = ["init"; "-y"]) then
    match fst fs !! manifest with
    | Some _ => (ExitCode (Some 0%Z), fs)
    | None =>
        (ExitCode (Some 0%Z),
         (<[manifest := JSON.stringify npm_manifest]> (fst fs), snd fs))
    end
  else if String.eqb cmd "npx" then
    let config :=
      if bool_decide (args = ["tailwindcss"; "init"; "--ts"])
      then "tailwind.config.ts" else "tailwind.config.js" in
    (ExitCode (Some 0%Z),
     (<[path_join cwd config := "module.exports = { content: [], theme: {} }"]>
        (fst fs), snd fs))
  else (ExitCode (Some 0%Z), fs).

(** The same, except that one command line exits with status 1. *)
Definition failing (bad : string) (cmd : string) (args : list string)
    (cwd : string) (fs : gmap string string * gset string)
  : proc_result * (gmap string string * gset string) :=
  if String.eqb (String.concat " " (cmd :: args)) bad
  then (ExitCode (Some 1%Z), fs)
  else toolchain cmd args cwd fs.

Definition templates : gmap string string :=
  list_to_map
    [(TSCONFIG "/tool", "{}"); (ESLINT_CONFIG_JS "/tool", "{}");
     (ESLINT_CONFIG_TS "/tool", "{}"); (PRETTIER_CONFIG "/tool", "{}");
     (GITIGNORE "/tool", "node_modules")].

(** A machine with the templates and an empty working directory. *)
Definition machine : world := World templates {["/home"]} [] [] 0.

(** A machine whose only file is a manifest. *)
Definition with_manifest (path : string) (manifest : value) : world :=
  World {[ path := JSON.stringify manifest ]} ∅ [] [] 0.

(** The manifest stored at a path, when it parses. *)
Definition manifest_at (w : world) (path : string) : option value :=
  match files w !! path with
  | Some text =>
      match JSON.parse text with
      | JSON.Parsed v => Some v
      | _ => None
      end
  | None => None
  end.

(** A field of a manifest that is an object. *)
Definition field (manifest : option value) (key : string) : option value :=
  match manifest with
  | Some (JObj o) => obj_get o key
  | _ => None
  end.

End Fixture.

(** ** What a failed command leaves in the trace *)

Module Failure.
Import JS Node Shared.

(** The process ended as [runCommand] wants it to: [exit] with code 0. *)
Definition succeeded (r : proc_result) : bool :=
  match r with
  | ExitCode code => is_zero code
  | LaunchError _ => false
  end.

(** The error [runCommand] rejects with. *)
Definition command_error (command : string) (r : proc_result) : error :=
  match r with
  | LaunchError e => e
  | ExitCode code =>
      Error ("Command " ++ dq ++ command ++ dq ++ " failed with exit code "
             ++ code_text code)
  end.

(** What [runCommand] prints before it rejects. *)
Definition runner_report (command : string) (r : proc_result) : list event :=
  match r with
  | LaunchError e =>
      [Did (ConsoleError ("Error while executing command: " ++ command)) AUnit;
       Did (ConsoleErrorObject e) AUnit]
  | ExitCode _ => [Did (ConsoleErrorObject (command_error command r)) AUnit]
  end.

(** The end of a child process that did not succeed. *)
Definition failed_event (ev : event) : bool :=
  match ev with
  | Ended (Spawn _ _ _) (AProc r) => negb (succeeded r)
  | _ => false
  end.

Definition clean (t : list event) : Prop :=
  forallb (fun ev => negb (failed_event ev)) t = true.

Definition is_spawn (o : op) : bool :=
  match o with
  | Spawn _ _ _ => true
  | _ => false
  end.

(** A program that never awaits a child process. *)
Fixpoint quiet {A : Type} (p : prog A) : Prop :=
  match p with
  | Ret _ | Throw _ | ExitProcess _ | Stuck => True
  | Do _ k => forall a, quiet (k a)
  | Await o k => is_spawn o = false /\ forall a, quiet (k a)
  | Fork p' k => quiet p' /\ quiet k
  end.

Definition quiet_task (t : task) : Prop :=
  match t with
  | Suspended o k => is_spawn o = false /\ forall a, quiet (k a)
  | Rejected _ => True
  end.

Definition quiet_pending (w : world) : Prop := Forall quiet_task (pending w).

(** A step of the world that adds no failed command and leaves only quiet
    calls in flight. *)
Definition calm (w w' : world) : Prop :=
  quiet_pending w' /\ exists t, trace w' = trace w ++ t /\ clean t.

(** The two texts the scripts put before the message of a caught error. *)
Definition prefixes : list string :=
  ["Error creating project: "; "Error while creating npm project: "].

(** The names of the steps, in the specification and in the source. *)
Definition step_names : list string :=
  ["init-npm-project"; "set-module-type"; "setup-typescript";
   "setup-tailwind"; "setup-lint-config"; "setup-prettier-config";
   "setup-git"; "createNpmProject"; "modulePackageJson"; "setupTypescript";
   "setupTailwindcss"; "createEslintConfig"; "createPrettierConfig";
   "setupGit"].

Definition mentions (name line : string) : bool :=
  match String.index 0 name line with
  | Some _ => true
  | None => false
  end.

Definition names_a_step (line : string) : bool :=
  existsb (fun name => mentions name line) step_names.

Section shape.
Variable runtime_message : error -> string.

(** What [console.error] printed: a line, or the message of an error
    object (its stack is left out). *)
Definition error_lines (t : list event) : list string :=
  omap (fun ev =>
          match ev with
          | Did (ConsoleError line) _ => Some line
          | Did (ConsoleErrorObject e) _ => Some (message runtime_message e)
          | _ => None
          end) t.

(** The events a run adds and how it ends: either no command failed, or
    one did and the run stopped there, rejecting with the error of the
    command or, once a handler caught it, printing it and leaving with
    status 1. *)
Definition stopped {A : Type} (out : outcome A) (t : list event) : Prop :=
  clean t \/
  exists before command cmd args dir r,
    Tokenizer.tokenize command = cmd :: args /\
    succeeded r = false /\
    clean before /\
    ((out = Threw (command_error command r) /\
      t = before ++ Ended (Spawn cmd args dir) (AProc r)
                 :: runner_report command r)
     \/
     (out = Exited 1 /\
      exists prefix,
        prefix ∈ prefixes /\
        t = before ++ Ended (Spawn cmd args dir) (AProc r)
                   :: runner_report command r
                   ++ [Did (ConsoleError
                              (prefix ++ message runtime_message
                                           (command_error command r))) AUnit;
                       Exit 1])).

Section stops.
Variable exec :
  string -> list string -> string ->
  gmap string string * gset string ->
  proc_result * (gmap string string * gset string).
Variable sched : nat -> nat.

(** A program stops at the first command that fails. *)
Definition stops_on_failure {A : Type} (p : prog A) : Prop :=
  forall w,
    quiet_pending w ->
    quiet_pending (snd (run exec sched p w)) /\
    exists t,
      trace (snd (run exec sched p w)) = trace w ++ t /\
      stopped (fst (run exec sched p w)) t.

End stops.
End shape.

End Failure.

(** ** What a run may ask of the system *)

Module Policy.
Import JS Node Shared.

Section only.

(** The operations that are allowed. *)
Variable ok : op -> bool.

(** A program that asks for allowed operations only, in the calls it
    awaits and in those it does not. *)
Fixpoint only {A : Type} (p : prog A) : Prop :=
  match p with
  | Ret _ | Throw _ | ExitProcess _ | Stuck => True
  | Do o k | Await o k => ok o = true /\ forall a, only (k a)
  | Fork p' k => only p' /\ only k
  end.

Definition only_task (t : task) : Prop :=
  match t with
  | Suspended o k => ok o = true /\ forall a, only (k a)
  | Rejected _ => True
  end.

Definition only_pending (w : world) : Prop := Forall only_task (pending w).

(** An event of an allowed operation; the end of the process is always
    allowed. *)
Definition event_ok (ev : event) : bool :=
  match ev with
  | Did o _ | Began o | Ended o _ => ok o
  | Exit _ | Crashed _ => true
  end.

(** A step of the world that adds allowed events only and leaves only
    allowed calls in flight. *)
Definition within (w w' : world) : Prop :=
  only_pending w' /\
  exists t, trace w' = trace w ++ t /\ forallb event_ok t = true.

End only.

(** The script stays in the project: it writes, creates and looks for
    paths that start with the path of the project, reads there or in its
    own directory, and runs every command in the directory of the
    project. *)
Definition confined (dirname root : string) (o : op) : bool :=
  match o with
  | ConsoleLog _ | ConsoleError _ | ConsoleErrorObject _ => true
  | ExistsSync p | WriteFile p _ | Mkdir p _ => String.prefix root p
  | ReadFile p => String.prefix root p || String.prefix dirname p
  | Spawn _ _ cwd => String.eqb cwd root
  end.

(** The executables the script may launch. *)
Definition launches (executables : list string) (o : op) : bool :=
  match o with
  | Spawn cmd _ _ => existsb (String.eqb cmd) executables
  | _ => true
  end.

(** Everything but writing a file at one of the given paths. *)
Definition never_writes (paths : list string) (o : op) : bool :=
  match o with
  | WriteFile p _ => negb (existsb (String.eqb p) paths)
  | _ => true
  end.

(** Everything but printing one given line. *)
Definition never_prints (line : string) (o : op) : bool :=
  match o with
  | ConsoleLog l => negb (String.eqb l line)
  | _ => true
  end.

Section announces.
Variable exec :
  string -> list string -> string ->
  gmap string string * gset string ->
  proc_result * (gmap string string * gset string).
Variable sched : nat -> nat.
Variable line : string.

(** A program that prints the line when it returns, as the last thing it
    does, and never otherwise. *)
Definition announces {A : Type} (p : prog A) : Prop :=
  forall w,
    only_pending (never_prints line) w ->
    only_pending (never_prints line) (snd (run exec sched p w)) /\
    exists t,
      trace (snd (run exec sched p w)) = trace w ++ t /\
      match fst (run exec sched p w) with
      | Returned _ =>
          exists t0, t = t0 ++ [Did (ConsoleLog line) AUnit] /\
                     forallb (event_ok (never_prints line)) t0 = true
      | _ => forallb (event_ok (never_prints line)) t = true
      end.

End announces.

(** The event of a rejection that nobody handles. *)
Definition is_crash (ev : event) : bool :=
  match ev with
  | Crashed _ => true
  | _ => false
  end.

End Policy.

(** ** The scripts of the manifest, step by step *)

Module Scripts.
Import JS Node Shared.

(** The script stored under a key in the manifest at a path. *)
Definition script_of (f : gmap string string) (path key : string)
  : option value :=
  match f !! path with
  | Some text =>
      match JSON.parse text with
      | JSON.Parsed (JObj o) =>
          match obj_get o "scripts" with
          | Some (JObj s) => obj_get s key
          | _ => None
          end
      | _ => None
      end
  | None => None
  end.

(** The additions of a merge, from keys and command lines. *)
Definition additions (scripts : list (string * string)) : obj :=
  object_literal (map (fun kv => (fst kv, JStr (snd kv))) scripts).

(** No call is in flight and the manifest holds the scripts listed. *)
Definition ready (path : string) (scripts : list (string * string))
    (w : world) : Prop :=
  pending w = [] /\
  Forall (fun kv => script_of (files w) path (fst kv) = Some (JStr (snd kv)))
         scripts.

Section steps.
Variable exec :
  string -> list string -> string ->
  gmap string string * gset string ->
  proc_result * (gmap string string * gset string).
Variable sched : nat -> nat.

(** Commands that, run in a directory, leave the scripts of the manifest
    alone. *)
Definition keeps_scripts (cwd path : string) : Prop :=
  forall cmd args f d key v,
    script_of f path key = Some v ->
    script_of (fst (snd (exec cmd args cwd (f, d)))) path key = Some v.

(** When the program returns from a state of the first kind, it returns
    in a state of the second kind. *)
Definition hoare {A : Type} (P : world -> Prop) (p : prog A)
    (Q : world -> Prop) : Prop :=
  forall w a w1, P w -> run exec sched p w = (Returned a, w1) -> Q w1.

End steps.

End Scripts.

(** * Properties *)

Import JS.

(** ** Objects: lookup, keys and the enumeration order *)

Lemma obj_get_None_keys o k : obj_get o k = None <-> k ∉ obj_keys o.
Proof.
  induction o as [|[k' v'] o IH]; simpl.
  - split; [intros _ H; inversion H | done].
  - destruct (String.eqb_spec k' k) as [->|Hne].
    + split; [done | intros H; exfalso; apply H; left].
    + rewrite IH, not_elem_of_cons. intuition congruence.
Qed.

Lemma obj_has_false o k : obj_has o k = false <-> k ∉ obj_keys o.
Proof.
  unfold obj_has. rewrite <- obj_get_None_keys.
  destruct (obj_get o k); naive_solver.
Qed.

Lemma obj_has_true o k : obj_has o k = true <-> k ∈ obj_keys o.
Proof.
  destruct (obj_has o k) eqn:E.
  - split; [intros _|done]. destruct (decide (k ∈ obj_keys o)) as [|n]; [done|].
    apply obj_has_false in n. congruence.
  - apply obj_has_false in E. naive_solver.
Qed.

Lemma obj_update_keys o k v : obj_keys (obj_update o k v) = obj_keys o.
Proof.
  induction o as [|[k' v'] o IH]; simpl; [done|].
  destruct (String.eqb k' k); simpl; [done | by rewrite IH].
Qed.

Lemma N_to_uint_nonnil n : N.to_uint n <> Nil.
Proof. destruct n; [discriminate | apply DecimalPos.Unsigned.to_uint_nonnil]. Qed.

Lemma N_to_uint_unorm n : unorm (N.to_uint n) = N.to_uint n.
Proof.
  rewrite <- DecimalN.Unsigned.to_of. by rewrite DecimalN.Unsigned.of_to.
Qed.

Lemma canonical_numeral_spec k n :
  canonical_numeral k = Some n <-> k = string_of_N n.
Proof.
  unfold canonical_numeral, string_of_N. split.
  - destruct (NilZero.uint_of_string k) as [d|] eqn:Hd; [|done].
    destruct (uint_beq (unorm d) d) eqn:Hb; [|done].
    apply internal_uint_dec_bl in Hb. intros [= <-].
    rewrite DecimalN.Unsigned.to_of, Hb. symmetry. by apply NilZero.sus.
  - intros ->. rewrite NilZero.usu by apply N_to_uint_nonnil.
    rewrite N_to_uint_unorm.
    rewrite internal_uint_dec_lb by done.
    by rewrite DecimalN.Unsigned.of_to.
Qed.

Lemma array_index_Some k n :
  array_index k = Some n -> k = string_of_N n.
Proof.
  unfold array_index.
  destruct (canonical_numeral k) as [m|] eqn:Hm; [|done].
  destruct (m <=? 4294967294)%N; [|done].
  intros [= <-]. by apply canonical_numeral_spec.
Qed.

Lemma array_index_inj k k' n :
  array_index k = Some n -> array_index k' = Some n -> k = k'.
Proof. intros ->%array_index_Some ->%array_index_Some. done. Qed.

Lemma array_index_string_of_N n :
  (n <= 4294967294)%N -> array_index (string_of_N n) = Some n.
Proof.
  intros Hn. unfold array_index.
  rewrite (proj2 (canonical_numeral_spec _ n)) by done.
  by rewrite (proj2 (N.leb_le _ _)).
Qed.
Lemma key_before_ne k k' : key_before k k' = true -> k <> k'.
Proof.
  unfold key_before. intros [H _]%andb_true_iff.
  apply negb_true_iff, String.eqb_neq in H. done.
Qed.

Lemma key_before_trans k1 k2 k3 :
  key_before k1 k2 = true -> key_before k2 k3 = true -> k1 <> k3 ->
  key_before k1 k3 = true.
Proof.
  unfold key_before. intros [_ H12]%andb_true_iff [_ H23]%andb_true_iff Hne.
  apply andb_true_iff. split.
  { by apply negb_true_iff, String.eqb_neq. }
  destruct (array_index k1), (array_index k2), (array_index k3); try done.
  apply N.ltb_lt in H12, H23. apply N.ltb_lt. lia.
Qed.

Lemma keys_ordered_cons k ks :
  keys_ordered (k :: ks) = true <->
  Forall (fun k' => key_before k k' = true) ks /\ keys_ordered ks = true.
Proof.
  simpl. rewrite andb_true_iff, forallb_forall, Forall_forall.
  split; intros [H1 H2]; (split; [|done]); intros x Hx; apply H1.
  - by apply list_elem_of_In.
  - by apply list_elem_of_In.
Qed.

Lemma keys_ordered_snoc ks k :
  keys_ordered (ks ++ [k]) = true <->
  keys_ordered ks = true /\ Forall (fun k' => key_before k' k = true) ks.
Proof.
  induction ks as [|k0 ks IH].
  - simpl. split; [done | intros _; done].
  - change ((k0 :: ks) ++ [k]) with (k0 :: (ks ++ [k])).
    rewrite !keys_ordered_cons, IH, Forall_app, Forall_singleton, Forall_cons.
    tauto.
Qed.

Lemma keys_ordered_NoDup ks : keys_ordered ks = true -> NoDup ks.
Proof.
  induction ks as [|k ks IH]; [constructor|].
  intros [H1 H2]%keys_ordered_cons. constructor; [|auto].
  intros Hin. rewrite Forall_forall in H1. apply H1 in Hin.
  by apply key_before_ne in Hin.
Qed.

(** A key defined last on an object whose keys it may all follow lands at
    the end. *)
Lemma obj_insert_index_end n k v o :
  array_index k = Some n ->
  Forall (fun k' => key_before k' k = true) (obj_keys o) ->
  obj_insert_index n k v o = o ++ [(k, v)].
Proof.
  intros Hk. induction o as [|[k' v'] o IH]; simpl; [done|].
  intros [H1 H2]%Forall_cons. unfold key_before in H1. rewrite Hk in H1.
  apply andb_true_iff in H1 as [_ H1].
  destruct (array_index k') as [n'|]; [|done].
  rewrite H1. by rewrite IH.
Qed.

Lemma obj_set_end o k v :
  keys_ordered (obj_keys o ++ [k]) = true ->
  obj_set o k v = o ++ [(k, v)].
Proof.
  intros H. pose proof (keys_ordered_NoDup _ H) as Hnd.
  apply keys_ordered_snoc in H as [_ Hall].
  apply NoDup_app in Hnd as (_ & Hnin & _).
  unfold obj_set.
  assert (obj_has o k = false) as ->.
  { apply obj_has_false. intros Hin. apply (Hnin _ Hin). left. }
  destruct (array_index k) as [n|] eqn:Hk; [|done].
  by apply obj_insert_index_end.
Qed.

Lemma spread_into_ordered acc props :
  keys_ordered (obj_keys (acc ++ props)) = true ->
  spread_into acc props = acc ++ props.
Proof.
  revert acc. induction props as [|[k v] props IH]; intros acc H; simpl.
  - by rewrite app_nil_r.
  - unfold spread_into in *. simpl.
    replace (acc ++ (k, v) :: props) with ((acc ++ [(k, v)]) ++ props) in *
      by (by rewrite <- app_assoc).
    rewrite obj_set_end.
    + by apply IH.
    + unfold obj_keys in *. rewrite !map_app in H. simpl in H.
      clear IH. revert H. generalize (map fst acc ++ [k]). intros l.
      induction (map fst props) as [|x xs IHx] using rev_ind;
        [by rewrite app_nil_r|].
      rewrite app_assoc. intros [H _]%keys_ordered_snoc. auto.
Qed.

Lemma spread_into_nil o :
  keys_ordered (obj_keys o) = true -> spread_into [] o = o.
Proof. intros H. by apply (spread_into_ordered []). Qed.

Lemma obj_get_update_eq o k v :
  obj_has o k = true -> obj_get (obj_update o k v) k = Some v.
Proof.
  unfold obj_has. induction o as [|[k' v'] o IH]; simpl; [done|].
  destruct (String.eqb k' k) eqn:E; simpl; rewrite E; auto.
Qed.

Lemma obj_get_update_ne o k v k' :
  k <> k' -> obj_get (obj_update o k v) k' = obj_get o k'.
Proof.
  intros Hne. induction o as [|[k0 v0] o IH]; simpl; [done|].
  destruct (String.eqb_spec k0 k) as [->|H0]; simpl.
  - destruct (String.eqb_spec k k'); [done|]. done.
  - by rewrite IH.
Qed.

Lemma obj_insert_index_perm n k v o :
  obj_insert_index n k v o ≡ₚ (k, v) :: o.
Proof.
  induction o as [|[k' v'] o IH]; simpl; [done|].
  destruct (array_index k') as [n'|]; [|done].
  destruct (n' <? n)%N; [|done].
  rewrite IH. apply Permutation_swap.
Qed.

Lemma obj_set_new_perm o k v :
  obj_has o k = false -> obj_set o k v ≡ₚ (k, v) :: o.
Proof.
  intros H. unfold obj_set. rewrite H.
  destruct (array_index k).
  - apply obj_insert_index_perm.
  - symmetry. apply Permutation_cons_append.
Qed.

Lemma obj_get_perm o o' k :
  NoDup (obj_keys o) -> o ≡ₚ o' -> obj_get o k = obj_get o' k.
Proof.
  intros Hnd Hp. revert Hnd. induction Hp as [|[k0 v0] l l' Hp IH|[k0 v0] [k1 v1] l|l l' l'' H1 IH1 H2 IH2];
    intros Hnd; simpl in *.
  - done.
  - apply NoDup_cons in Hnd as [_ Hnd]. by rewrite IH.
  - apply NoDup_cons in Hnd as [Hn Hnd].
    destruct (String.eqb_spec k0 k) as [->|], (String.eqb_spec k1 k) as [->|]; try done.
    exfalso. apply Hn. left.
  - rewrite IH1 by done. apply IH2.
    unfold obj_keys in *. by rewrite <- H1.
Qed.

Lemma obj_get_set_eq o k v :
  NoDup (obj_keys o) -> obj_get (obj_set o k v) k = Some v.
Proof.
  intros Hnd. destruct (obj_has o k) eqn:E.
  - unfold obj_set. rewrite E. by apply obj_get_update_eq.
  - rewrite (obj_get_perm _ ((k, v) :: o)).
    + simpl. by rewrite String.eqb_refl.
    + unfold obj_keys. rewrite (obj_set_new_perm _ _ _ E). simpl.
      constructor; [by apply obj_has_false|done].
    + by apply obj_set_new_perm.
Qed.

Lemma obj_get_set_ne o k v k' :
  NoDup (obj_keys o) -> k <> k' -> obj_get (obj_set o k v) k' = obj_get o k'.
Proof.
  intros Hnd Hne. destruct (obj_has o k) eqn:E.
  - unfold obj_set. rewrite E. by apply obj_get_update_ne.
  - rewrite (obj_get_perm _ ((k, v) :: o)).
    + simpl. by destruct (String.eqb_spec k k').
    + unfold obj_keys. rewrite (obj_set_new_perm _ _ _ E). simpl.
      constructor; [by apply obj_has_false|done].
    + by apply obj_set_new_perm.
Qed.

Lemma obj_set_keys_perm o k v :
  obj_keys (obj_set o k v) ≡ₚ
  if obj_has o k then obj_keys o else k :: obj_keys o.
Proof.
  destruct (obj_has o k) eqn:E.
  - unfold obj_set. rewrite E. by rewrite obj_update_keys.
  - unfold obj_keys. by rewrite (obj_set_new_perm _ _ _ E).
Qed.

Lemma obj_set_NoDup o k v :
  NoDup (obj_keys o) -> NoDup (obj_keys (obj_set o k v)).
Proof.
  intros Hnd. rewrite obj_set_keys_perm.
  destruct (obj_has o k) eqn:E; [done|].
  constructor; [by apply obj_has_false|done].
Qed.

Lemma obj_insert_index_ordered n k v o :
  array_index k = Some n -> k ∉ obj_keys o ->
  keys_ordered (obj_keys o) = true ->
  keys_ordered (obj_keys (obj_insert_index n k v o)) = true.
Proof.
  intros Hk. induction o as [|[k' v'] o IH]; simpl; [done|].
  intros Hnin Ho. apply not_elem_of_cons in Hnin as [Hne Hnin].
  pose proof Ho as Ho'.
  apply (keys_ordered_cons k' (obj_keys o)) in Ho as [Hall Ho].
  assert (Hfront : (forall n', array_index k' = Some n' -> (n < n')%N) ->
    keys_ordered (k :: k' :: obj_keys o) = true).
  { intros Hlt. apply keys_ordered_cons. split; [|done].
    assert (Hkk' : key_before k k' = true).
    { unfold key_before. rewrite Hk.
      apply andb_true_iff. split; [by apply negb_true_iff, String.eqb_neq|].
      destruct (array_index k') as [n'|] eqn:Hk'; [|done].
      apply N.ltb_lt. by apply Hlt. }
    constructor; [done|].
    rewrite Forall_forall in Hall |- *. intros x Hx.
    apply (key_before_trans _ k'); auto. congruence. }
  destruct (array_index k') as [n'|] eqn:Hk'.
  - destruct (n' <? n)%N eqn:Hlt.
    + simpl. apply (keys_ordered_cons k'). split; [|by apply IH].
      rewrite Forall_forall in Hall |- *. intros x Hx.
      apply list_elem_of_In, in_map_iff in Hx as ([k0 v0] & <- & Hx).
      apply list_elem_of_In in Hx.
      rewrite obj_insert_index_perm in Hx.
      apply elem_of_cons in Hx as [[= -> ->]|Hx].
      * simpl. unfold key_before. rewrite Hk', Hk, Hlt.
        apply andb_true_iff. split; [|done].
        apply negb_true_iff, String.eqb_neq. congruence.
      * simpl. apply Hall. apply list_elem_of_In, in_map_iff.
        exists (k0, v0). split; [done|]. by apply list_elem_of_In.
    + apply Hfront. intros ? [= <-]. apply N.ltb_ge in Hlt.
      assert (n <> n'); [|lia]. intros ->.
      apply Hne. by eapply array_index_inj.
  - apply Hfront. done.
Qed.

Lemma obj_set_ordered o k v :
  keys_ordered (obj_keys o) = true ->
  keys_ordered (obj_keys (obj_set o k v)) = true.
Proof.
  intros Ho. unfold obj_set. destruct (obj_has o k) eqn:E.
  - by rewrite obj_update_keys.
  - apply obj_has_false in E.
    destruct (array_index k) as [n|] eqn:Hk.
    + by apply obj_insert_index_ordered.
    + unfold obj_keys. rewrite map_app. simpl.
      apply keys_ordered_snoc. split; [done|].
      rewrite Forall_forall. intros x Hx. unfold key_before. rewrite Hk.
      apply andb_true_iff. split.
      * apply negb_true_iff, String.eqb_neq. intros ->. done.
      * by destruct (array_index x).
Qed.

Lemma spread_into_keys_ordered acc props :
  keys_ordered (obj_keys acc) = true ->
  keys_ordered (obj_keys (spread_into acc props)) = true.
Proof.
  revert acc. unfold spread_into.
  induction props as [|[k v] props IH]; intros acc H; simpl; [done|].
  apply IH. by apply obj_set_ordered.
Qed.

(** ** The JSON codec: reading back what was written *)

Import JSON.

Lemma parse_string_body_escape c t :
  parse_string_body (escape_char c ++ t) =
  bind (parse_string_body t) (fun '(s, r) => Parsed (String c s, r)).
Proof.
  destruct c as [[] [] [] [] [] [] [] []]; reflexivity.
Qed.

Lemma parse_string_body_quote s rest :
  parse_string_body (flat_map escape_char (of_string s) ++ dquote :: rest)
  = Parsed (s, rest).
Proof.
  induction s as [|c s IH]; [reflexivity|].
  change (of_string (String c s)) with (c :: of_string s).
  simpl flat_map. rewrite <- app_assoc, parse_string_body_escape, IH.
  reflexivity.
Qed.


Lemma terminated_no_digit c rest :
  terminated (c :: rest) = true ->
  is_digit c = false /\ starts_fraction_or_exponent (c :: rest) = false.
Proof.
  simpl. intros [H|H]%orb_true_iff; apply Ascii.eqb_eq in H; by subst.
Qed.

Lemma take_digits_numeral d rest :
  terminated rest = true ->
  take_digits (of_string (NilEmpty.string_of_uint d) ++ rest)
  = (NilEmpty.string_of_uint d, rest).
Proof.
  intros Hr. induction d; simpl; try (rewrite IHd; reflexivity).
  destruct rest as [|c rest]; [done|].
  apply terminated_no_digit in Hr as [Hr _]. simpl. by rewrite Hr.
Qed.

Lemma NilZero_NilEmpty d :
  d <> Nil -> NilZero.string_of_uint d = NilEmpty.string_of_uint d.
Proof. by destruct d. Qed.

Lemma parse_number_numeral neg m rest :
  terminated rest = true ->
  (Z.of_N m <= max_safe_integer)%Z ->
  (neg = true -> m <> 0%N) ->
  parse_number neg (of_string (string_of_N m) ++ rest)
  = Parsed (JNum (if neg then - Z.of_N m else Z.of_N m), rest).
Proof.
  intros Hr Hm Hneg. unfold parse_number, string_of_N.
  rewrite NilZero_NilEmpty by apply N_to_uint_nonnil.
  rewrite take_digits_numeral by done.
  rewrite <- NilZero_NilEmpty by apply N_to_uint_nonnil.
  rewrite NilZero.usu by apply N_to_uint_nonnil.
  rewrite N_to_uint_unorm, internal_uint_dec_lb by done. simpl negb. cbv iota.
  assert (starts_fraction_or_exponent rest = false) as ->.
  { destruct rest; [done|]. by apply terminated_no_digit in Hr as [_ Hr]. }
  rewrite DecimalN.Unsigned.of_to.
  assert ((max_safe_integer <? Z.of_N m)%Z = false) as -> by (apply Z.ltb_ge; lia).
  destruct neg; [|done].
  assert ((Z.of_N m =? 0)%Z = false) as ->; [|done].
  apply Z.eqb_neq. specialize (Hneg eq_refl). lia.
Qed.

Lemma parse_value_digit fuel c r :
  is_digit c = true ->
  parse_value (S fuel) (c :: r) = parse_number false (c :: r).
Proof.
  destruct c as [[] [] [] [] [] [] [] []]; try discriminate; reflexivity.
Qed.

Lemma numeral_head m :
  exists c s, of_string (string_of_N m) = c :: s /\ is_digit c = true.
Proof.
  unfold string_of_N. pose proof (N_to_uint_nonnil m) as H.
  destruct (N.to_uint m); try done; simpl; eauto.
Qed.

Lemma number_text_nonneg m :
  number_text (Z.of_N m) = of_string (string_of_N m).
Proof. unfold number_text, string_of_N. by destruct m. Qed.

Lemma number_text_neg p :
  number_text (Z.neg p) = "-"%char :: of_string (string_of_N (N.pos p)).
Proof. reflexivity. Qed.

Lemma parse_value_number fuel n rest :
  terminated rest = true ->
  (Z.abs n <=? max_safe_integer)%Z = true ->
  parse_value (S fuel) (number_text n ++ rest) = Parsed (JNum n, rest).
Proof.
  intros Hr Hn. apply Z.leb_le in Hn.
  destruct n as [|p|p].
  - change 0%Z with (Z.of_N 0). rewrite number_text_nonneg.
    destruct (numeral_head 0) as (c & s & Hs & Hc).
    pose proof (parse_number_numeral false 0 rest Hr) as Hp.
    rewrite Hs in *. simpl app.
    rewrite parse_value_digit by done. apply Hp; [|done]. simpl. lia.
  - change (Z.pos p) with (Z.of_N (N.pos p)). rewrite number_text_nonneg.
    destruct (numeral_head (N.pos p)) as (c & s & Hs & Hc).
    pose proof (parse_number_numeral false (N.pos p) rest Hr) as Hp.
    rewrite Hs in *. simpl app.
    rewrite parse_value_digit by done. apply Hp; [|done]. simpl. lia.
  - rewrite number_text_neg.
    pose proof (parse_number_numeral true (N.pos p) rest Hr) as Hp.
    simpl in *. apply Hp; [lia|done].
Qed.

Lemma skip_ws_app ws t :
  forallb is_ws ws = true -> skip_ws (ws ++ t) = skip_ws t.
Proof.
  induction ws as [|c ws IH]; simpl; [done|].
  intros [-> H]%andb_true_iff. auto.
Qed.

Lemma skip_ws_idem t : skip_ws (skip_ws t) = skip_ws t.
Proof.
  induction t as [|c t IH]; simpl; [done|].
  destruct (is_ws c) eqn:E; [done|]. simpl. by rewrite E.
Qed.

Lemma parse_value_skip_ws fuel t :
  parse_value fuel (skip_ws t) = parse_value fuel t.
Proof. destruct fuel; simpl; [done|]. by rewrite skip_ws_idem. Qed.

Lemma parse_members_skip_ws fuel acc t :
  parse_members fuel acc (skip_ws t) = parse_members fuel acc t.
Proof. destruct fuel; simpl; [done|]. by rewrite skip_ws_idem. Qed.

Lemma parse_elements_skip_ws fuel acc t :
  parse_elements fuel acc (skip_ws t) = parse_elements fuel acc t.
Proof. destruct fuel; simpl; [done|]. by rewrite parse_value_skip_ws. Qed.

Lemma skip_ws_line ind t :
  forallb is_ws ind = true -> skip_ws (nl ++ ind ++ t) = skip_ws t.
Proof. intros H. simpl. by apply skip_ws_app. Qed.

Lemma gap_ws ind :
  forallb is_ws ind = true -> forallb is_ws (ind ++ gap) = true.
Proof. intros H. rewrite forallb_app, H. reflexivity. Qed.

Lemma ser_arr ind x l :
  ser ind (JArr (x :: l)) =
  "["%char :: items (ser (ind ++ gap)) (ind ++ gap) true (x :: l)
  ++ nl ++ ind ++ ["]"%char].
Proof. reflexivity. Qed.

Lemma ser_obj ind kv o :
  ser ind (JObj (kv :: o)) =
  "{"%char ::
  items (fun kv => quote (fst kv) ++ of_string ": " ++ ser (ind ++ gap) (snd kv))
        (ind ++ gap) true (kv :: o)
  ++ nl ++ ind ++ ["}"%char].
Proof. reflexivity. Qed.

(** A serialized value starts with a character that is neither white space
    nor a closing bracket. *)
Lemma ser_head ind v :
  exists c t, ser ind v = c :: t /\ is_ws c = false /\ Ascii.eqb c "]" = false.
Proof.
  destruct v as [|[]|n|s|[|x l]|[|kv o]]; try (simpl; eauto; fail).
  - destruct n as [|p|p].
    + simpl; eauto.
    + change (ser ind (JNum (Z.pos p))) with (number_text (Z.of_N (N.pos p))).
      rewrite number_text_nonneg.
      destruct (numeral_head (N.pos p)) as (c & s & -> & Hc).
      exists c, s. split; [done|].
      destruct c as [[] [] [] [] [] [] [] []]; try discriminate; done.
    + change (ser ind (JNum (Z.neg p))) with (number_text (Z.neg p)).
      rewrite number_text_neg. eauto.
Qed.

Lemma skip_ws_ser ind v rest :
  skip_ws (ser ind v ++ rest) = ser ind v ++ rest.
Proof.
  destruct (ser_head ind v) as (c & t & -> & Hc & _). simpl. by rewrite Hc.
Qed.

Lemma items_terminated {A} (item : A -> text) ind' l t :
  terminated (items item ind' false l ++ nl ++ t) = true.
Proof. by destruct l. Qed.

Lemma keys_ordered_app_l l1 l2 :
  keys_ordered (l1 ++ l2) = true -> keys_ordered l1 = true.
Proof.
  induction l2 as [|x xs IH] using rev_ind; [by rewrite app_nil_r|].
  rewrite app_assoc. intros [H _]%keys_ordered_snoc. auto.
Qed.

Lemma parse_value_S fuel t :
  parse_value (S fuel) t =
  match skip_ws t with
  | [] => SyntaxError
  | c :: r =>
      if Ascii.eqb c "n" then
        match r with
        | "u"%char :: "l"%char :: "l"%char :: r' => Parsed (JNull, r')
        | _ => SyntaxError
        end
      else if Ascii.eqb c "t" then
        match r with
        | "r"%char :: "u"%char :: "e"%char :: r' => Parsed (JBool true, r')
        | _ => SyntaxError
        end
      else if Ascii.eqb c "f" then
        match r with
        | "a"%char :: "l"%char :: "s"%char :: "e"%char :: r' =>
            Parsed (JBool false, r')
        | _ => SyntaxError
        end
      else if Ascii.eqb c dquote then
        bind (parse_string_body r) (fun '(s, r') => Parsed (JStr s, r'))
      else if Ascii.eqb c "[" then
        match skip_ws r with
        | c' :: r' =>
            if Ascii.eqb c' "]" then Parsed (JArr [], r')
            else parse_elements fuel [] r
        | [] => SyntaxError
        end
      else if Ascii.eqb c "{" then
        match skip_ws r with
        | c' :: r' =>
            if Ascii.eqb c' "}" then Parsed (JObj [], r')
            else parse_members fuel [] r
        | [] => SyntaxError
        end
      else if Ascii.eqb c "-" then parse_number true r
      else if is_digit c then parse_number false (c :: r)
      else SyntaxError
  end.
Proof. reflexivity. Qed.

Lemma parse_elements_S fuel acc t :
  parse_elements (S fuel) acc t =
  bind (parse_value fuel t) (fun '(v, r) =>
    match skip_ws r with
    | c :: r' =>
        if Ascii.eqb c "," then parse_elements fuel (acc ++ [v]) r'
        else if Ascii.eqb c "]" then Parsed (JArr (acc ++ [v]), r')
        else SyntaxError
    | [] => SyntaxError
    end).
Proof. reflexivity. Qed.

Lemma parse_members_S fuel acc t :
  parse_members (S fuel) acc t =
  match skip_ws t with
  | c :: r =>
      if Ascii.eqb c dquote then
        bind (parse_string_body r) (fun '(k, r1) =>
          match skip_ws r1 with
          | c1 :: r2 =>
              if Ascii.eqb c1 ":" then
                bind (parse_value fuel r2) (fun '(v, r3) =>
                  match skip_ws r3 with
                  | c3 :: r4 =>
                      if Ascii.eqb c3 "," then
                        parse_members fuel (obj_set acc k v) r4
                      else if Ascii.eqb c3 "}" then
                        Parsed (JObj (obj_set acc k v), r4)
                      else SyntaxError
                  | [] => SyntaxError
                  end)
              else SyntaxError
          | [] => SyntaxError
          end)
      else SyntaxError
  | [] => SyntaxError
  end.
Proof. reflexivity. Qed.

Lemma parse_value_ws fuel ws t :
  forallb is_ws ws = true -> parse_value fuel (ws ++ t) = parse_value fuel t.
Proof.
  intros H. rewrite <- (parse_value_skip_ws _ (ws ++ t)), skip_ws_app by done.
  apply parse_value_skip_ws.
Qed.

Lemma parse_elements_ws fuel acc ws t :
  forallb is_ws ws = true ->
  parse_elements fuel acc (ws ++ t) = parse_elements fuel acc t.
Proof.
  intros H. rewrite <- (parse_elements_skip_ws _ _ (ws ++ t)), skip_ws_app by done.
  apply parse_elements_skip_ws.
Qed.

Lemma parse_members_ws fuel acc ws t :
  forallb is_ws ws = true ->
  parse_members fuel acc (ws ++ t) = parse_members fuel acc t.
Proof.
  intros H. rewrite <- (parse_members_skip_ws _ _ (ws ++ t)), skip_ws_app by done.
  apply parse_members_skip_ws.
Qed.

Lemma parse_members_member fuel acc k t :
  parse_members (S fuel) acc (quote k ++ of_string ": " ++ t) =
  bind (parse_value fuel t) (fun '(v, r3) =>
    match skip_ws r3 with
    | c3 :: r4 =>
        if Ascii.eqb c3 "," then parse_members fuel (obj_set acc k v) r4
        else if Ascii.eqb c3 "}" then Parsed (JObj (obj_set acc k v), r4)
        else SyntaxError
    | [] => SyntaxError
    end).
Proof.
  rewrite parse_members_S. unfold quote.
  change (skip_ws ((dquote :: ?a) ++ ?b)) with (dquote :: a ++ b).
  change (Ascii.eqb dquote dquote) with true. cbv iota.
  rewrite <- app_assoc.
  change ([dquote] ++ ?x) with (dquote :: x).
  rewrite parse_string_body_quote. simpl bind.
  change (skip_ws (of_string ": " ++ t)) with (":"%char :: " "%char :: t).
  change (Ascii.eqb ":" ":") with true. cbv iota.
  change (" "%char :: t) with ([" "%char] ++ t).
  by rewrite (parse_value_ws _ [" "%char]).
Qed.

Lemma items_cons_false {A} (item : A -> text) ind' x l :
  items item ind' false (x :: l) =
  ","%char :: nl ++ ind' ++ item x ++ items item ind' false l.
Proof. reflexivity. Qed.

Section reading_back.
Variable ind : text.
Variable rest : text.
Hypothesis ind_ws : forallb is_ws ind = true.

Let ind' := ind ++ gap.

Lemma parse_elements_items l :
  Forall (fun v => forall ind rest fuel,
            forallb is_ws ind = true -> terminated rest = true ->
            List.length (ser ind v) <= fuel ->
            parse_value fuel (ser ind v ++ rest) = Parsed (v, rest)) l ->
  forall x acc fuel,
    (forall ind rest fuel,
        forallb is_ws ind = true -> terminated rest = true ->
        List.length (ser ind x) <= fuel ->
        parse_value fuel (ser ind x ++ rest) = Parsed (x, rest)) ->
    List.length (ser ind' x ++ items (ser ind') ind' false l) < fuel ->
    parse_elements fuel acc
      (ser ind' x ++ items (ser ind') ind' false l ++ nl ++ ind ++ "]"%char :: rest)
    = Parsed (JArr (acc ++ x :: l), rest).
Proof.
  induction 1 as [|y l Hy Hl IH]; intros x acc fuel Hx Hlen;
    (destruct fuel as [|f]; [simpl in Hlen; lia|]);
    rewrite length_app in Hlen; rewrite parse_elements_S.
  - rewrite Hx; [|by apply gap_ws|apply items_terminated|lia].
    simpl bind. simpl items. simpl app at 1.
    rewrite skip_ws_app by done. reflexivity.
  - rewrite Hx; [|by apply gap_ws|apply items_terminated|lia].
    simpl bind. simpl items. simpl app at 1. cbn [skip_ws is_ws]. simpl.
    rewrite <- !app_assoc.
    etrans; [apply (parse_elements_ws _ _ ("010"%char :: ind'));
             simpl; by apply gap_ws|].
    rewrite IH; [by rewrite <- app_assoc|done|].
    simpl items in Hlen. simpl in Hlen. rewrite !length_app in *. lia.
Qed.

Let item (kv : string * value) : text :=
  quote (fst kv) ++ of_string ": " ++ ser ind' (snd kv).

Lemma parse_members_items o :
  Forall (fun kv => forall ind rest fuel,
            forallb is_ws ind = true -> terminated rest = true ->
            List.length (ser ind (snd kv)) <= fuel ->
            parse_value fuel (ser ind (snd kv) ++ rest)
            = Parsed (snd kv, rest)) o ->
  forall kv acc fuel,
    (forall ind rest fuel,
        forallb is_ws ind = true -> terminated rest = true ->
        List.length (ser ind (snd kv)) <= fuel ->
        parse_value fuel (ser ind (snd kv) ++ rest) = Parsed (snd kv, rest)) ->
    keys_ordered (obj_keys (acc ++ kv :: o)) = true ->
    List.length (item kv ++ items item ind' false o) < fuel ->
    parse_members fuel acc
      (item kv ++ items item ind' false o ++ nl ++ ind ++ "}"%char :: rest)
    = Parsed (JObj (acc ++ kv :: o), rest).
Proof.
  induction 1 as [|kv' o Hy Hl IH]; intros [k v] acc fuel Hx Hord Hlen;
    (destruct fuel as [|f]; [lia|]);
    rewrite length_app in Hlen;
    unfold item at 1; unfold item at 1 in Hlen;
    simpl fst in *; simpl snd in *; rewrite <- !app_assoc;
    rewrite !length_app in Hlen;
    rewrite parse_members_member.
  - rewrite Hx; [|by apply gap_ws|apply items_terminated|lia].
    cbn [bind items]. change ([] ++ ?x) with x.
    rewrite (skip_ws_app nl), skip_ws_app by done.
    change (skip_ws ("}"%char :: rest)) with ("}"%char :: rest).
    change (Ascii.eqb "}" ",") with false.
    change (Ascii.eqb "}" "}") with true. cbv iota.
    rewrite obj_set_end; [done|].
    unfold obj_keys in *. by rewrite map_app in Hord.
  - rewrite Hx; [|by apply gap_ws|apply items_terminated|lia].
    cbn [bind]. rewrite items_cons_false.
    change (skip_ws ((","%char :: ?a) ++ ?b)) with (","%char :: a ++ b).
    change (Ascii.eqb "," ",") with true. cbv iota.
    rewrite <- !app_assoc.
    rewrite (parse_members_ws _ _ nl) by done.
    rewrite (parse_members_ws _ _ ind') by (by apply gap_ws).
    rewrite obj_set_end.
    + rewrite (IH kv'); [by rewrite <- app_assoc|done| |].
      * by rewrite <- app_assoc.
      * rewrite items_cons_false in Hlen.
        change (List.length (?c :: ?l)) with (S (List.length l)) in Hlen.
        rewrite !length_app in Hlen. rewrite !length_app. lia.
    + replace (acc ++ (k, v) :: kv' :: o) with ((acc ++ [(k, v)]) ++ kv' :: o)
        in Hord by (by rewrite <- app_assoc).
      unfold obj_keys in *. rewrite map_app in Hord.
      apply keys_ordered_app_l in Hord. by rewrite map_app in Hord.
Qed.
End reading_back.

Lemma items_cons_true {A} (item : A -> text) ind' x l :
  items item ind' true (x :: l) =
  nl ++ ind' ++ item x ++ items item ind' false l.
Proof. reflexivity. Qed.

Lemma wf_arr_Forall l : wf (JArr l) = true <-> Forall (fun v => wf v = true) l.
Proof.
  simpl. rewrite forallb_forall, Forall_forall.
  split; intros H x Hx; apply H; by apply list_elem_of_In.
Qed.

Lemma wf_obj_Forall o :
  wf (JObj o) = true <->
  keys_ordered (obj_keys o) = true /\ Forall (fun kv => wf (snd kv) = true) o.
Proof.
  simpl. rewrite andb_true_iff, forallb_forall, Forall_forall.
  split; intros [H1 H]; (split; [done|]); intros x Hx; apply H;
    by apply list_elem_of_In.
Qed.

(** Every well-formed value is read back from its serialization, whatever
    the indentation and whatever follows. *)
Lemma parse_value_ser v :
  wf v = true ->
  forall ind rest fuel,
    forallb is_ws ind = true -> terminated rest = true ->
    List.length (ser ind v) <= fuel ->
    parse_value fuel (ser ind v ++ rest) = Parsed (v, rest).
Proof.
  induction v as [|b|n|s|l IH|o IH] using value_ind; intros Hwf ind rest fuel Hind Hrest Hlen.
  - destruct fuel; [simpl in Hlen; lia|]. reflexivity.
  - destruct fuel; [destruct b; simpl in Hlen; lia|]. by destruct b.
  - destruct fuel; [|by apply parse_value_number].
    destruct (ser_head ind (JNum n)) as (c & t & Hc & _).
    rewrite Hc in Hlen. simpl in Hlen. lia.
  - destruct fuel; [simpl in Hlen; lia|].
    rewrite parse_value_S. change (ser ind (JStr s)) with (quote s).
    unfold quote.
    change (skip_ws ((dquote :: ?a) ++ ?b)) with (dquote :: a ++ b).
    cbv beta iota.
    change (Ascii.eqb dquote "n") with false.
    change (Ascii.eqb dquote "t") with false.
    change (Ascii.eqb dquote "f") with false.
    change (Ascii.eqb dquote dquote) with true. cbv iota.
    rewrite <- app_assoc. change ([dquote] ++ ?x) with (dquote :: x).
    by rewrite parse_string_body_quote.
  - destruct l as [|x l].
    { destruct fuel; [simpl in Hlen; lia|]. reflexivity. }
    destruct fuel as [|f]; [simpl in Hlen; lia|].
    apply wf_arr_Forall in Hwf.
    apply Forall_cons in IH as [IHx IHl]. apply Forall_cons in Hwf as [Hx Hl].
    rewrite parse_value_S, ser_arr in *. rewrite items_cons_true in *.
    change (skip_ws (("["%char :: ?a) ++ ?b)) with ("["%char :: a ++ b).
    cbv beta iota.
    change (Ascii.eqb "[" "n") with false.
    change (Ascii.eqb "[" "t") with false.
    change (Ascii.eqb "[" "f") with false.
    change (Ascii.eqb "[" dquote) with false.
    change (Ascii.eqb "[" "[") with true. cbv iota.
    rewrite <- !app_assoc.
    rewrite (skip_ws_app nl), (skip_ws_app ind), (skip_ws_app gap), skip_ws_ser
      by done.
    destruct (ser_head (ind ++ gap) x) as (c & t & Hc & _ & Hc').
    rewrite Hc at 1. change ((c :: t) ++ ?x) with (c :: t ++ x).
    cbv beta iota. rewrite Hc'.
    rewrite (parse_elements_ws _ _ nl), (parse_elements_ws _ _ ind),
      (parse_elements_ws _ _ gap) by done.
    change (["]"%char] ++ rest) with ("]"%char :: rest).
    rewrite parse_elements_items; [done|done| |by auto|].
    + eapply Forall_impl; [apply Forall_and; split; [apply IHl|apply Hl]|].
      simpl. intros v [H1 H2]. by apply H1.
    + change (List.length (?c :: ?l)) with (S (List.length l)) in Hlen.
      rewrite !length_app in Hlen. rewrite length_app. simpl in Hlen. lia.
  - destruct o as [|[k v] o].
    { destruct fuel; [simpl in Hlen; lia|]. reflexivity. }
    destruct fuel as [|f]; [simpl in Hlen; lia|].
    apply wf_obj_Forall in Hwf as [Hord Hwf].
    apply Forall_cons in IH as [IHx IHl]. apply Forall_cons in Hwf as [Hx Hl].
    rewrite parse_value_S, ser_obj in *. rewrite items_cons_true in *.
    change (skip_ws (("{"%char :: ?a) ++ ?b)) with ("{"%char :: a ++ b).
    cbv beta iota.
    change (Ascii.eqb "{" "n") with false.
    change (Ascii.eqb "{" "t") with false.
    change (Ascii.eqb "{" "f") with false.
    change (Ascii.eqb "{" dquote) with false.
    change (Ascii.eqb "{" "[") with false.
    change (Ascii.eqb "{" "{") with true. cbv iota.
    rewrite <- !app_assoc.
    rewrite (skip_ws_app nl), (skip_ws_app ind), (skip_ws_app gap) by done.
    cbn [fst snd]. unfold quote at 1.
    change (skip_ws ((dquote :: ?a) ++ ?b)) with (dquote :: a ++ b).
    cbv beta iota.
    change (Ascii.eqb dquote "}") with false. cbv iota.
    rewrite (parse_members_ws _ _ nl), (parse_members_ws _ _ ind),
      (parse_members_ws _ _ gap) by done.
    change (["}"%char] ++ rest) with ("}"%char :: rest).
    pose proof (parse_members_items ind rest Hind o) as Hm.
    cbv zeta in Hm. specialize (Hm ltac:(
      eapply Forall_impl; [apply Forall_and; split; [apply IHl|apply Hl]|];
      simpl; intros kv [H1 H2]; by apply H1) (k, v) []).
    cbn [fst snd app] in Hm. rewrite <- !app_assoc in Hm.
    rewrite Hm; [done|by auto|done|].
    change (List.length (?c :: ?l)) with (S (List.length l)) in Hlen.
    rewrite !length_app in Hlen. rewrite !length_app.
    cbn [fst snd List.length] in Hlen. lia.
Qed.

Lemma of_to_string t : of_string (to_string t) = t.
Proof. apply list_ascii_of_string_of_list_ascii. Qed.

Lemma to_of_string s : to_string (of_string s) = s.
Proof. apply string_of_list_ascii_of_string. Qed.

Lemma parse_stringify v : wf v = true -> parse (stringify v) = Parsed v.
Proof.
  intros Hwf. unfold parse, stringify. rewrite of_to_string.
  rewrite <- (app_nil_r (ser [] v)) at 2.
  rewrite parse_value_ser; [done|done|done|done|lia].
Qed.

(** *** What the parser returns is well formed *)

Lemma wf_obj_set o k v :
  wf (JObj o) = true -> wf v = true -> wf (JObj (obj_set o k v)) = true.
Proof.
  rewrite !wf_obj_Forall. intros [Hord Hall] Hv. split.
  - by apply obj_set_ordered.
  - unfold obj_set. destruct (obj_has o k) eqn:E.
    + clear E Hord. induction o as [|[k' v'] o IH]; simpl; [done|].
      apply Forall_cons in Hall as [H1 H2].
      destruct (String.eqb k' k); constructor; auto.
    + destruct (array_index k) as [n|].
      * rewrite obj_insert_index_perm. by constructor.
      * rewrite Forall_app. split; [done|]. by constructor.
Qed.

Lemma parse_number_wf neg t v r :
  parse_number neg t = Parsed (v, r) -> wf v = true.
Proof.
  unfold parse_number. destruct (take_digits t) as [ds r0].
  destruct (NilZero.uint_of_string ds) as [d|]; [|done].
  destruct (negb _); [done|].
  destruct (starts_fraction_or_exponent r0); [done|].
  destruct (max_safe_integer <? Z.of_N (N.of_uint d))%Z eqn:E; [done|].
  apply Z.ltb_ge in E.
  destruct neg.
  - destruct (Z.of_N (N.of_uint d) =? 0)%Z; [done|].
    intros [= <- <-]. simpl. apply Z.leb_le. lia.
  - intros [= <- <-]. simpl. apply Z.leb_le. lia.
Qed.

Lemma bind_Parsed {A B} (r : result A) (f : A -> result B) b :
  bind r f = Parsed b -> exists a, r = Parsed a /\ f a = Parsed b.
Proof. destruct r; simpl; eauto; done. Qed.

Lemma parse_value_wf fuel :
  (forall t v r, parse_value fuel t = Parsed (v, r) -> wf v = true) /\
  (forall acc t v r,
      wf (JArr acc) = true ->
      parse_elements fuel acc t = Parsed (v, r) -> wf v = true) /\
  (forall acc t v r,
      wf (JObj acc) = true ->
      parse_members fuel acc t = Parsed (v, r) -> wf v = true).
Proof.
  induction fuel as [|f (IHv & IHe & IHm)]; [by repeat split|].
  split; [|split].
  - intros t v r. rewrite parse_value_S.
    repeat (case_match; try done); try (by intros [= <- <-]).
    + intros ([s r'] & _ & [= <- <-])%bind_Parsed. done.
    + by eapply IHe.
    + by eapply IHm.
    + eapply parse_number_wf.
    + eapply parse_number_wf.
  - intros acc t v r Hacc. rewrite parse_elements_S.
    intros ([v' r'] & Hv & Hk)%bind_Parsed. apply IHv in Hv.
    assert (wf (JArr (acc ++ [v'])) = true) as Hacc'.
    { simpl in *. rewrite forallb_app, Hacc. simpl. by rewrite Hv. }
    revert Hk. repeat (case_match; try done).
    + by eapply IHe.
    + by intros [= <- <-].
  - intros acc t v r Hacc. rewrite parse_members_S.
    repeat (case_match; try done).
    intros ([k r1] & _ & Hk)%bind_Parsed. revert Hk.
    repeat (case_match; try done).
    intros ([v' r3] & Hv & Hk)%bind_Parsed. apply IHv in Hv.
    pose proof (wf_obj_set _ k _ Hacc Hv) as Hacc'.
    revert Hk. repeat (case_match; try done).
    + by eapply IHm.
    + by intros [= <- <-].
Qed.

Lemma parse_wf s v : parse s = Parsed v -> wf v = true.
Proof.
  unfold parse. intros ([v' r] & Hv & H)%bind_Parsed.
  destruct (skip_ws r); [|done]. injection H as <-.
  by eapply (proj1 (parse_value_wf _)).
Qed.

(** ** The runtime: sequencing, catching, and runs without calls in flight *)

Import Node.

Section run_facts.
Variable exec :
  string -> list string -> string ->
  gmap string string * gset string ->
  proc_result * (gmap string string * gset string).
Variable sched : nat -> nat.

#[local] Abbreviation run := (Node.run exec sched).
#[local] Abbreviation start := (Node.start exec).
#[local] Abbreviation perform := (Node.perform exec).
#[local] Abbreviation suspend := (Node.suspend exec sched).

Lemma run_bind {A B} (p : prog A) (f : A -> prog B) w :
  run (bind p f) w =
  match run p w with
  | (Returned a, w') => run (f a) w'
  | (Threw e, w') => (Threw e, w')
  | (Exited c, w') => (Exited c, w')
  | (Unmodelled, w') => (Unmodelled, w')
  end.
Proof.
  revert f w. induction p as [A x|A e|A c|A|A o k IH|A o k IH|A p' _ k IH]; intros f w; simpl;
    try done.
  - destruct (perform o w) as [ans w']. apply IH.
  - destruct (suspend (log (Began o) w)) as [[| | |] w1]; try done.
    destruct (perform o w1) as [ans w2]. apply IH.
  - destruct (start p' w) as [[| | |] w']; try done.
Qed.

Lemma run_mbind {A B} (p : prog A) (f : A -> prog B) w :
  run (p ≫= f) w =
  match run p w with
  | (Returned a, w') => run (f a) w'
  | (Threw e, w') => (Threw e, w')
  | (Exited c, w') => (Exited c, w')
  | (Unmodelled, w') => (Unmodelled, w')
  end.
Proof. apply run_bind. Qed.

Lemma run_try_catch {A} (p : prog A) (h : error -> prog A) w :
  run (try_catch p h) w =
  match run p w with
  | (Threw e, w') => run (h e) w'
  | r => r
  end.
Proof.
  revert h w. induction p as [A x|A e|A c|A|A o k IH|A o k IH|A p' _ k IH]; intros h w; simpl;
    try done.
  - destruct (perform o w) as [ans w']. apply IH.
  - destruct (suspend (log (Began o) w)) as [[| | |] w1]; try done.
    destruct (perform o w1) as [ans w2]. apply IH.
  - destruct (start p' w) as [[| | |] w']; try done.
Qed.

(** With no call in flight a suspension only counts. *)
Lemma advance_n_idle n w :
  pending w = [] -> advance_n exec n w = (Returned tt, w).
Proof.
  intros H. induction n as [|n IH]; simpl; [done|].
  unfold advance. rewrite H. apply IH.
Qed.

Lemma suspend_idle w :
  pending w = [] -> suspend w = (Returned tt, tick w).
Proof.
  intros H. unfold Node.suspend, check_rejections. rewrite H. simpl.
  by apply advance_n_idle.
Qed.

Lemma run_Await_idle {A} o (k : answer -> prog A) w :
  pending w = [] ->
  run (Await o k) w =
  let '(a, w2) := perform o (tick (log (Began o) w)) in
  run (k a) (log (Ended o a) w2).
Proof. intros H. simpl. by rewrite suspend_idle. Qed.

End run_facts.

(** ** The merge of scripts, as a computation on objects *)

Import Shared.

Lemma obj_get_spread_into acc props k :
  NoDup (obj_keys acc) -> NoDup (obj_keys props) ->
  obj_get (spread_into acc props) k =
  match obj_get props k with
  | Some v => Some v
  | None => obj_get acc k
  end.
Proof.
  revert acc. unfold spread_into.
  induction props as [|[k0 v0] props IH]; intros acc Hacc Hprops; simpl; [done|].
  apply NoDup_cons in Hprops as [Hk0 Hprops]. cbn [fst] in Hk0.
  rewrite IH by (done || by apply obj_set_NoDup). cbn [fst snd].
  destruct (String.eqb_spec k0 k) as [->|Hne].
  - apply obj_get_None_keys in Hk0. rewrite Hk0. by apply obj_get_set_eq.
  - destruct (obj_get props k); [done|]. by apply obj_get_set_ne.
Qed.

Lemma spread_into_NoDup acc props :
  NoDup (obj_keys acc) -> NoDup (obj_keys (spread_into acc props)).
Proof.
  revert acc. unfold spread_into.
  induction props as [|[k v] props IH]; intros acc H; simpl; [done|].
  apply IH. by apply obj_set_NoDup.
Qed.

Lemma obj_set_Forall (P : string * value -> Prop) o k v :
  Forall P o -> P (k, v) -> Forall P (obj_set o k v).
Proof.
  intros Ho Hv. unfold obj_set. destruct (obj_has o k) eqn:E.
  - clear E. induction o as [|[k' v'] o IH]; simpl; [done|].
    apply Forall_cons in Ho as [H1 H2].
    destruct (String.eqb_spec k' k) as [->|]; constructor; auto.
  - destruct (array_index k) as [n|].
    + rewrite obj_insert_index_perm. by constructor.
    + rewrite Forall_app. split; [done|]. by constructor.
Qed.

Lemma spread_into_values (P : value -> Prop) acc props :
  Forall (fun kv => P (snd kv)) acc -> Forall (fun kv => P (snd kv)) props ->
  Forall (fun kv => P (snd kv)) (spread_into acc props).
Proof.
  revert acc. unfold spread_into.
  induction props as [|[k v] props IH]; intros acc Hacc Hprops; simpl; [done|].
  apply Forall_cons in Hprops as [Hv Hprops]. apply IH; [|done].
  by apply obj_set_Forall.
Qed.

Lemma obj_get_Forall (P : value -> Prop) o k v :
  Forall (fun kv => P (snd kv)) o -> obj_get o k = Some v -> P v.
Proof.
  induction o as [|[k' v'] o IH]; simpl; [done|].
  intros [H1 H2]%Forall_cons. destruct (String.eqb k' k); [|by auto].
  by intros [= <-].
Qed.

Lemma obj_keys_get o k : k ∈ obj_keys o <-> is_Some (obj_get o k).
Proof.
  rewrite <- obj_has_true. unfold obj_has.
  destruct (obj_get o k); split; try done; try (by eauto); by intros [].
Qed.

(** Objects with the same lookups have the same keys, up to order. *)
Lemma obj_keys_perm o o' :
  NoDup (obj_keys o) -> NoDup (obj_keys o') ->
  (forall k, obj_get o k = obj_get o' k) ->
  obj_keys o ≡ₚ obj_keys o'.
Proof.
  intros H1 H2 Hget. apply NoDup_Permutation; [done|done|].
  intros k. by rewrite !obj_keys_get, Hget.
Qed.

Lemma sort_keys_perm ks ks' : ks ≡ₚ ks' -> sort_keys ks = sort_keys ks'.
Proof.
  intros H. unfold sort_keys.
  apply (Sorted_unique String.le); try apply Sorted_merge_sort; try apply _.
  by rewrite !merge_sort_Permutation.
Qed.

Lemma sort_keys_Permutation ks : sort_keys ks ≡ₚ ks.
Proof. apply merge_sort_Permutation. Qed.

Lemma sort_keys_sorted ks : StronglySorted String.le (sort_keys ks).
Proof. apply StronglySorted_merge_sort; apply _. Qed.

Lemma obj_set_keys_elem o k v k' :
  k' ∈ obj_keys (obj_set o k v) <-> k' = k \/ k' ∈ obj_keys o.
Proof.
  rewrite obj_set_keys_perm. destruct (obj_has o k) eqn:E.
  - apply obj_has_true in E. split; [auto|]. intros [->|]; done.
  - by rewrite elem_of_cons.
Qed.

Section sorted_fold.
Variable merged : obj.

Let step (obj : JS.obj) (key : string) : JS.obj :=
  match obj_get merged key with
  | Some v => obj_set (spread_into [] obj) key v
  | None => spread_into [] obj
  end.

Lemma sorted_fold ks acc :
  NoDup ks ->
  keys_ordered (obj_keys acc) = true ->
  (forall k, k ∈ ks -> k ∉ obj_keys acc) ->
  (forall k, k ∈ ks -> is_Some (obj_get merged k)) ->
  keys_ordered (obj_keys (fold_left step ks acc)) = true /\
  (forall k, obj_get (fold_left step ks acc) k =
             if decide (k ∈ ks) then obj_get merged k else obj_get acc k).
Proof.
  revert acc. induction ks as [|k0 ks IH]; intros acc Hnd Hacc Hfresh Hin;
    cbn [fold_left].
  - split; [done|]. intros k.
    destruct (decide (k ∈ [])) as [Hk|]; [by apply elem_of_nil in Hk|done].
  - apply NoDup_cons in Hnd as [Hk0 Hnd].
    destruct (Hin k0) as [v Hv]; [left|].
    unfold step at 2 4. rewrite Hv, spread_into_nil by done.
    destruct (IH (obj_set acc k0 v)) as [H1 H2]; [done|by apply obj_set_ordered| |
      by intros; apply Hin; right|].
    { intros k Hk [->|Hk']%obj_set_keys_elem; [done|].
      by apply (Hfresh k); [right|]. }
    split; [done|]. intros k. rewrite H2.
    assert (NoDup (obj_keys acc)) by by apply keys_ordered_NoDup.
    destruct (decide (k ∈ ks)) as [Hk|Hk].
    + by rewrite decide_True by by right.
    + destruct (decide (k = k0)) as [->|Hne].
      * rewrite decide_True by left. by rewrite obj_get_set_eq.
      * rewrite decide_False by (rewrite elem_of_cons; tauto).
        by rewrite obj_get_set_ne.
Qed.

Lemma sorted_fold_values (P : value -> Prop) ks acc :
  Forall (fun kv => P (snd kv)) acc ->
  Forall (fun kv => P (snd kv)) merged ->
  Forall (fun kv => P (snd kv)) (fold_left step ks acc).
Proof.
  intros Hacc Hm. revert acc Hacc.
  induction ks as [|k0 ks IH]; intros acc Hacc; simpl; [done|].
  apply IH. unfold step.
  assert (Forall (fun kv => P kv.2) (spread_into [] acc)).
  { by apply spread_into_values. }
  destruct (obj_get merged k0) as [v|] eqn:Hv; [|done].
  apply obj_set_Forall; [done|].
  apply (obj_get_Forall P merged k0 v Hm Hv).
Qed.
End sorted_fold.

Lemma sorted_scripts_spec merged :
  keys_ordered (obj_keys merged) = true ->
  keys_ordered (obj_keys (sorted_scripts merged)) = true /\
  (forall k, obj_get (sorted_scripts merged) k = obj_get merged k).
Proof.
  intros Hm. pose proof (keys_ordered_NoDup _ Hm) as Hnd.
  destruct (sorted_fold merged (sort_keys (obj_keys merged)) []) as [H1 H2].
  - by rewrite sort_keys_Permutation.
  - done.
  - intros k _ Hk. by apply elem_of_nil in Hk.
  - intros k Hk. rewrite sort_keys_Permutation in Hk. by apply obj_keys_get.
  - split; [done|]. intros k. unfold sorted_scripts. rewrite H2.
    destruct (decide _) as [|Hk]; [done|]. simpl.
    rewrite sort_keys_Permutation in Hk.
    symmetry. by apply obj_get_None_keys.
Qed.

Lemma sorted_scripts_keys merged :
  keys_ordered (obj_keys merged) = true ->
  obj_keys (sorted_scripts merged) ≡ₚ obj_keys merged.
Proof.
  intros Hm. destruct (sorted_scripts_spec _ Hm) as [H1 H2].
  apply obj_keys_perm; [by apply keys_ordered_NoDup..|done].
Qed.

(** The sorted object depends only on the lookups of the merged one. *)
Lemma sorted_scripts_ext m m' :
  keys_ordered (obj_keys m) = true -> keys_ordered (obj_keys m') = true ->
  (forall k, obj_get m k = obj_get m' k) ->
  sorted_scripts m = sorted_scripts m'.
Proof.
  intros H1 H2 Hget. unfold sorted_scripts.
  rewrite (sort_keys_perm (obj_keys m) (obj_keys m'))
    by (apply obj_keys_perm; [by apply keys_ordered_NoDup..|done]).
  generalize (sort_keys (obj_keys m')). intros ks.
  match goal with
  | |- fold_left ?f _ _ = fold_left ?g _ _ => set (F := f); set (G := g)
  end.
  assert (HFG : forall a k, F a k = G a k).
  { intros a k. unfold F, G. by rewrite Hget. }
  generalize (@nil (string * value)) as acc.
  induction ks as [|k ks IH]; intros acc; simpl; [done|].
  by rewrite IH, HFG.
Qed.

Section sorted_fold_keys.
Variable merged : obj.

Let step (obj : JS.obj) (key : string) : JS.obj :=
  match obj_get merged key with
  | Some v => obj_set (spread_into [] obj) key v
  | None => spread_into [] obj
  end.

(** Keys that are not array indices are laid out in the order in which they
    are defined. *)
Lemma sorted_fold_keys ks acc :
  NoDup ks ->
  keys_ordered (obj_keys acc) = true ->
  (forall k, k ∈ ks -> k ∉ obj_keys acc) ->
  (forall k, k ∈ ks -> is_Some (obj_get merged k)) ->
  (forall k, k ∈ ks -> array_index k = None) ->
  obj_keys (fold_left step ks acc) = obj_keys acc ++ ks.
Proof.
  revert acc. induction ks as [|k0 ks IH]; intros acc Hnd Hacc Hfresh Hin Hidx;
    cbn [fold_left].
  - by rewrite app_nil_r.
  - apply NoDup_cons in Hnd as [Hk0 Hnd].
    destruct (Hin k0) as [v Hv]; [left|].
    unfold step at 2. rewrite Hv, spread_into_nil by done.
    assert (obj_set acc k0 v = acc ++ [(k0, v)]) as Hset.
    { unfold obj_set.
      rewrite (proj2 (obj_has_false acc k0)) by (apply Hfresh; left).
      by rewrite Hidx by left. }
    rewrite IH.
    + rewrite Hset. unfold obj_keys. rewrite map_app. simpl.
      by rewrite <- app_assoc.
    + done.
    + by apply obj_set_ordered.
    + intros k Hk [->|Hk']%obj_set_keys_elem; [done|].
      by apply (Hfresh k); [right|].
    + intros; apply Hin; by right.
    + intros; apply Hidx; by right.
Qed.
End sorted_fold_keys.

(** Without array indices among the keys, the stored scripts are in
    ascending order of code units. *)
Lemma sorted_scripts_ascending merged :
  keys_ordered (obj_keys merged) = true ->
  (forall k, k ∈ obj_keys merged -> array_index k = None) ->
  obj_keys (sorted_scripts merged) = sort_keys (obj_keys merged).
Proof.
  intros Hm Hidx. pose proof (keys_ordered_NoDup _ Hm) as Hnd.
  unfold sorted_scripts. rewrite sorted_fold_keys; try done.
  - by rewrite sort_keys_Permutation.
  - intros k _ Hk. by apply elem_of_nil in Hk.
  - intros k Hk. rewrite sort_keys_Permutation in Hk. by apply obj_keys_get.
  - intros k Hk. rewrite sort_keys_Permutation in Hk. by apply Hidx.
Qed.

Lemma merged_scripts_ordered old scripts :
  keys_ordered (obj_keys (merged_scripts old scripts)) = true.
Proof. unfold merged_scripts. by do 2 apply spread_into_keys_ordered. Qed.

(** The union, where the additions win. *)
Lemma merged_scripts_get s scripts k :
  keys_ordered (obj_keys s) = true -> NoDup (obj_keys scripts) ->
  obj_get (merged_scripts (Some (JObj s)) scripts) k =
  match obj_get scripts k with
  | Some v => Some v
  | None => obj_get s k
  end.
Proof.
  intros Hs Hsc. unfold merged_scripts. simpl own_props.
  rewrite spread_into_nil by done.
  apply obj_get_spread_into; [by apply keys_ordered_NoDup|done].
Qed.

Lemma merged_scripts_get_added old scripts k v :
  NoDup (obj_keys scripts) -> obj_get scripts k = Some v ->
  obj_get (merged_scripts old scripts) k = Some v.
Proof.
  intros Hsc Hk. unfold merged_scripts.
  rewrite obj_get_spread_into, Hk; [done| |done].
  apply spread_into_NoDup. constructor.
Qed.

Lemma obj_update_update o k v v' :
  obj_update (obj_update o k v) k v' = obj_update o k v'.
Proof.
  induction o as [|[k0 v0] o IH]; simpl; [done|].
  destruct (String.eqb k0 k) eqn:E; simpl; rewrite E; [done|]. by rewrite IH.
Qed.

Lemma obj_update_absent o k v : k ∉ obj_keys o -> obj_update o k v = o.
Proof.
  induction o as [|[k0 v0] o IH]; simpl; [done|].
  intros [Hne Hk]%not_elem_of_cons. cbn [fst] in Hne.
  destruct (String.eqb_spec k0 k); [congruence|]. by rewrite IH.
Qed.

Lemma obj_update_insert_index n k v v' o :
  k ∉ obj_keys o ->
  obj_update (obj_insert_index n k v o) k v' = obj_insert_index n k v' o.
Proof.
  induction o as [|[k0 v0] o IH]; simpl.
  - intros _. by rewrite String.eqb_refl.
  - intros [Hne Hk]%not_elem_of_cons. cbn [fst] in Hne.
    assert (String.eqb k0 k = false) as E by (apply String.eqb_neq; congruence).
    destruct (array_index k0) as [n0|]; [destruct (n0 <? n)%N|]; simpl;
      rewrite ?String.eqb_refl, ?E; try done.
    by rewrite IH.
Qed.

Lemma obj_set_set o k v v' : obj_set (obj_set o k v) k v' = obj_set o k v'.
Proof.
  assert (obj_has (obj_set o k v) k = true) as Hhas.
  { apply obj_has_true, obj_set_keys_elem. by left. }
  unfold obj_set at 1. rewrite Hhas. unfold obj_set.
  destruct (obj_has o k) eqn:E.
  - apply obj_update_update.
  - apply obj_has_false in E. destruct (array_index k) as [n|].
    + by apply obj_update_insert_index.
    + clear Hhas. induction o as [|[k0 v0] o IH]; simpl.
      * by rewrite String.eqb_refl.
      * apply not_elem_of_cons in E as [Hne E]. cbn [fst] in Hne.
        destruct (String.eqb_spec k0 k); [congruence|]. by rewrite IH.
Qed.

Lemma obj_update_same o k v : obj_get o k = Some v -> obj_update o k v = o.
Proof.
  induction o as [|[k0 v0] o IH]; simpl; [done|].
  destruct (String.eqb k0 k); [by intros [= ->]|].
  intros H. by rewrite IH.
Qed.

Lemma obj_set_same o k v : obj_get o k = Some v -> obj_set o k v = o.
Proof.
  intros H. unfold obj_set, obj_has. rewrite H. by apply obj_update_same.
Qed.

Lemma merged_manifest_eq o scripts :
  merged_manifest o scripts =
  obj_set o "scripts"
    (JObj (sorted_scripts (merged_scripts (obj_get o "scripts") scripts))).
Proof. unfold merged_manifest. apply obj_set_set. Qed.

Lemma own_props_wf old :
  (forall v, old = Some v -> wf v = true) ->
  Forall (fun kv => wf (snd kv) = true) (own_props old).
Proof.
  intros H. destruct old as [[|b|n|s|l|o]|]; simpl; try done.
  - clear H. generalize 0%N. induction s as [|c s IH]; intros i; simpl; [done|].
    constructor; [done|apply IH].
  - specialize (H _ eq_refl). apply wf_arr_Forall in H.
    generalize 0%N. induction H as [|x l Hx Hl IH]; intros i; simpl; [done|].
    constructor; [done|apply IH].
  - specialize (H _ eq_refl). by apply wf_obj_Forall in H as [_ H].
Qed.

Lemma merged_scripts_wf old scripts :
  (forall v, old = Some v -> wf v = true) -> wf (JObj scripts) = true ->
  Forall (fun kv => wf (snd kv) = true) (merged_scripts old scripts).
Proof.
  intros Hold [_ Hsc]%wf_obj_Forall. unfold merged_scripts.
  apply (spread_into_values (fun v => wf v = true)); [|done].
  apply (spread_into_values (fun v => wf v = true)); [done|].
  by apply own_props_wf.
Qed.

Lemma sorted_scripts_wf old scripts :
  (forall v, old = Some v -> wf v = true) -> wf (JObj scripts) = true ->
  wf (JObj (sorted_scripts (merged_scripts old scripts))) = true.
Proof.
  intros Hold Hsc. apply wf_obj_Forall. split.
  - apply sorted_scripts_spec, merged_scripts_ordered.
  - unfold sorted_scripts.
    apply (sorted_fold_values _ (fun v => wf v = true)); [done|].
    by apply merged_scripts_wf.
Qed.

Lemma obj_get_wf o k v :
  wf (JObj o) = true -> obj_get o k = Some v -> wf v = true.
Proof.
  intros [_ H]%wf_obj_Forall Hk.
  by apply (obj_get_Forall (fun v => wf v = true) o k v).
Qed.

Lemma merged_manifest_wf o scripts :
  wf (JObj o) = true -> wf (JObj scripts) = true ->
  wf (JObj (merged_manifest o scripts)) = true.
Proof.
  intros Ho Hsc. rewrite merged_manifest_eq.
  apply wf_obj_set; [done|]. apply sorted_scripts_wf; [|done].
  intros v Hv. apply (obj_get_wf o "scripts" v Ho Hv).
Qed.

(** Merging the same additions again changes nothing. *)
Lemma merged_manifest_idem o scripts :
  wf (JObj o) = true -> wf (JObj scripts) = true ->
  merged_manifest (merged_manifest o scripts) scripts = merged_manifest o scripts.
Proof.
  intros Ho Hsc.
  pose proof Ho as [Hord _]%wf_obj_Forall.
  pose proof Hsc as [Hsord _]%wf_obj_Forall.
  pose proof (keys_ordered_NoDup _ Hord) as Hnd.
  pose proof (keys_ordered_NoDup _ Hsord) as Hsnd.
  rewrite !merged_manifest_eq.
  set (m := merged_scripts (obj_get o "scripts") scripts).
  pose proof (merged_scripts_ordered (obj_get o "scripts") scripts) as Hm.
  fold m in Hm.
  destruct (sorted_scripts_spec m Hm) as [Hr Hget].
  rewrite (obj_get_set_eq o "scripts" _ Hnd).
  rewrite (sorted_scripts_ext
             (merged_scripts (Some (JObj (sorted_scripts m))) scripts) m);
    [by rewrite obj_set_set| |done|].
  - apply merged_scripts_ordered.
  - intros k. rewrite merged_scripts_get by done. rewrite Hget.
    destruct (obj_get scripts k) as [v|] eqn:Hk; [|done].
    symmetry. by apply merged_scripts_get_added.
Qed.

(** ** Runs of the file operations and of the merge *)

Section merge_runs.
Variable exec :
  string -> list string -> string ->
  gmap string string * gset string ->
  proc_result * (gmap string string * gset string).
Variable sched : nat -> nat.

#[local] Abbreviation run := (Node.run exec sched).

Lemma run_existsSync path w :
  run (existsSync path) w =
  (Returned (exists_path w path),
   log (Did (ExistsSync path) (ABool (exists_path w path))) w).
Proof. reflexivity. Qed.

Lemma run_readFile path w :
  pending w = [] ->
  run (readFile path) w =
  let w1 := tick (log (Began (ReadFile path)) w) in
  if bool_decide (path ∈ dirs w)
  then (Threw (SystemError "EISDIR" "read" path),
        log (Ended (ReadFile path) (AFailed (SystemError "EISDIR" "read" path))) w1)
  else
    match files w !! path with
    | Some s => (Returned s, log (Ended (ReadFile path) (AText s)) w1)
    | None =>
        (Threw (SystemError "ENOENT" "open" path),
         log (Ended (ReadFile path) (AFailed (SystemError "ENOENT" "open" path))) w1)
    end.
Proof.
  intros H. unfold readFile. rewrite run_Await_idle by done. simpl.
  destruct (bool_decide (path ∈ dirs w)); [done|].
  by destruct (files w !! path).
Qed.

Lemma run_writeFile path data w :
  pending w = [] ->
  run (writeFile path data) w =
  let w1 := tick (log (Began (WriteFile path data)) w) in
  if bool_decide (path ∈ dirs w)
  then (Threw (SystemError "EISDIR" "open" path),
        log (Ended (WriteFile path data)
                   (AFailed (SystemError "EISDIR" "open" path))) w1)
  else (Returned tt,
        log (Ended (WriteFile path data) AUnit)
            (set_files (<[path := data]> (files w)) w1)).
Proof.
  intros H. unfold writeFile. rewrite run_Await_idle by done. simpl.
  by destruct (bool_decide (path ∈ dirs w)).
Qed.

Lemma run_mkdir path w :
  pending w = [] ->
  run (mkdir path false) w =
  let w1 := tick (log (Began (Mkdir path false)) w) in
  if exists_path w path
  then (Threw (SystemError "EEXIST" "mkdir" path),
        log (Ended (Mkdir path false)
                   (AFailed (SystemError "EEXIST" "mkdir" path))) w1)
  else (Returned tt,
        log (Ended (Mkdir path false) AUnit)
            (set_dirs ({[path]} ∪ dirs w) w1)).
Proof.
  intros H. unfold mkdir. rewrite run_Await_idle by done. simpl.
  change (exists_path (tick (log (Began (Mkdir path false)) w)) path)
    with (exists_path w path).
  by destruct (exists_path w path).
Qed.

Lemma exists_path_file w path s :
  files w !! path = Some s -> exists_path w path = true.
Proof.
  intros H. unfold exists_path. rewrite bool_decide_eq_true_2; [done|by eauto].
Qed.

(** The manifest is missing: the merge throws at once. *)
Lemma run_addScripts_missing projectPath scripts w :
  exists_path w (path_join projectPath "package.json") = false ->
  run (addScriptsToPackageJson projectPath scripts) w =
  (Threw (Error ("File not found: " ++ path_join projectPath "package.json")),
   log (Did (ExistsSync (path_join projectPath "package.json")) (ABool false)) w).
Proof.
  intros H. unfold addScriptsToPackageJson.
  rewrite run_mbind, run_existsSync, H. reflexivity.
Qed.

(** The manifest is a file that holds an object: the merge stores the
    merged manifest. *)
Lemma run_addScripts_obj projectPath scripts w text o :
  let path := path_join projectPath "package.json" in
  let new := JSON.stringify (JObj (merged_manifest o scripts)) in
  pending w = [] ->
  path ∉ dirs w ->
  files w !! path = Some text ->
  JSON.parse text = JSON.Parsed (JObj o) ->
  run (addScriptsToPackageJson projectPath scripts) w =
  (Returned tt,
   log (Ended (WriteFile path new) AUnit)
     (set_files (<[path := new]> (files w))
        (tick (log (Began (WriteFile path new))
           (log (Ended (ReadFile path) (AText text))
              (tick (log (Began (ReadFile path))
                 (log (Did (ExistsSync path) (ABool true)) w)))))))).
Proof.
  intros path new Hp Hd Hf Hparse. unfold addScriptsToPackageJson.
  fold path.
  rewrite run_mbind, run_existsSync, (exists_path_file _ _ _ Hf).
  cbn [negb]. rewrite run_mbind, run_readFile by done.
  cbn [dirs log files]. rewrite bool_decide_eq_false_2, Hf by done.
  cbv zeta. rewrite run_mbind. unfold JSON_parse. rewrite Hparse.
  cbn [Node.run]. rewrite run_mbind. cbn [get_property Node.run].
  rewrite run_mbind. cbn [set_property Node.run].
  rewrite run_mbind. cbn [set_property Node.run].
  rewrite run_writeFile by done.
  cbn [dirs log files tick]. rewrite bool_decide_eq_false_2 by done.
  reflexivity.
Qed.

End merge_runs.

(** ** Programs that await every call *)

Lemma awaits_all_bind {A B} (p : prog A) (f : A -> prog B) :
  awaits_all p -> (forall a, awaits_all (f a)) -> awaits_all (bind p f).
Proof.
  revert f. induction p as [A x|A e|A c|A|A o k IH|A o k IH|A p' _ k IH];
    intros f Hp Hf; simpl in *; auto.
Qed.

Lemma awaits_all_mbind {A B} (p : prog A) (f : A -> prog B) :
  awaits_all p -> (forall a, awaits_all (f a)) -> awaits_all (p ≫= f).
Proof. apply awaits_all_bind. Qed.

Lemma awaits_all_try_catch {A} (p : prog A) (h : error -> prog A) :
  awaits_all p -> (forall e, awaits_all (h e)) -> awaits_all (try_catch p h).
Proof.
  revert h. induction p as [A x|A e|A c|A|A o k IH|A o k IH|A p' _ k IH];
    intros h Hp Hh; simpl in *; auto.
Qed.

Lemma awaits_all_as_unit a : awaits_all (as_unit a).
Proof. by destruct a. Qed.
Lemma awaits_all_as_bool a : awaits_all (as_bool a).
Proof. by destruct a. Qed.
Lemma awaits_all_as_text a : awaits_all (as_text a).
Proof. by destruct a. Qed.

Lemma awaits_all_addScripts projectPath scripts :
  awaits_all (addScriptsToPackageJson projectPath scripts).
Proof.
  unfold addScriptsToPackageJson.
  apply awaits_all_mbind; [intros a; apply awaits_all_as_bool|].
  intros []; simpl; [|done].
  intros a. destruct a as [| |text| |]; simpl; try done.
  unfold JSON_parse. destruct (JSON.parse text) as [v| |]; simpl; try done.
  destruct v as [|b|n|s|l|o]; simpl; try done; intros a; apply awaits_all_as_unit.
Qed.

Section determined.
Variable exec :
  string -> list string -> string ->
  gmap string string * gset string ->
  proc_result * (gmap string string * gset string).
Variable sched : nat -> nat.

#[local] Abbreviation run := (Node.run exec sched).

Lemma perform_same_state o w w' :
  same_state w w' ->
  fst (perform exec o w) = fst (perform exec o w') /\
  same_state (snd (perform exec o w)) (snd (perform exec o w')).
Proof.
  intros (Hf & Hd & Hp & Hp'). unfold same_state.
  destruct o as [l|l|e|p|p|p d|p r|c a cwd]; simpl; try done;
    unfold exists_path; rewrite ?Hf, ?Hd; try done.
  - destruct (bool_decide _); [done|]. by destruct (files w' !! p).
  - destruct (bool_decide _); simpl; by rewrite ?Hf.
  - destruct r.
    + destruct (bool_decide _); simpl; by rewrite ?Hd.
    + destruct (_ || _); simpl; by rewrite ?Hd.
  - by destruct (exec c a cwd (files w', dirs w')) as [r [f d]].
Qed.

(** Without calls in flight, what a program that awaits every call does
    depends on the files and directories only. *)
Lemma run_same_state {A} (p : prog A) w w' :
  awaits_all p -> same_state w w' ->
  fst (run p w) = fst (run p w') /\
  same_state (snd (run p w)) (snd (run p w')).
Proof.
  revert w w'. induction p as [A x|A e|A c|A|A o k IH|A o k IH|A p' _ k IH];
    intros w w' Hp Hs; simpl in Hp; try done.
  - split; [done|]. destruct Hs as (? & ? & ? & ?). by repeat split.
  - simpl. pose proof (perform_same_state o w w' Hs) as [H1 H2].
    destruct (perform exec o w) as [a w1], (perform exec o w') as [a' w1'].
    simpl in *. subst a'. apply IH; [done|].
    destruct H2 as (? & ? & ? & ?). by repeat split.
  - rewrite !run_Await_idle by apply Hs.
    assert (same_state (tick (log (Began o) w)) (tick (log (Began o) w'))) as Hs'.
    { destruct Hs as (? & ? & ? & ?). by repeat split. }
    pose proof (perform_same_state o _ _ Hs') as [H1 H2].
    destruct (perform exec o (tick (log (Began o) w))) as [a w1],
             (perform exec o (tick (log (Began o) w'))) as [a' w1'].
    simpl in *. subst a'. apply IH; [done|].
    destruct H2 as (? & ? & ? & ?). by repeat split.
Qed.

End determined.

Section merge_effect.
Variable exec :
  string -> list string -> string ->
  gmap string string * gset string ->
  proc_result * (gmap string string * gset string).
Variable sched : nat -> nat.

#[local] Abbreviation run := (Node.run exec sched).

(** The manifest is a file that holds an array: the array is written
    back. *)
Lemma run_addScripts_arr projectPath scripts w text l :
  let path := path_join projectPath "package.json" in
  let new := JSON.stringify (JArr l) in
  pending w = [] ->
  path ∉ dirs w ->
  files w !! path = Some text ->
  JSON.parse text = JSON.Parsed (JArr l) ->
  run (addScriptsToPackageJson projectPath scripts) w =
  (Returned tt,
   log (Ended (WriteFile path new) AUnit)
     (set_files (<[path := new]> (files w))
        (tick (log (Began (WriteFile path new))
           (log (Ended (ReadFile path) (AText text))
              (tick (log (Began (ReadFile path))
                 (log (Did (ExistsSync path) (ABool true)) w)))))))).
Proof.
  intros path new Hp Hd Hf Hparse. unfold addScriptsToPackageJson.
  fold path.
  rewrite run_mbind, run_existsSync, (exists_path_file _ _ _ Hf).
  cbn [negb]. rewrite run_mbind, run_readFile by done.
  cbn [dirs log files]. rewrite bool_decide_eq_false_2, Hf by done.
  cbv zeta. rewrite run_mbind. unfold JSON_parse. rewrite Hparse.
  cbn [Node.run]. rewrite run_mbind. cbn [get_property Node.run].
  rewrite run_mbind. cbn [set_property Node.run].
  rewrite run_mbind. cbn [set_property Node.run].
  rewrite run_writeFile by done.
  cbn [dirs log files tick]. rewrite bool_decide_eq_false_2 by done.
  reflexivity.
Qed.

(** Whatever the state, the merge either stores the merged manifest, or
    writes an array back, or fails and leaves the files alone. *)
Lemma run_addScripts_effect projectPath scripts w :
  let path := path_join projectPath "package.json" in
  let r := run (addScriptsToPackageJson projectPath scripts) w in
  pending w = [] ->
  dirs (snd r) = dirs w /\ pending (snd r) = [] /\
  ((exists text o,
       path ∉ dirs w /\ files w !! path = Some text /\
       JSON.parse text = JSON.Parsed (JObj o) /\
       fst r = Returned tt /\
       files (snd r) =
         <[path := JSON.stringify (JObj (merged_manifest o scripts))]> (files w))
   \/ (exists text l,
       path ∉ dirs w /\ files w !! path = Some text /\
       JSON.parse text = JSON.Parsed (JArr l) /\
       fst r = Returned tt /\
       files (snd r) = <[path := JSON.stringify (JArr l)]> (files w))
   \/ (fst r <> Returned tt /\ files (snd r) = files w)).
Proof.
  intros path r Hp. subst r.
  destruct (exists_path w path) eqn:Hex.
  2:{ unfold path in *. rewrite run_addScripts_missing by done. simpl.
      repeat split; try done. right; right. by split. }
  destruct (decide (path ∈ dirs w)) as [Hd|Hd].
  { unfold addScriptsToPackageJson. fold path.
    rewrite run_mbind, run_existsSync, Hex. cbn [negb].
    rewrite run_mbind, run_readFile by done.
    cbn [dirs log files]. rewrite bool_decide_eq_true_2 by done.
    cbv zeta. simpl. repeat split; try done. right; right. by split. }
  destruct (files w !! path) as [text|] eqn:Hf.
  2:{ unfold exists_path in Hex. rewrite Hf in Hex.
      rewrite bool_decide_eq_false_2 in Hex by (by intros [? ?]).
      rewrite bool_decide_eq_false_2 in Hex by done. done. }
  destruct (JSON.parse text) as [v| |] eqn:Hparse.
  - destruct v as [|b|n|s|l|o].
    5:{ unfold path in *. rewrite (run_addScripts_arr _ _ _ text l) by done.
        simpl. repeat split; try done. right; left. by exists text, l. }
    5:{ unfold path in *. rewrite (run_addScripts_obj _ _ _ _ _ text o) by done.
        simpl. repeat split; try done. left. by exists text, o. }
    all: unfold addScriptsToPackageJson; fold path;
      rewrite run_mbind, run_existsSync, Hex; cbn [negb];
      rewrite run_mbind, run_readFile by done;
      cbn [dirs log files]; rewrite bool_decide_eq_false_2, Hf by done;
      cbv zeta; rewrite run_mbind; unfold JSON_parse; rewrite Hparse;
      cbn [Node.run]; rewrite run_mbind; cbn [get_property Node.run];
      try (rewrite run_mbind; cbn [set_property Node.run]);
      simpl; repeat split; try done; right; right; by split.
  - unfold addScriptsToPackageJson; fold path;
      rewrite run_mbind, run_existsSync, Hex; cbn [negb];
      rewrite run_mbind, run_readFile by done;
      cbn [dirs log files]; rewrite bool_decide_eq_false_2, Hf by done;
      cbv zeta; rewrite run_mbind; unfold JSON_parse; rewrite Hparse;
      simpl; repeat split; try done; right; right; by split.
  - unfold addScriptsToPackageJson; fold path;
      rewrite run_mbind, run_existsSync, Hex; cbn [negb];
      rewrite run_mbind, run_readFile by done;
      cbn [dirs log files]; rewrite bool_decide_eq_false_2, Hf by done;
      cbv zeta; rewrite run_mbind; unfold JSON_parse; rewrite Hparse;
      simpl; repeat split; try done; right; right; by split.
Qed.

End merge_effect.

(** ** The manifest store: the claims *)

Import Fixture.

(** C10: when no manifest exists at the project path, the script merge
    throws the file-not-found error after the existence check alone, with
    no read and no write, and leaves files and directories as they were. *)
Theorem merge_without_manifest exec sched projectPath scripts w :
  let path := path_join projectPath "package.json" in
  let r := Node.run exec sched (addScriptsToPackageJson projectPath scripts) w in
  exists_path w path = false ->
  fst r = Threw (Error ("File not found: " ++ path)) /\
  files (snd r) = files w /\ dirs (snd r) = dirs w /\
  trace (snd r) = trace w ++ [Did (ExistsSync path) (ABool false)].
Proof.
  intros path r H. subst r. unfold path in *.
  by rewrite run_addScripts_missing.
Qed.

Lemma merge_without_manifest_witness :
  exists_path machine (path_join "/home/demo" "package.json") = false /\
  fst (Node.run toolchain lazy
         (addScriptsToPackageJson "/home/demo"
            (object_literal [("lint", JStr "eslint .")])) machine)
  = Threw (Error ("File not found: " ++ path_join "/home/demo" "package.json")).
Proof.
  split; [reflexivity|].
  apply (merge_without_manifest toolchain lazy "/home/demo"
           (object_literal [("lint", JStr "eslint .")]) machine).
  reflexivity.
Defined.

Lemma manifest_at_stringify w path v :
  files w !! path = Some (JSON.stringify v) -> wf v = true ->
  manifest_at w path = Some v.
Proof.
  intros Hf Hwf. unfold manifest_at. by rewrite Hf, parse_stringify.
Qed.

(** The part of C1 that holds for every manifest and every additions: the
    stored scripts are the union where the additions win, no key is lost,
    and the keys are in ascending order of code units as long as none of
    them is an array index. *)
Lemma merge_stores_union exec sched projectPath scripts w text o s :
  let path := path_join projectPath "package.json" in
  let r := Node.run exec sched (addScriptsToPackageJson projectPath scripts) w in
  pending w = [] -> path ∉ dirs w ->
  files w !! path = Some text ->
  JSON.parse text = JSON.Parsed (JObj o) ->
  obj_get o "scripts" = Some (JObj s) ->
  wf (JObj scripts) = true ->
  fst r = Returned tt /\
  exists o' s',
    manifest_at (snd r) path = Some (JObj o') /\
    obj_get o' "scripts" = Some (JObj s') /\
    (forall k, obj_get s' k =
               match obj_get scripts k with
               | Some v => Some v
               | None => obj_get s k
               end) /\
    ((forall k, k ∈ obj_keys s' -> array_index k = None) ->
     obj_keys s' = sort_keys (obj_keys s') /\
     StronglySorted String.le (obj_keys s')).
Proof.
  intros path r Hp Hd Hf Hparse Hs Hsc. subst r. unfold path in *.
  rewrite (run_addScripts_obj _ _ _ _ _ text o) by done.
  split; [done|].
  pose proof (parse_wf _ _ Hparse) as Ho.
  pose proof Ho as [Hord _]%wf_obj_Forall.
  pose proof Hsc as [Hsord _]%wf_obj_Forall.
  pose proof (obj_get_wf _ _ _ Ho Hs) as [Hsk _]%wf_obj_Forall.
  set (m := merged_scripts (Some (JObj s)) scripts).
  pose proof (merged_scripts_ordered (Some (JObj s)) scripts) as Hm. fold m in Hm.
  destruct (sorted_scripts_spec m Hm) as [Hr Hget].
  exists (merged_manifest o scripts), (sorted_scripts m). repeat split.
  - apply manifest_at_stringify; [|by apply merged_manifest_wf].
    simpl. apply lookup_insert_eq.
  - rewrite merged_manifest_eq, Hs.
    apply obj_get_set_eq. by apply keys_ordered_NoDup.
  - intros k. rewrite Hget. unfold m.
    apply merged_scripts_get; [done|by apply keys_ordered_NoDup].
  - rewrite sorted_scripts_ascending at 1; [|done|].
    + symmetry. apply sort_keys_perm. by apply sorted_scripts_keys.
    + intros k Hk. apply H. by rewrite sorted_scripts_keys.
  - rewrite sorted_scripts_ascending; [apply sort_keys_sorted|done|].
    intros k Hk. apply H. by rewrite sorted_scripts_keys.
Qed.


(** C6: the merge is idempotent: from every state without calls in flight,
    a second merge of the same additions ends as the first did and leaves
    every file and directory as the first left it. *)
Theorem merge_idempotent exec sched projectPath scripts w :
  let merge := addScriptsToPackageJson projectPath scripts in
  let once := Node.run exec sched merge w in
  let twice := Node.run exec sched merge (snd once) in
  pending w = [] ->
  wf (JObj scripts) = true ->
  fst twice = fst once /\
  files (snd twice) = files (snd once) /\
  dirs (snd twice) = dirs (snd once).
Proof.
  intros merge once twice Hp Hsc. subst twice.
  pose proof (run_addScripts_effect exec sched projectPath scripts w Hp)
    as (Hd & Hp1 & Hcase).
  fold merge in Hd, Hp1, Hcase. fold once in Hd, Hp1, Hcase.
  set (path := path_join projectPath "package.json") in *.
  destruct Hcase as [(text & o & Hnd & Hf & Hparse & Hret & Hfiles)
                    |[(text & l & Hnd & Hf & Hparse & Hret & Hfiles)
                    |[Hret Hfiles]]].
  - pose proof (parse_wf _ _ Hparse) as Ho.
    pose proof (merged_manifest_wf _ _ Ho Hsc) as Ho1.
    unfold merge, path in *.
    rewrite (run_addScripts_obj exec sched _ _ (snd once)
               (JSON.stringify (JObj (merged_manifest o scripts)))
               (merged_manifest o scripts)); try done.
    + simpl. rewrite Hret, Hfiles, Hd, merged_manifest_idem by done.
      by rewrite insert_insert_eq.
    + by rewrite Hd.
    + rewrite Hfiles. apply lookup_insert_eq.
    + by apply parse_stringify.
  - pose proof (parse_wf _ _ Hparse) as Hl.
    unfold merge, path in *.
    rewrite (run_addScripts_arr exec sched _ _ (snd once)
               (JSON.stringify (JArr l)) l); try done.
    + simpl. rewrite Hret, Hfiles, Hd. by rewrite insert_insert_eq.
    + by rewrite Hd.
    + rewrite Hfiles. apply lookup_insert_eq.
    + by apply parse_stringify.
  - destruct (run_same_state exec sched merge (snd once) w) as [H1 H2].
    + apply awaits_all_addScripts.
    + by repeat split.
    + fold once in H1, H2. destruct H2 as (H2 & H3 & _).
      rewrite H1, H2, H3. by rewrite Hfiles, Hd.
Qed.

Lemma merge_idempotent_witness :
  let merge :=
    addScriptsToPackageJson "/home/demo"
      (object_literal [("lint", JStr "eslint ."); ("format", JStr "prettier --write .")]) in
  let w := with_manifest "/home/demo/package.json" npm_manifest in
  let once := Node.run no_tools lazy merge w in
  let twice := Node.run no_tools lazy merge (snd once) in
  fst once = Returned tt /\
  fst twice = fst once /\
  files (snd twice) = files (snd once) /\
  dirs (snd twice) = dirs (snd once).
Proof.
  split; [reflexivity|].
  apply (merge_idempotent no_tools lazy "/home/demo"
           (object_literal [("lint", JStr "eslint ."); ("format", JStr "prettier --write .")])
           (with_manifest "/home/demo/package.json" npm_manifest));
    reflexivity.
Defined.

(** C7: a manifest value that is written, as JSON indented by two
    spaces, and read back from the same path is the value that was
    written. *)
Theorem manifest_round_trip exec sched path m w :
  pending w = [] ->
  path ∉ dirs w ->
  wf m = true ->
  fst (Node.run exec sched
         (writeFile path (JSON.stringify m);;
          text ← readFile path;
          JSON_parse text) w)
  = Returned m.
Proof.
  intros Hp Hd Hwf.
  rewrite run_mbind, run_writeFile by done.
  cbv zeta. rewrite bool_decide_eq_false_2 by done.
  rewrite run_mbind, run_readFile by done.
  cbn [dirs log files tick set_files]. rewrite bool_decide_eq_false_2 by done.
  rewrite lookup_insert_eq. cbv zeta.
  unfold JSON_parse. by rewrite parse_stringify.
Qed.

Lemma manifest_round_trip_witness :
  fst (Node.run no_tools lazy
         (writeFile "/home/demo/package.json" (JSON.stringify npm_manifest);;
          text ← readFile "/home/demo/package.json";
          JSON_parse text) machine)
  = Returned npm_manifest.
Proof.
  apply (manifest_round_trip no_tools lazy "/home/demo/package.json"
           npm_manifest machine).
  - reflexivity.
  - cbn [dirs machine]. intros H%elem_of_singleton. discriminate H.
  - reflexivity.
Defined.

(** ** The command tokenizer *)

Import Tokenizer.

Lemma is_space_not_word c : Tokenizer.is_space c = true -> is_word_char c = false.
Proof. unfold is_word_char. intros ->. by rewrite andb_false_r. Qed.

Lemma is_space_not_quote c :
  Tokenizer.is_space c = true -> Ascii.eqb c Tokenizer.dquote = false.
Proof.
  intros H. destruct (Ascii.eqb_spec c Tokenizer.dquote) as [->|]; [|done].
  discriminate H.
Qed.

Lemma match_here_space c t :
  Tokenizer.is_space c = true -> match_here (c :: t) = None.
Proof.
  intros H. unfold match_here.
  by rewrite (is_space_not_word c H), (is_space_not_quote c H).
Qed.

Lemma match_all_lead fuel lead t :
  forallb Tokenizer.is_space lead = true ->
  List.length (lead ++ t) <= fuel ->
  exists fuel', List.length t <= fuel' /\
                match_all fuel (lead ++ t) = match_all fuel' t.
Proof.
  revert fuel. induction lead as [|c lead IH]; intros fuel Hl Hf.
  - by exists fuel.
  - simpl in Hl. apply andb_true_iff in Hl as [Hc Hl].
    destruct fuel as [|fuel]; [simpl in Hf; lia|].
    change ((c :: lead) ++ t) with (c :: lead ++ t).
    cbn [match_all]. rewrite match_here_space by done.
    apply IH; [done|]. simpl in Hf. lia.
Qed.

Lemma span_all p w t :
  forallb p w = true ->
  match t with [] => True | c :: _ => p c = false end ->
  span p (w ++ t) = (w, t).
Proof.
  intros Hw Ht. induction w as [|c w IH]; simpl.
  - destruct t as [|c t]; simpl; [done|]. by rewrite Ht.
  - simpl in Hw. apply andb_true_iff in Hw as [-> Hw]. by rewrite IH.
Qed.

(** The two shapes of a word. *)
Lemma is_word_shape w :
  is_word w = true ->
  (exists c w', w = c :: w' /\ forallb is_word_char w = true) \/
  (exists b body, w = Tokenizer.dquote :: (b :: body) ++ [Tokenizer.dquote] /\
                  forallb is_not_quote (b :: body) = true).
Proof.
  destruct w as [|c w']; [done|]. unfold is_word.
  destruct (Ascii.eqb_spec c Tokenizer.dquote) as [->|Hc].
  - destruct (rev w') as [|q body'] eqn:Hrev; [done|].
    intros [[Hq Hlen]%andb_true_iff Hall]%andb_true_iff.
    apply Ascii.eqb_eq in Hq as ->. right.
    assert (w' = rev body' ++ [Tokenizer.dquote]) as ->.
    { rewrite <- (rev_involutive w'), Hrev. reflexivity. }
    destruct (rev body') as [|b body] eqn:Hb.
    + destruct body'; [done|]. apply (f_equal (@List.length _)) in Hb.
      rewrite length_rev in Hb. done.
    + exists b, body. split; [done|]. rewrite <- Hb.
      rewrite forallb_forall in Hall |- *. intros x Hx. apply Hall.
      by apply in_rev.
  - intros H. left. by exists c, w'.
Qed.

Lemma match_here_word w t :
  is_word w = true ->
  match t with [] => True | c :: _ => Tokenizer.is_space c = true end ->
  match_here (w ++ t) = Some (w, t).
Proof.
  intros Hw Ht. destruct (is_word_shape w Hw) as
    [(c & w' & -> & Hall)|(b & body & -> & Hall)].
  - pose proof Hall as Hall'. simpl in Hall'.
    apply andb_true_iff in Hall' as [Hc _].
    change ((c :: w') ++ t) with (c :: (w' ++ t)).
    unfold match_here. rewrite Hc.
    change (c :: w' ++ t) with ((c :: w') ++ t).
    rewrite span_all; [done|done|].
    destruct t as [|x t]; [done|]. by apply is_space_not_word.
  - change ((Tokenizer.dquote :: (b :: body) ++ [Tokenizer.dquote]) ++ t)
      with (Tokenizer.dquote :: ((b :: body) ++ [Tokenizer.dquote]) ++ t).
    unfold match_here.
    change (is_word_char Tokenizer.dquote) with false.
    change (Ascii.eqb Tokenizer.dquote Tokenizer.dquote) with true. cbv iota.
    rewrite <- app_assoc. rewrite span_all; [done|done|done].
Qed.

Lemma separated_cons w sep rest :
  separated ((w, sep) :: rest) = true ->
  is_word w = true /\ forallb Tokenizer.is_space sep = true /\
  separated rest = true /\
  match sep ++ flat_map (fun '(w, sep) => w ++ sep) rest with
  | [] => True
  | c :: _ => Tokenizer.is_space c = true
  end.
Proof.
  destruct rest as [|[w2 sep2] rest].
  - simpl. intros [Hw Hs]%andb_true_iff. repeat split; try done.
    rewrite app_nil_r. destruct sep as [|c sep]; [done|].
    simpl in Hs. by apply andb_true_iff in Hs as [? _].
  - cbn [separated].
    intros [[[Hw Hs]%andb_true_iff Hlen]%andb_true_iff Hrest]%andb_true_iff.
    repeat split; try done.
    destruct sep as [|c sep]; [done|].
    simpl in Hs. by apply andb_true_iff in Hs as [? _].
Qed.

Lemma is_word_nonempty w : is_word w = true -> w <> [].
Proof. by destruct w. Qed.

Lemma match_all_words fuel words :
  separated words = true ->
  List.length (flat_map (fun '(w, sep) => w ++ sep) words) <= fuel ->
  match_all fuel (flat_map (fun '(w, sep) => w ++ sep) words) = map fst words.
Proof.
  revert fuel. induction words as [|[w sep] words IH]; intros fuel Hsep Hf.
  - by destruct fuel.
  - apply separated_cons in Hsep as (Hw & Hs & Hrest & Hnext).
    cbn [flat_map] in *. rewrite <- app_assoc in *.
    destruct fuel as [|fuel].
    { destruct w; [done|]. simpl in Hf. lia. }
    assert (List.length (sep ++ flat_map (fun '(w, sep) => w ++ sep) words)
            <= fuel) as Hlen.
    { rewrite length_app in Hf. destruct w; [done|]. simpl in Hf. lia. }
    cbn [match_all].
    destruct (w ++ sep ++ flat_map (fun '(w, sep) => w ++ sep) words)
      as [|c t] eqn:Ht.
    { destruct w; [done|]. done. }
    rewrite <- Ht, match_here_word by done.
    destruct (match_all_lead fuel sep
                (flat_map (fun '(w, sep) => w ++ sep) words) Hs Hlen)
      as (fuel' & Hf' & ->).
    simpl. by rewrite IH.
Qed.

Lemma tokenize_assemble lead words :
  forallb Tokenizer.is_space lead = true ->
  separated words = true ->
  tokenize (string_of_list_ascii (assemble lead words))
  = map (fun ws => string_of_list_ascii (fst ws)) words.
Proof.
  intros Hl Hs. unfold tokenize, assemble.
  rewrite list_ascii_of_string_of_list_ascii.
  destruct (match_all_lead
              (List.length (lead ++ flat_map (fun '(w, sep) => w ++ sep) words))
              lead (flat_map (fun '(w, sep) => w ++ sep) words) Hl)
    as (fuel' & Hf' & ->); [done|].
  rewrite match_all_words by done. by rewrite map_map.
Qed.

(** ** The trace only grows *)

Lemma extends_refl w : extends w w.
Proof. exists []. by rewrite app_nil_r. Qed.

Lemma extends_trans w1 w2 w3 : extends w1 w2 -> extends w2 w3 -> extends w1 w3.
Proof.
  intros [m1 H1] [m2 H2]. exists (m1 ++ m2). by rewrite H2, H1, app_assoc.
Qed.

Lemma extends_log ev w : extends w (log ev w).
Proof. by exists [ev]. Qed.

Lemma extends_same w w' : trace w' = trace w -> extends w w'.
Proof. intros H. exists []. by rewrite app_nil_r. Qed.

Section trace_grows.
Variable exec :
  string -> list string -> string ->
  gmap string string * gset string ->
  proc_result * (gmap string string * gset string).
Variable sched : nat -> nat.

Lemma perform_trace o w : trace (snd (perform exec o w)) = trace w.
Proof.
  destruct o as [l|l|e|p|p|p d|p r|c a cwd]; simpl; try done.
  - destruct (bool_decide _); [done|]. by destruct (files w !! p).
  - by destruct (bool_decide _).
  - destruct r; [by destruct (bool_decide _)|by destruct (exists_path w p)].
  - by destruct (exec c a cwd (files w, dirs w)) as [r [f d]].
Qed.

Lemma start_extends p w : extends w (snd (start exec p w)).
Proof.
  revert p w. fix IH 1. intros p w.
  destruct p as [x|e|c| |o k|o k|p' k]; simpl.
  - apply extends_refl.
  - by apply extends_same.
  - eapply extends_trans; [apply extends_log|]. by apply extends_same.
  - apply extends_refl.
  - pose proof (perform_trace o w) as Hp.
    destruct (perform exec o w) as [a w']. simpl in Hp.
    eapply extends_trans; [|apply IH].
    eapply extends_trans; [apply (extends_same w w' Hp)|apply extends_log].
  - eapply extends_trans; [apply extends_log|]. by apply extends_same.
  - pose proof (IH p' w) as IH'.
    destruct (start exec p' w) as [[| | |] w']; try done.
    eapply extends_trans; [apply IH'|apply IH].
Qed.

Lemma check_rejections_extends w : extends w (snd (check_rejections w)).
Proof.
  unfold check_rejections. destruct (first_rejected (pending w)); simpl.
  - eapply extends_trans; [apply extends_log|].
    eapply extends_trans; [apply extends_log|]. by apply extends_same.
  - apply extends_refl.
Qed.

Lemma advance_extends w : extends w (snd (advance exec w)).
Proof.
  unfold advance. destruct (pending w) as [|[o k|e] rest]; simpl;
    try apply extends_refl.
  pose proof (perform_trace o (set_pending rest w)) as Hp.
  destruct (perform exec o (set_pending rest w)) as [a w']. simpl in Hp.
  pose proof (start_extends (k a) (log (Ended o a) w')) as Hs.
  destruct (start exec (k a) (log (Ended o a) w')) as [[| | |] w''];
    simpl in *;
    (eapply extends_trans;
     [eapply extends_trans; [apply (extends_same w w' Hp)|apply extends_log]|]);
    try done.
  eapply extends_trans; [apply Hs|apply check_rejections_extends].
Qed.

Lemma advance_n_extends n w : extends w (snd (advance_n exec n w)).
Proof.
  revert w. induction n as [|n IH]; intros w; simpl; [apply extends_refl|].
  pose proof (advance_extends w) as Ha.
  destruct (advance exec w) as [[| | |] w']; try done.
  eapply extends_trans; [apply Ha|apply IH].
Qed.

Lemma suspend_extends w : extends w (snd (suspend exec sched w)).
Proof.
  unfold suspend. pose proof (check_rejections_extends w) as Hc.
  destruct (check_rejections w) as [[| | |] w']; try done.
  eapply extends_trans; [apply Hc|].
  eapply extends_trans; [|apply advance_n_extends]. by apply extends_same.
Qed.

Lemma run_extends {A} (p : prog A) w : extends w (snd (run exec sched p w)).
Proof.
  revert w. induction p as [A x|A e|A c|A|A o k IH|A o k IH|A p' _ k IH];
    intros w; simpl.
  - apply extends_refl.
  - apply extends_refl.
  - eapply extends_trans; [apply extends_log|]. by apply extends_same.
  - apply extends_refl.
  - pose proof (perform_trace o w) as Hp.
    destruct (perform exec o w) as [ans w']. simpl in Hp.
    eapply extends_trans; [|apply IH].
    eapply extends_trans; [apply (extends_same w w' Hp)|apply extends_log].
  - pose proof (suspend_extends (log (Began o) w)) as Hs.
    destruct (suspend exec sched (log (Began o) w)) as [[| | |] w1];
      simpl in *; try (eapply extends_trans; [apply extends_log|apply Hs]).
    pose proof (perform_trace o w1) as Hp.
    destruct (perform exec o w1) as [ans w2]. simpl in Hp.
    eapply extends_trans; [|apply IH].
    eapply extends_trans; [apply extends_log|].
    eapply extends_trans; [apply Hs|].
    eapply extends_trans; [apply (extends_same w1 w2 Hp)|apply extends_log].
  - pose proof (start_extends p' w) as Hs.
    destruct (start exec p' w) as [[| | |] w']; simpl in *; try done.
    eapply extends_trans; [apply Hs|apply IH].
Qed.

Lemma run_Await_began {A} o (k : answer -> prog A) w :
  extends (log (Began o) w) (snd (run exec sched (Await o k) w)).
Proof.
  simpl. pose proof (suspend_extends (log (Began o) w)) as Hs.
  destruct (suspend exec sched (log (Began o) w)) as [[| | |] w1];
    simpl in *; try done.
  pose proof (perform_trace o w1) as Hp.
  destruct (perform exec o w1) as [ans w2]. simpl in Hp.
  eapply extends_trans; [apply Hs|].
  eapply extends_trans; [apply (extends_same w1 w2 Hp)|].
  eapply extends_trans; [apply extends_log|apply run_extends].
Qed.

(** A command line with a first token is logged and spawned with that
    token as the executable and the other tokens as its arguments. *)
Lemma runCommand_spawns command cwd w first rest :
  tokenize command = first :: rest ->
  exists more,
    trace (snd (run exec sched (runCommand command cwd) w)) =
    trace w ++ Did (ConsoleLog command) AUnit
            :: Began (Spawn first rest cwd) :: more.
Proof.
  intros Ht. unfold runCommand, printCommand.
  rewrite run_mbind. cbn [console_log Node.run perform as_unit].
  rewrite Ht.
  match goal with
  | |- context [Node.run exec sched (Await ?o ?k) ?w1] =>
      destruct (run_Await_began o k w1) as [more He];
      destruct (Node.run exec sched (Await o k) w1) as [out w']
  end.
  exists more. simpl in He.
  destruct out; simpl; rewrite He; by rewrite <- !app_assoc.
Qed.

End trace_grows.

(** ** The process runner: the claims *)

(** C5, as stated, fails: a double quote that follows other characters
    ends a token although no white space stands there, so the command line
    is not split at white space only. *)
Lemma tokenize_breaks_at_quote :
  let command := ("git commit --message=" ++ dq ++ "a b" ++ dq)%string in
  tokenize command
  = ["git"; "commit"; "--message="; (dq ++ "a b" ++ dq)%string] /\
  spec_tokenize command
  = ["git"; "commit"; ("--message=" ++ dq ++ "a b" ++ dq)%string] /\
  tokenize command <> spec_tokenize command.
Proof. vm_compute. repeat split; discriminate. Qed.

(** C5, amended: a command line made of words separated by white space,
    where a word is a run of characters that are neither white space nor
    double quotes, or a double-quoted run of one or more characters other
    than the double quote, is split into exactly these words, a quoted word
    with its quotes; the command is logged and spawned with the first word
    as the executable and the other words as its arguments. *)
Theorem tokenize_words exec sched lead words cwd w :
  let command := string_of_list_ascii (assemble lead words) in
  let tokens := map (fun ws => string_of_list_ascii (fst ws)) words in
  forallb Tokenizer.is_space lead = true ->
  separated words = true ->
  tokenize command = tokens /\
  forall first rest,
    tokens = first :: rest ->
    exists more,
      trace (snd (Node.run exec sched (runCommand command cwd) w)) =
      trace w ++ Did (ConsoleLog command) AUnit
              :: Began (Spawn first rest cwd) :: more.
Proof.
  intros command tokens Hl Hs.
  pose proof (tokenize_assemble lead words Hl Hs) as Ht.
  split; [done|]. intros first rest Htok.
  apply runCommand_spawns. fold command in Ht. by rewrite Ht.
Qed.

Lemma tokenize_words_witness :
  let words :=
    [(list_ascii_of_string "git", list_ascii_of_string " ");
     (list_ascii_of_string "commit", list_ascii_of_string "  ");
     (list_ascii_of_string "-m", list_ascii_of_string " ");
     (list_ascii_of_string (dq ++ "Initial commit: project setup" ++ dq)%string,
      [])] in
  tokenize (string_of_list_ascii (assemble [] words))
  = ["git"; "commit"; "-m";
     (dq ++ "Initial commit: project setup" ++ dq)%string].
Proof.
  exact (proj1 (tokenize_words no_tools lazy []
    [(list_ascii_of_string "git", list_ascii_of_string " ");
     (list_ascii_of_string "commit", list_ascii_of_string "  ");
     (list_ascii_of_string "-m", list_ascii_of_string " ");
     (list_ascii_of_string (dq ++ "Initial commit: project setup" ++ dq)%string,
      [])]
    "/home/demo" machine eq_refl eq_refl)).
Defined.

(** ** The pipeline: the project directory exists already *)

(** C9: when something already exists at the path of the project, both
    scripts fail at the first step: the only operation is the refused
    [mkdir]; no command is spawned and nothing is written, files and
    directories stay as they were, the error is printed and the process
    exits with status 1. *)
Theorem existing_directory_stops_assembly
    exec sched dirname runtime_message cwd projectName type
    useTailwindcss useGit w :
  let projectPath := path_resolve cwd projectName in
  let refused := SystemError "EEXIST" "mkdir" projectPath in
  let report :=
    [Began (Mkdir projectPath false);
     Ended (Mkdir projectPath false) (AFailed refused);
     Did (ConsoleError ("Error creating project: " ++ runtime_message refused)%string)
         AUnit;
     Exit 1] in
  let r := Node.run exec sched
             (Generator.createProject dirname runtime_message cwd projectName
                type useTailwindcss useGit) w in
  let r' := Node.run exec sched
              (Legacy.createProject dirname runtime_message cwd projectName
                 type useGit) w in
  pending w = [] ->
  exists_path w projectPath = true ->
  (fst r = Exited 1 /\ files (snd r) = files w /\ dirs (snd r) = dirs w /\
   trace (snd r) = trace w ++ report) /\
  (fst r' = Exited 1 /\ files (snd r') = files w /\ dirs (snd r') = dirs w /\
   trace (snd r') = trace w ++ report).
Proof.
  intros projectPath refused report r r' Hp Hex. subst r r'.
  unfold Generator.createProject, Legacy.createProject.
  rewrite !run_try_catch, !run_mbind. fold projectPath.
  rewrite run_mkdir by done. cbv zeta. rewrite Hex.
  simpl. unfold report. by rewrite <- !app_assoc.
Qed.

Lemma existing_directory_witness :
  let w := set_dirs {["/home"; "/home/demo"]} machine in
  fst (Node.run toolchain lazy
         (Generator.createProject "/tool" Fixture.runtime_message "/home" "demo"
            "TypeScript" true true) w) = Exited 1 /\
  files (snd (Node.run toolchain lazy
         (Generator.createProject "/tool" Fixture.runtime_message "/home" "demo"
            "TypeScript" true true) w)) = files w.
Proof.
  pose proof (existing_directory_stops_assembly toolchain lazy "/tool"
                Fixture.runtime_message "/home" "demo" "TypeScript" true true
                (set_dirs {["/home"; "/home/demo"]} machine)
                eq_refl eq_refl) as [(H1 & H2 & _) _].
  split; [exact H1|exact H2].
Defined.

(** ** The pipeline stops at the first command that fails *)

Import Failure.

Lemma clean_nil : clean [].
Proof. done. Qed.

Lemma clean_app a b : clean (a ++ b) <-> clean a /\ clean b.
Proof. unfold clean. by rewrite forallb_app, andb_true_iff. Qed.

Lemma clean_cons ev t : clean (ev :: t) <-> failed_event ev = false /\ clean t.
Proof.
  unfold clean. simpl. rewrite andb_true_iff, negb_true_iff. done.
Qed.

Lemma calm_refl w : quiet_pending w -> calm w w.
Proof. intros H. split; [done|]. exists []. by rewrite app_nil_r. Qed.

Lemma calm_trans w1 w2 w3 : calm w1 w2 -> calm w2 w3 -> calm w1 w3.
Proof.
  intros [_ (t1 & H1 & C1)] [Q (t2 & H2 & C2)]. split; [done|].
  exists (t1 ++ t2). split; [by rewrite H2, H1, app_assoc|].
  by apply clean_app.
Qed.

Lemma calm_log ev w :
  quiet_pending w -> failed_event ev = false -> calm w (log ev w).
Proof.
  intros Q H. split; [done|]. exists [ev]. split; [done|].
  apply clean_cons. by split.
Qed.

Lemma calm_same w w' :
  trace w' = trace w -> pending w' = pending w -> quiet_pending w ->
  calm w w'.
Proof.
  intros Ht Hp Q. split; [unfold quiet_pending; by rewrite Hp|].
  exists []. by rewrite app_nil_r.
Qed.

Section quiet_runs.
Variable exec :
  string -> list string -> string ->
  gmap string string * gset string ->
  proc_result * (gmap string string * gset string).
Variable sched : nat -> nat.

Lemma perform_pending o w : pending (snd (perform exec o w)) = pending w.
Proof.
  destruct o as [l|l|e|p|p|p d|p r|c a cwd]; simpl; try done.
  - destruct (bool_decide _); [done|]. by destruct (files w !! p).
  - by destruct (bool_decide _).
  - destruct r; [by destruct (bool_decide _)|by destruct (exists_path w p)].
  - by destruct (exec c a cwd (files w, dirs w)) as [r [f d]].
Qed.

Lemma perform_calm o w :
  quiet_pending w -> calm w (snd (perform exec o w)).
Proof.
  intros Q. apply calm_same; [apply perform_trace|apply perform_pending|done].
Qed.

Lemma quiet_pending_add t w :
  quiet_pending w -> quiet_task t ->
  quiet_pending (set_pending (pending w ++ [t]) w).
Proof.
  intros Q H. unfold quiet_pending. simpl. apply Forall_app. split; [done|].
  by constructor.
Qed.

Lemma not_spawn_event_began o : failed_event (Began o) = false.
Proof. done. Qed.

Lemma not_spawn_event_did o a : failed_event (Did o a) = false.
Proof. done. Qed.

Lemma not_spawn_event_ended o a :
  is_spawn o = false -> failed_event (Ended o a) = false.
Proof. by destruct o. Qed.

Lemma start_calm p w :
  quiet p -> quiet_pending w -> calm w (snd (start exec p w)).
Proof.
  revert p w. fix IH 1. intros p w Hq Q.
  destruct p as [x|e|c| |o k|o k|p' k]; simpl in *.
  - by apply calm_refl.
  - split; [by apply quiet_pending_add|]. exists []. by rewrite app_nil_r.
  - split; [by constructor|]. exists [Exit c]. by split.
  - by apply calm_refl.
  - pose proof (perform_calm o w Q) as Hp.
    destruct (perform exec o w) as [a w']. simpl in Hp.
    eapply calm_trans; [apply Hp|].
    eapply calm_trans; [apply (calm_log (Did o a) w'); [apply Hp|done]|].
    apply IH; [apply Hq|apply Hp].
  - destruct Hq as [Ho Hk].
    split; [by apply (quiet_pending_add (Suspended o k) (log (Began o) w))|].
    exists [Began o]. by split.
  - destruct Hq as [Hp' Hk]. pose proof (IH p' w Hp' Q) as H1.
    destruct (start exec p' w) as [[| | |] w']; try done.
    eapply calm_trans; [apply H1|]. apply IH; [done|apply H1].
Qed.

Lemma check_rejections_calm w :
  quiet_pending w -> calm w (snd (check_rejections w)).
Proof.
  intros Q. unfold check_rejections.
  destruct (first_rejected (pending w)); simpl; [|by apply calm_refl].
  split; [by constructor|]. eexists [_; _].
  split; [simpl; by rewrite <- app_assoc|done].
Qed.

Lemma advance_calm w : quiet_pending w -> calm w (snd (advance exec w)).
Proof.
  intros Q. unfold advance.
  destruct (pending w) as [|[o k|e] rest] eqn:Hpend; simpl;
    try by apply calm_refl.
  assert (quiet_task (Suspended o k) /\ Forall quiet_task rest) as [[Ho Hk] Hrest].
  { unfold quiet_pending in Q. rewrite Hpend in Q. by apply Forall_cons in Q. }
  assert (calm w (set_pending rest w)) as H0.
  { split; [done|]. exists []. by rewrite app_nil_r. }
  pose proof (perform_calm o (set_pending rest w) Hrest) as Hp.
  destruct (perform exec o (set_pending rest w)) as [a w']. simpl in Hp.
  assert (calm w (log (Ended o a) w')) as H1.
  { eapply calm_trans; [apply H0|]. eapply calm_trans; [apply Hp|].
    apply (calm_log (Ended o a) w'); [apply Hp|by apply not_spawn_event_ended]. }
  pose proof (start_calm (k a) (log (Ended o a) w') (Hk a) (proj1 H1)) as H2.
  destruct (start exec (k a) (log (Ended o a) w')) as [[| | |] w''];
    simpl in *; try (eapply calm_trans; [apply H1|apply H2]).
  eapply calm_trans; [apply H1|]. eapply calm_trans; [apply H2|].
  apply check_rejections_calm, H2.
Qed.

Lemma advance_n_calm n w : quiet_pending w -> calm w (snd (advance_n exec n w)).
Proof.
  revert w. induction n as [|n IH]; intros w Q; simpl; [by apply calm_refl|].
  pose proof (advance_calm w Q) as Ha.
  destruct (advance exec w) as [[| | |] w']; try done.
  eapply calm_trans; [apply Ha|apply IH, Ha].
Qed.

Lemma suspend_calm w : quiet_pending w -> calm w (snd (suspend exec sched w)).
Proof.
  intros Q. unfold suspend. pose proof (check_rejections_calm w Q) as Hc.
  destruct (check_rejections w) as [[| | |] w']; try done.
  simpl in Hc. eapply calm_trans; [apply Hc|].
  eapply calm_trans; [|apply advance_n_calm].
  - apply calm_same; [done|done|apply Hc].
  - apply Hc.
Qed.

(** A quiet program adds no failed command, however it ends. *)
Lemma run_calm {A} (p : prog A) w :
  quiet p -> quiet_pending w -> calm w (snd (run exec sched p w)).
Proof.
  revert w. induction p as [A x|A e|A c|A|A o k IH|A o k IH|A p' _ k IH];
    intros w Hq Q; simpl in *.
  - by apply calm_refl.
  - by apply calm_refl.
  - split; [by constructor|]. exists [Exit c]. by split.
  - by apply calm_refl.
  - pose proof (perform_calm o w Q) as Hp.
    destruct (perform exec o w) as [ans w']. simpl in Hp.
    eapply calm_trans; [apply Hp|].
    eapply calm_trans; [apply (calm_log (Did o ans) w'); [apply Hp|done]|].
    apply IH; [apply Hq|apply Hp].
  - destruct Hq as [Ho Hk].
    assert (calm w (log (Began o) w)) as H0 by by apply calm_log.
    pose proof (suspend_calm (log (Began o) w) (proj1 H0)) as Hs.
    destruct (suspend exec sched (log (Began o) w)) as [[| | |] w1];
      simpl in *; try (eapply calm_trans; [apply H0|apply Hs]).
    pose proof (perform_calm o w1 (proj1 Hs)) as Hp.
    destruct (perform exec o w1) as [ans w2]. simpl in Hp.
    eapply calm_trans; [apply H0|]. eapply calm_trans; [apply Hs|].
    eapply calm_trans; [apply Hp|].
    eapply calm_trans;
      [apply (calm_log (Ended o ans) w2);
       [apply Hp|by apply not_spawn_event_ended]|].
    apply IH; [apply Hk|]. apply Hp.
  - destruct Hq as [Hp' Hk]. pose proof (start_calm p' w Hp' Q) as H1.
    destruct (start exec p' w) as [[| | |] w']; simpl in *; try done.
    eapply calm_trans; [apply H1|]. apply IH; [done|apply H1].
Qed.

End quiet_runs.

Lemma quiet_bind {A B} (p : prog A) (f : A -> prog B) :
  quiet p -> (forall a, quiet (f a)) -> quiet (bind p f).
Proof.
  revert f. induction p as [A x|A e|A c|A|A o k IH|A o k IH|A p' _ k IH];
    intros f Hp Hf; simpl in *; auto.
  - destruct Hp as [Ho Hk]. split; [done|]. auto.
  - destruct Hp as [Hp' Hk]. split; [done|]. auto.
Qed.

Lemma quiet_mbind {A B} (p : prog A) (f : A -> prog B) :
  quiet p -> (forall a, quiet (f a)) -> quiet (p ≫= f).
Proof. apply quiet_bind. Qed.

Lemma quiet_as_unit a : quiet (as_unit a).
Proof. by destruct a. Qed.
Lemma quiet_as_bool a : quiet (as_bool a).
Proof. by destruct a. Qed.
Lemma quiet_as_text a : quiet (as_text a).
Proof. by destruct a. Qed.

Lemma quiet_console_log l : quiet (console_log l).
Proof. intros a. apply quiet_as_unit. Qed.
Lemma quiet_console_error l : quiet (console_error l).
Proof. intros a. apply quiet_as_unit. Qed.
Lemma quiet_console_error_object e : quiet (console_error_object e).
Proof. intros a. apply quiet_as_unit. Qed.
Lemma quiet_existsSync p : quiet (existsSync p).
Proof. intros a. apply quiet_as_bool. Qed.
Lemma quiet_readFile p : quiet (readFile p).
Proof. split; [done|]. intros a. apply quiet_as_text. Qed.
Lemma quiet_writeFile p d : quiet (writeFile p d).
Proof. split; [done|]. intros a. apply quiet_as_unit. Qed.
Lemma quiet_mkdir p r : quiet (mkdir p r).
Proof. split; [done|]. intros a. apply quiet_as_unit. Qed.
Lemma quiet_JSON_parse t : quiet (JSON_parse t).
Proof. unfold JSON_parse. by destruct (JSON.parse t). Qed.
Lemma quiet_get_property v k : quiet (get_property v k).
Proof. by destruct v. Qed.
Lemma quiet_set_property v k x : quiet (set_property v k x).
Proof. by destruct v. Qed.

Create HintDb quiet.
#[local] Hint Resolve quiet_console_log quiet_console_error
  quiet_console_error_object quiet_existsSync quiet_readFile quiet_writeFile
  quiet_mkdir quiet_JSON_parse quiet_get_property quiet_set_property : quiet.

Ltac quiet_steps :=
  repeat first
    [ apply quiet_mbind; [solve [auto with quiet]|intros ?]
    | solve [auto with quiet]
    | match goal with
      | |- quiet (if ?b then _ else _) => destruct b
      | |- quiet (Throw _) => exact I
      | |- quiet (Ret _) => exact I
      end ].

Lemma quiet_addScripts projectPath scripts :
  quiet (addScriptsToPackageJson projectPath scripts).
Proof. unfold addScriptsToPackageJson. quiet_steps. Qed.

Lemma quiet_modulePackageJson projectPath :
  quiet (Generator.modulePackageJson projectPath).
Proof. unfold Generator.modulePackageJson. quiet_steps. Qed.

Lemma quiet_createPrettierConfig dirname projectPath :
  quiet (createPrettierConfig dirname projectPath).
Proof. unfold createPrettierConfig. quiet_steps. Qed.

Section stops.
Variable runtime_message : error -> string.
Variable exec :
  string -> list string -> string ->
  gmap string string * gset string ->
  proc_result * (gmap string string * gset string).
Variable sched : nat -> nat.

#[local] Abbreviation stops := (stops_on_failure runtime_message exec sched).
#[local] Abbreviation halted := (stopped runtime_message).

Lemma stops_of_quiet {A} (p : prog A) : quiet p -> stops p.
Proof.
  intros Hq w Q. destruct (run_calm exec sched p w Hq Q) as (Q' & t & Ht & C).
  split; [done|]. exists t. split; [done|]. by left.
Qed.

(** Once a run has not returned, the events stand for any result type. *)
Lemma halted_not_returned {A B} (out : outcome A) (out' : outcome B) t :
  halted out t ->
  match out, out' with
  | Threw e, Threw e' => e = e'
  | Exited c, Exited c' => c = c'
  | Unmodelled, Unmodelled => True
  | _, _ => False
  end ->
  halted out' t.
Proof.
  intros [C|(before & command & cmd & args & dir & r & Ht & Hr & Hb & H)] Hout;
    [by left|].
  right. exists before, command, cmd, args, dir, r. repeat split; try done.
  destruct H as [[-> ->]|[-> H]].
  - left. destruct out'; try done. by subst.
  - right. destruct out'; try done. by subst.
Qed.

Lemma halted_returned {A} (a : A) t : halted (Returned a) t -> clean t.
Proof.
  intros [C|(before & command & cmd & args & dir & r & _ & _ & _ & H)]; [done|].
  by destruct H as [[? _]|[? _]].
Qed.

Lemma halted_after {A} (out : outcome A) t1 t2 :
  clean t1 -> halted out t2 -> halted out (t1 ++ t2).
Proof.
  intros C1 [C|(before & command & cmd & args & dir & r & Ht & Hr & Hb & H)].
  - left. by apply clean_app.
  - right. exists (t1 ++ before), command, cmd, args, dir, r.
    repeat split; try done; [by apply clean_app|].
    destruct H as [[-> ->]|[-> (prefix & Hp & ->)]].
    + left. by rewrite <- app_assoc.
    + right. split; [done|]. exists prefix. by rewrite <- app_assoc.
Qed.

Lemma stops_bind {A B} (p : prog A) (f : A -> prog B) :
  stops p -> (forall a, stops (f a)) -> stops (bind p f).
Proof.
  intros Hp Hf w Q. rewrite run_bind.
  destruct (Hp w Q) as (Q1 & t1 & Ht1 & S1).
  destruct (run exec sched p w) as [[a|e|c|] w1]; simpl in *.
  - destruct (Hf a w1 Q1) as (Q2 & t2 & Ht2 & S2).
    split; [done|]. exists (t1 ++ t2).
    split; [by rewrite Ht2, Ht1, app_assoc|].
    apply halted_after; [by eapply halted_returned|done].
  - split; [done|]. exists t1. split; [done|].
    by eapply halted_not_returned.
  - split; [done|]. exists t1. split; [done|].
    by eapply halted_not_returned.
  - split; [done|]. exists t1. split; [done|].
    by eapply halted_not_returned.
Qed.

Lemma stops_mbind {A B} (p : prog A) (f : A -> prog B) :
  stops p -> (forall a, stops (f a)) -> stops (p ≫= f).
Proof. apply stops_bind. Qed.

(** The handlers of the scripts: print the message, leave with status 1. *)
Lemma stops_try_catch {A} (p : prog A) prefix :
  prefix ∈ prefixes ->
  stops p ->
  stops (try_catch p (fun error =>
             console_error (prefix ++ message runtime_message error);;
             ExitProcess 1)).
Proof.
  intros Hpre Hp w Q. rewrite run_try_catch.
  destruct (Hp w Q) as (Q1 & t1 & Ht1 & S1).
  destruct (run exec sched p w) as [[a|e|c|] w1]; simpl in *; try by eauto.
  split; [by constructor|].
  exists (t1 ++ [Did (ConsoleError (prefix ++ message runtime_message e)) AUnit;
                 Exit 1]).
  split; [by rewrite Ht1, <- !app_assoc|].
  destruct S1 as [C|(before & command & cmd & args & dir & r & Ht & Hr & Hb & H)].
  - left. apply clean_app. by split.
  - right. exists before, command, cmd, args, dir, r. repeat split; try done.
    destruct H as [[[= ->] ->]|[[=] _]].
    right. split; [done|]. exists prefix. split; [done|].
    by rewrite <- app_assoc.
Qed.

Lemma stops_fork {A} (p' : prog unit) (k : prog A) :
  quiet p' -> stops k -> stops (Fork p' k).
Proof.
  intros Hq Hk w Q. simpl.
  destruct (start_calm exec p' w Hq Q) as (Q1 & t1 & Ht1 & C1).
  destruct (start exec p' w) as [[| | |] w1]; simpl in *;
    try (split; [done|]; exists t1; split; [done|]; by left).
  destruct (Hk w1 Q1) as (Q2 & t2 & Ht2 & S2).
  split; [done|]. exists (t1 ++ t2).
  split; [by rewrite Ht2, Ht1, app_assoc|]. by apply halted_after.
Qed.

Lemma is_zero_succeeded code : succeeded (ExitCode code) = is_zero code.
Proof. done. Qed.

(** A command either succeeds, or rejects with its error after the report
    of the runner. *)
Lemma stops_runCommand command cwd : stops (runCommand command cwd).
Proof.
  intros w Q. unfold runCommand, printCommand. rewrite run_mbind.
  cbn [console_log Node.run perform as_unit].
  set (w0 := log (Did (ConsoleLog command) AUnit) w).
  assert (calm w w0) as H0 by by apply calm_log.
  destruct (tokenize command) as [|cmd args] eqn:Htok.
  { simpl. destruct H0 as (Q0 & t0 & Ht0 & C0).
    split; [done|]. exists t0. split; [done|]. by left. }
  cbn [Node.run].
  assert (calm w0 (log (Began (Spawn cmd args cwd)) w0)) as H1
    by (apply calm_log; [apply H0|done]).
  pose proof (suspend_calm exec sched _ (proj1 H1)) as H2.
  pose proof (calm_trans _ _ _ H0 (calm_trans _ _ _ H1 H2))
    as (Q2 & t2 & Ht2 & C2).
  destruct (suspend exec sched (log (Began (Spawn cmd args cwd)) w0))
    as [[| | |] w2]; simpl in Q2, Ht2 |- *;
    try (split; [done|]; exists t2; split; [done|]; by left).
  destruct (exec cmd args cwd (files w2, dirs w2)) as [r [f d]].
  cbn [Node.run].
  destruct r as [code|e].
  - destruct (is_zero code) eqn:Hz; simpl.
    + split; [done|].
      exists (t2 ++ [Ended (Spawn cmd args cwd) (AProc (ExitCode code))]).
      split; [by rewrite Ht2, <- app_assoc|].
      left. apply clean_app. split; [done|].
      apply clean_cons. split; [|done]. simpl. by rewrite Hz.
    + split; [done|].
      exists (t2 ++ Ended (Spawn cmd args cwd) (AProc (ExitCode code))
                 :: runner_report command (ExitCode code)).
      split; [by rewrite Ht2, <- !app_assoc|].
      right. exists t2, command, cmd, args, cwd, (ExitCode code).
      repeat split; try done. by left.
  - simpl. split; [done|].
    exists (t2 ++ Ended (Spawn cmd args cwd) (AProc (LaunchError e))
               :: runner_report command (LaunchError e)).
    split; [by rewrite Ht2, <- !app_assoc|].
    right. exists t2, command, cmd, args, cwd, (LaunchError e).
    repeat split; try done. by left.
Qed.

End stops.

Section scripts_stop.
Variable dirname : string.
Variable runtime_message : error -> string.
Variable cwd : string.
Variable exec :
  string -> list string -> string ->
  gmap string string * gset string ->
  proc_result * (gmap string string * gset string).
Variable sched : nat -> nat.

#[local] Abbreviation stops := (stops_on_failure runtime_message exec sched).

Ltac stops_steps :=
  repeat first
    [ apply stops_runCommand
    | apply stops_of_quiet;
      first [ apply quiet_addScripts | apply quiet_modulePackageJson
            | apply quiet_createPrettierConfig | solve [auto with quiet]
            | exact I ]
    | apply stops_mbind; [|intros ?]
    | match goal with
      | |- stops_on_failure _ _ _ (if ?b then _ else _) => destruct b
      end ].

Lemma stops_createEslintConfig projectPath type :
  stops (createEslintConfig dirname projectPath type).
Proof. unfold createEslintConfig. stops_steps. Qed.

Lemma stops_setupGit projectPath useGit projectName :
  stops (setupGit dirname projectPath useGit projectName).
Proof. unfold setupGit, printOutput. stops_steps. Qed.

Lemma stops_setupTypescript projectPath single :
  stops (Generator.setupTypescript dirname projectPath single).
Proof. unfold Generator.setupTypescript. stops_steps. Qed.

Lemma stops_setupTailwindcss projectPath type single :
  stops (Generator.setupTailwindcss projectPath type single).
Proof.
  unfold Generator.setupTailwindcss. stops_steps.
  apply stops_fork; [apply quiet_addScripts|]. by apply stops_of_quiet.
Qed.

Lemma stops_createNpmProject projectPath :
  stops (Generator.createNpmProject runtime_message projectPath).
Proof.
  unfold Generator.createNpmProject.
  apply stops_try_catch; [set_solver|]. stops_steps.
Qed.

Lemma stops_legacy_createNpmProject projectPath :
  stops (Legacy.createNpmProject runtime_message projectPath).
Proof.
  unfold Legacy.createNpmProject.
  apply stops_try_catch; [set_solver|]. stops_steps.
Qed.

Lemma stops_installTypescript projectPath :
  stops (Legacy.installTypescript dirname projectPath).
Proof. unfold Legacy.installTypescript. stops_steps. Qed.

Lemma stops_createProject projectName type useTailwindcss useGit :
  stops (Generator.createProject dirname runtime_message cwd projectName type
           useTailwindcss useGit).
Proof.
  unfold Generator.createProject.
  apply stops_try_catch; [set_solver|].
  apply stops_mbind; [apply stops_of_quiet; solve [auto with quiet]|intros ?].
  apply stops_mbind; [apply stops_createNpmProject|intros ?].
  apply stops_mbind; [|intros ?].
  { destruct (String.eqb type "TypeScript" && useTailwindcss);
      [|apply stops_of_quiet; exact I].
    apply stops_mbind; [apply stops_runCommand|intros ?].
    apply stops_of_quiet, quiet_addScripts. }
  apply stops_mbind; [|intros ?].
  { destruct (String.eqb type "TypeScript");
      [apply stops_setupTypescript|apply stops_of_quiet; exact I]. }
  apply stops_mbind; [|intros ?].
  { destruct useTailwindcss;
      [apply stops_setupTailwindcss|apply stops_of_quiet; exact I]. }
  apply stops_mbind; [apply stops_createEslintConfig|intros ?].
  apply stops_mbind; [|intros ?; apply stops_setupGit].
  apply stops_of_quiet, quiet_createPrettierConfig.
Qed.

Lemma stops_legacy_createProject projectName type useGit :
  stops (Legacy.createProject dirname runtime_message cwd projectName type
           useGit).
Proof.
  unfold Legacy.createProject.
  apply stops_try_catch; [set_solver|].
  apply stops_mbind; [apply stops_of_quiet; solve [auto with quiet]|intros ?].
  apply stops_mbind; [apply stops_legacy_createNpmProject|intros ?].
  apply stops_mbind; [|intros ?].
  { destruct (String.eqb type "TypeScript");
      [apply stops_installTypescript|apply stops_of_quiet; exact I]. }
  apply stops_mbind; [apply stops_createEslintConfig|intros ?].
  apply stops_mbind; [|intros ?; apply stops_setupGit].
  apply stops_of_quiet, quiet_createPrettierConfig.
Qed.

End scripts_stop.

Lemma failed_event_unique before ev after before' ev' after' :
  before ++ ev :: after = before' ++ ev' :: after' ->
  failed_event ev = true -> failed_event ev' = true ->
  clean before' -> clean after' ->
  before = before' /\ ev = ev' /\ after = after'.
Proof.
  revert before'. induction before as [|x before IH]; intros [|y before'];
    simpl; intros Heq Hev Hev' Cb Ca.
  - by injection Heq as -> ->.
  - injection Heq as -> ->. apply clean_cons in Cb as [Hy _]. congruence.
  - injection Heq as -> <-. apply clean_app in Ca as [_ Ca].
    apply clean_cons in Ca as [Hx _]. congruence.
  - injection Heq as -> Heq. apply clean_cons in Cb as [_ Cb].
    destruct (IH before' Heq Hev Hev' Cb Ca) as (-> & -> & ->). done.
Qed.

Lemma runner_report_clean command r : clean (runner_report command r).
Proof. by destruct r. Qed.

Section failed_command.
Variable dirname : string.
Variable runtime_message : error -> string.
Variable cwd : string.
Variable exec :
  string -> list string -> string ->
  gmap string string * gset string ->
  proc_result * (gmap string string * gset string).
Variable sched : nat -> nat.

(** A program under a handler that leaves the process: after a failed
    command its trace holds the report and the exit, nothing else. *)
Lemma handled_failure_report {A} (p : prog A) prefix0 w
    before cmd args dir res after :
  let handled :=
    try_catch p (fun error =>
      console_error (prefix0 ++ message runtime_message error);;
      ExitProcess 1) in
  let r := Node.run exec sched handled w in
  stops_on_failure runtime_message exec sched handled ->
  pending w = [] ->
  trace (snd r) = trace w ++ before ++ Ended (Spawn cmd args dir) (AProc res) :: after ->
  succeeded res = false ->
  fst r = Exited 1 /\
  exists command prefix,
    tokenize command = cmd :: args /\
    prefix ∈ prefixes /\
    after = runner_report command res
            ++ [Did (ConsoleError
                       (prefix ++ message runtime_message
                                    (command_error command res))%string) AUnit;
                Exit 1].
Proof.
  intros handled r Hstops Hp Htrace Hres.
  assert (quiet_pending w) as Q by (unfold quiet_pending; by rewrite Hp).
  destruct (Hstops w Q) as (_ & t & Ht & S). fold r in Ht, S.
  rewrite Ht in Htrace. apply app_inv_head in Htrace. subst t.
  assert (failed_event (Ended (Spawn cmd args dir) (AProc res)) = true) as Hev.
  { simpl. by rewrite Hres. }
  destruct S as [C|(before' & command & cmd' & args' & dir' & r' & Htok & Hr' & Cb & H)].
  { apply clean_app in C as [_ C]. apply clean_cons in C as [C _]. congruence. }
  assert (failed_event (Ended (Spawn cmd' args' dir') (AProc r')) = true) as Hev'.
  { simpl. by rewrite Hr'. }
  destruct H as [[Hout _]|[Hout (prefix & Hpre & Heq)]].
  { exfalso. subst r handled. rewrite run_try_catch in Hout.
    destruct (Node.run exec sched p w) as [[a|e|c|] w1]; simpl in Hout; done. }
  split; [done|].
  apply failed_event_unique in Heq as (-> & [= -> -> -> ->] & ->);
    try done.
  - by exists command, prefix.
  - apply clean_app. split; [apply runner_report_clean|done].
Qed.

(** C3, amended: in every run of the pipeline, when a child process that
    the runner started cannot be launched or ends with a status other than
    0, nothing happens after it but the report: what the runner prints, one
    line made of a fixed prefix and the message of the error, which names
    the command line and its exit code or is the message of the launch
    error, and the exit with status 1.  No step is named. *)
Theorem failed_command_stops_pipeline
    projectName type useTailwindcss useGit w before cmd args dir res after :
  let r := Node.run exec sched
             (Generator.createProject dirname runtime_message cwd projectName
                type useTailwindcss useGit) w in
  pending w = [] ->
  trace (snd r)
  = trace w ++ before ++ Ended (Spawn cmd args dir) (AProc res) :: after ->
  succeeded res = false ->
  fst r = Exited 1 /\
  exists command prefix,
    tokenize command = cmd :: args /\
    prefix ∈ prefixes /\
    after = runner_report command res
            ++ [Did (ConsoleError
                       (prefix ++ message runtime_message
                                    (command_error command res))%string) AUnit;
                Exit 1].
Proof.
  intros r. subst r. unfold Generator.createProject.
  apply handled_failure_report. apply stops_createProject.
Qed.

(** The same holds for the legacy script. *)
Lemma failed_command_stops_legacy_pipeline
    projectName type useGit w before cmd args dir res after :
  let r := Node.run exec sched
             (Legacy.createProject dirname runtime_message cwd projectName
                type useGit) w in
  pending w = [] ->
  trace (snd r)
  = trace w ++ before ++ Ended (Spawn cmd args dir) (AProc res) :: after ->
  succeeded res = false ->
  fst r = Exited 1 /\
  exists command prefix,
    tokenize command = cmd :: args /\
    prefix ∈ prefixes /\
    after = runner_report command res
            ++ [Did (ConsoleError
                       (prefix ++ message runtime_message
                                    (command_error command res))%string) AUnit;
                Exit 1].
Proof.
  intros r. subst r. unfold Legacy.createProject.
  apply handled_failure_report. apply stops_legacy_createProject.
Qed.

End failed_command.

(** C3, as stated, fails: when [git init] exits with status 1 in the
    step that sets up Git, the lines printed name the command line and no
    step. *)
Lemma failed_git_init_names_no_step :
  let r := Node.run (failing "git init") lazy
             (Generator.createProject "/tool" Fixture.runtime_message "/home"
                "demo" "JavaScript" false true) machine in
  fst r = Exited 1 /\
  error_lines Fixture.runtime_message (trace (snd r))
  = [("Command " ++ dq ++ "git init" ++ dq ++ " failed with exit code 1")%string;
     ("Error creating project: Command " ++ dq ++ "git init" ++ dq
      ++ " failed with exit code 1")%string] /\
  existsb names_a_step (error_lines Fixture.runtime_message (trace (snd r)))
  = false.
Proof. vm_compute. done. Qed.

Lemma failed_command_witness :
  let r := Node.run (failing "npm init -y") lazy
             (Generator.createProject "/tool" Fixture.runtime_message "/home"
                "demo" "TypeScript" true true) machine in
  fst r = Exited 1 /\
  drop 5 (trace (snd r))
  = [Did (ConsoleErrorObject
            (Error ("Command " ++ dq ++ "npm init -y" ++ dq
                    ++ " failed with exit code 1")%string)) AUnit;
     Did (ConsoleError
            ("Error while creating npm project: Command " ++ dq
             ++ "npm init -y" ++ dq ++ " failed with exit code 1")%string) AUnit;
     Exit 1].
Proof.
  intros r.
  destruct (failed_command_stops_pipeline "/tool" Fixture.runtime_message
              "/home" (failing "npm init -y") lazy "demo" "TypeScript" true true
              machine (take 4 (trace (snd r))) "npm" ["init"; "-y"] "/home/demo"
              (ExitCode (Some 1%Z)) (drop 5 (trace (snd r))))
    as [H _].
  - reflexivity.
  - vm_compute. reflexivity.
  - reflexivity.
  - split; [exact H|]. vm_compute. reflexivity.
Defined.

(** ** The tokens of a command line *)

Lemma span_spec p t a b :
  span p t = (a, b) ->
  t = a ++ b /\ forallb p a = true /\
  match b with [] => True | c :: _ => p c = false end.
Proof.
  revert a b. induction t as [|c t IH]; intros a b; simpl.
  - by intros [= <- <-].
  - destruct (p c) eqn:Hc.
    + destruct (span p t) as [a' b'] eqn:Hs. intros [= <- <-].
      destruct (IH a' b' eq_refl) as (-> & Ha & Hb).
      repeat split; [|done]. simpl. by rewrite Hc.
    + intros [= <- <-]. by rewrite Hc.
Qed.

Lemma is_word_quoted body :
  body <> [] -> forallb is_not_quote body = true ->
  is_word (Tokenizer.dquote :: body ++ [Tokenizer.dquote]) = true.
Proof.
  intros Hne Hbody. unfold is_word.
  change (Ascii.eqb Tokenizer.dquote Tokenizer.dquote) with true. cbv iota.
  rewrite rev_app_distr. cbn [rev app].
  change (Ascii.eqb Tokenizer.dquote Tokenizer.dquote) with true.
  rewrite length_rev. destruct body as [|b body]; [done|].
  cbn [List.length Nat.eqb negb andb].
  rewrite forallb_forall in Hbody |- *. intros x Hx. apply Hbody.
  by apply in_rev.
Qed.

(** A match is a word, and it is the start of the text. *)
Lemma match_here_is_word t tok rest :
  match_here t = Some (tok, rest) -> is_word tok = true /\ t = tok ++ rest.
Proof.
  destruct t as [|c t]; [done|]. unfold match_here.
  destruct (is_word_char c) eqn:Hc.
  - destruct (span is_word_char (c :: t)) as [a b] eqn:Hs. intros [= <- <-].
    destruct (span_spec _ _ _ _ Hs) as (Ht & Ha & _). split; [|done].
    simpl in Hs. rewrite Hc in Hs. destruct (span is_word_char t).
    injection Hs as <- <-. unfold is_word.
    unfold is_word_char in Hc. apply andb_true_iff in Hc as [Hq _].
    apply negb_true_iff in Hq. by rewrite Hq.
  - destruct (Ascii.eqb_spec c Tokenizer.dquote) as [->|]; [|done].
    destruct (span is_not_quote t) as [body r] eqn:Hs.
    destruct (span_spec _ _ _ _ Hs) as (-> & Hbody & Hr).
    destruct body as [|b body]; [done|]. destruct r as [|q r]; [done|].
    intros [= <- <-]. split.
    + unfold is_not_quote in Hr. apply negb_false_iff in Hr.
      apply Ascii.eqb_eq in Hr as ->. by apply (is_word_quoted (b :: body)).
    + cbn [app]. by rewrite <- app_assoc.
Qed.

(** What [match] returns, laid over the text: some text, then each token
    followed by the text up to the next token. *)
Lemma match_all_assemble fuel t :
  exists lead words,
    t = assemble lead words /\
    match_all fuel t = map fst words /\
    Forall (fun ws => is_word (fst ws) = true) words.
Proof.
  revert t. induction fuel as [|fuel IH]; intros t.
  { exists t, []. unfold assemble. simpl. by rewrite app_nil_r. }
  destruct t as [|c t].
  { exists [], []. done. }
  cbn [match_all]. destruct (match_here (c :: t)) as [[tok rest]|] eqn:Hm.
  - destruct (match_here_is_word _ _ _ Hm) as [Hw Ht].
    destruct (IH rest) as (lead & words & Hrest & Hall & Hwords).
    exists [], ((tok, lead) :: words). split; [|split].
    + rewrite Ht, Hrest. unfold assemble. cbn [flat_map app].
      by rewrite <- app_assoc.
    + simpl. by rewrite Hall.
    + by constructor.
  - destruct (IH t) as (lead & words & Ht & Hall & Hwords).
    exists (c :: lead), words. split; [|done]. by rewrite Ht.
Qed.

(** X1: every token of a command line is a word, a run of characters that
    are neither quotes nor white space or a quoted run that keeps its
    quotes, and the tokens are pieces of the command line, in its order
    and without overlap. *)
Theorem tokens_are_pieces command :
  exists lead words,
    list_ascii_of_string command = assemble lead words /\
    tokenize command = map (fun ws => string_of_list_ascii (fst ws)) words /\
    Forall (fun ws => is_word (fst ws) = true) words.
Proof.
  destruct (match_all_assemble
              (List.length (list_ascii_of_string command))
              (list_ascii_of_string command))
    as (lead & words & Ht & Hall & Hwords).
  exists lead, words. split; [done|]. split; [|done].
  unfold tokenize. cbv zeta. by rewrite Hall, map_map.
Qed.

Lemma match_all_blank fuel t :
  forallb Tokenizer.is_space t = true -> match_all fuel t = [].
Proof.
  revert t. induction fuel as [|fuel IH]; intros t H; [done|].
  destruct t as [|c t]; [done|]. simpl in H.
  apply andb_true_iff in H as [Hc Ht].
  cbn [match_all]. rewrite match_here_space by done. by apply IH.
Qed.

Section runner.
Variable exec :
  string -> list string -> string ->
  gmap string string * gset string ->
  proc_result * (gmap string string * gset string).
Variable sched : nat -> nat.

#[local] Abbreviation run := (Node.run exec sched).

(** X2: a command line of white space only (the empty one too) has no
    token: [runCommand] prints it, starts no process and rejects with the
    type error of [args.shift()]. *)
Theorem runCommand_blank command cwd w :
  forallb Tokenizer.is_space (list_ascii_of_string command) = true ->
  run (runCommand command cwd) w =
  (Threw (TypeError "args.shift"), log (Did (ConsoleLog command) AUnit) w).
Proof.
  intros H. unfold runCommand, printCommand. rewrite run_mbind.
  cbn [console_log Node.run perform as_unit].
  unfold tokenize. cbv zeta. rewrite match_all_blank by done. reflexivity.
Qed.

Lemma run_runCommand_state command cwd w cmd args r f d :
  pending w = [] ->
  tokenize command = cmd :: args ->
  exec cmd args cwd (files w, dirs w) = (r, (f, d)) ->
  let res := run (runCommand command cwd) w in
  fst res = (if succeeded r then Returned tt
             else Threw (command_error command r)) /\
  files (snd res) = f /\ dirs (snd res) = d /\ pending (snd res) = [].
Proof.
  intros Hp Htok Hexec res. subst res. unfold runCommand, printCommand.
  rewrite run_mbind. cbn [console_log Node.run perform as_unit].
  rewrite Htok, run_Await_idle by done.
  cbn [perform files dirs log tick]. rewrite Hexec.
  destruct r as [code|e]; cbn [succeeded]; [by destruct (is_zero code)|done].
Qed.

(** X3: what [runCommand] does with a command line that has a token, no
    call being in flight: it prints the line, runs the first token once
    with the other tokens as arguments in the given directory, and returns
    when the process exits with code 0; any other end of the process (a
    code that is not 0, no code after a signal, a failure to launch) is
    printed and becomes the error it rejects with. *)
Theorem runCommand_outcome command cwd w cmd args r f d :
  pending w = [] ->
  tokenize command = cmd :: args ->
  exec cmd args cwd (files w, dirs w) = (r, (f, d)) ->
  let res := run (runCommand command cwd) w in
  fst res = (if succeeded r then Returned tt
             else Threw (command_error command r)) /\
  trace (snd res) =
    trace w ++ [Did (ConsoleLog command) AUnit;
                Began (Spawn cmd args cwd);
                Ended (Spawn cmd args cwd) (AProc r)]
            ++ (if succeeded r then [] else runner_report command r) /\
  files (snd res) = f /\ dirs (snd res) = d /\ pending (snd res) = [].
Proof.
  intros Hp Htok Hexec res. subst res. unfold runCommand, printCommand.
  rewrite run_mbind. cbn [console_log Node.run perform as_unit].
  rewrite Htok, run_Await_idle by done.
  cbn [perform files dirs log tick]. rewrite Hexec.
  destruct r as [code|e]; cbn [succeeded].
  - destruct (is_zero code); simpl; rewrite <- ?app_assoc; done.
  - simpl. rewrite <- !app_assoc. done.
Qed.

End runner.

Lemma runCommand_blank_witness :
  fst (Node.run toolchain lazy (runCommand "   " "/home") machine)
  = Threw (TypeError "args.shift").
Proof.
  by rewrite (runCommand_blank toolchain lazy "   " "/home" machine eq_refl).
Defined.

Lemma runCommand_outcome_witness :
  fst (Node.run (failing "git init") lazy (runCommand "git init" "/home") machine)
  = Threw (Error ("Command " ++ dq ++ "git init" ++ dq
                  ++ " failed with exit code 1")%string).
Proof.
  exact (proj1 (runCommand_outcome (failing "git init") lazy "git init" "/home"
                  machine "git" ["init"] (ExitCode (Some 1%Z))
                  (files machine) (dirs machine) eq_refl eq_refl eq_refl)).
Defined.

(** ** Runs of single steps *)

Section step_runs.
Variable exec :
  string -> list string -> string ->
  gmap string string * gset string ->
  proc_result * (gmap string string * gset string).
Variable sched : nat -> nat.

#[local] Abbreviation run := (Node.run exec sched).

Lemma bind_extends {A B} (p : prog A) (f : A -> prog B) w :
  extends (snd (run p w)) (snd (run (bind p f) w)).
Proof.
  rewrite run_bind. destruct (run p w) as [[a|e|c|] w1]; simpl;
    try apply extends_refl.
  apply run_extends.
Qed.

Lemma mbind_extends {A B} (p : prog A) (f : A -> prog B) w :
  extends (snd (run p w)) (snd (run (p ≫= f) w)).
Proof. apply bind_extends. Qed.

Lemma try_catch_extends {A} (p : prog A) h w :
  extends (snd (run p w)) (snd (run (try_catch p h) w)).
Proof.
  rewrite run_try_catch. destruct (run p w) as [[a|e|c|] w1]; simpl;
    try apply extends_refl.
  apply run_extends.
Qed.

Lemma extends_from w0 w' t1 t2 :
  trace w0 = t1 ++ t2 -> extends w0 w' ->
  exists more, trace w' = t1 ++ t2 ++ more.
Proof.
  intros H0 [more H]. exists more. by rewrite H, H0, app_assoc.
Qed.

(** A command that succeeds, with no call in flight. *)
Lemma run_runCommand_ok command cmd args dir w f d :
  pending w = [] ->
  tokenize command = cmd :: args ->
  exec cmd args dir (files w, dirs w) = (ExitCode (Some 0%Z), (f, d)) ->
  run (runCommand command dir) w =
  (Returned tt,
   log (Ended (Spawn cmd args dir) (AProc (ExitCode (Some 0%Z))))
     (set_dirs d
        (set_files f
           (tick (log (Began (Spawn cmd args dir))
              (log (Did (ConsoleLog command) AUnit) w)))))).
Proof.
  intros Hp Htok Hexec. unfold runCommand, printCommand.
  rewrite run_mbind. cbn [console_log Node.run perform as_unit].
  rewrite Htok, run_Await_idle by done.
  cbn [perform files dirs log tick]. rewrite Hexec. reflexivity.
Qed.

(** The manifest is a file that holds an object: the type is set. *)
Lemma run_modulePackageJson_obj projectPath w text o :
  let path := path_join projectPath "package.json" in
  let new := JSON.stringify (JObj (obj_set o "type" (JStr "module"))) in
  pending w = [] ->
  path ∉ dirs w ->
  files w !! path = Some text ->
  JSON.parse text = JSON.Parsed (JObj o) ->
  run (Generator.modulePackageJson projectPath) w =
  (Returned tt,
   log (Ended (WriteFile path new) AUnit)
     (set_files (<[path := new]> (files w))
        (tick (log (Began (WriteFile path new))
           (log (Ended (ReadFile path) (AText text))
              (tick (log (Began (ReadFile path))
                 (log (Did (ExistsSync path) (ABool true)) w)))))))).
Proof.
  intros path new Hp Hd Hf Hparse. unfold Generator.modulePackageJson.
  fold path.
  rewrite run_mbind, run_existsSync, (exists_path_file _ _ _ Hf).
  cbn [negb]. rewrite run_mbind, run_readFile by done.
  cbn [dirs log files]. rewrite bool_decide_eq_false_2, Hf by done.
  cbv zeta. rewrite run_mbind. unfold JSON_parse. rewrite Hparse.
  cbn [Node.run]. rewrite run_mbind. cbn [set_property Node.run].
  rewrite run_writeFile by done.
  cbn [dirs log files tick]. rewrite bool_decide_eq_false_2 by done.
  reflexivity.
Qed.

End step_runs.

(** ** The manifest: the module type and the fields a merge leaves alone *)

Lemma obj_set_keys_plain o k v :
  array_index k = None ->
  obj_keys (obj_set o k v) =
  if obj_has o k then obj_keys o else obj_keys o ++ [k].
Proof.
  intros Hk. unfold obj_set. destruct (obj_has o k).
  - apply obj_update_keys.
  - rewrite Hk. unfold obj_keys. by rewrite map_app.
Qed.

Lemma wf_NoDup o : wf (JObj o) = true -> NoDup (obj_keys o).
Proof. intros [H _]%wf_obj_Forall. by apply keys_ordered_NoDup. Qed.

Section manifest_steps.
Variable exec :
  string -> list string -> string ->
  gmap string string * gset string ->
  proc_result * (gmap string string * gset string).
Variable sched : nat -> nat.

#[local] Abbreviation run := (Node.run exec sched).

(** X4: without a manifest at the project path, [modulePackageJson] throws
    the file-not-found error after the existence check alone: nothing is
    read, nothing is written. *)
Theorem modulePackageJson_without_manifest projectPath w :
  let path := path_join projectPath "package.json" in
  exists_path w path = false ->
  run (Generator.modulePackageJson projectPath) w =
  (Threw (Error ("File not found: " ++ path)),
   log (Did (ExistsSync path) (ABool false)) w).
Proof.
  intros path H. unfold Generator.modulePackageJson. fold path.
  by rewrite run_mbind, run_existsSync, H.
Qed.

(** X5: on a manifest that holds an object, [modulePackageJson] returns
    and stores the object with the field type set to module: every other
    field keeps its value, the fields keep their order (a new type field
    goes last), and no other file changes. *)
Theorem modulePackageJson_sets_type projectPath w text o :
  let path := path_join projectPath "package.json" in
  let r := run (Generator.modulePackageJson projectPath) w in
  pending w = [] ->
  path ∉ dirs w ->
  files w !! path = Some text ->
  JSON.parse text = JSON.Parsed (JObj o) ->
  fst r = Returned tt /\
  exists o',
    manifest_at (snd r) path = Some (JObj o') /\
    obj_get o' "type" = Some (JStr "module") /\
    (forall k, k <> "type" -> obj_get o' k = obj_get o k) /\
    obj_keys o' = (if obj_has o "type" then obj_keys o
                   else obj_keys o ++ ["type"]) /\
    files (snd r) = <[path := JSON.stringify (JObj o')]> (files w) /\
    dirs (snd r) = dirs w.
Proof.
  intros path r Hp Hd Hf Hparse. subst r. unfold path in *.
  rewrite (run_modulePackageJson_obj _ _ _ _ text o) by done.
  pose proof (parse_wf _ _ Hparse) as Ho.
  split; [done|]. exists (obj_set o "type" (JStr "module")).
  repeat split.
  - apply manifest_at_stringify; [|by apply wf_obj_set].
    simpl. apply lookup_insert_eq.
  - apply obj_get_set_eq. by apply wf_NoDup.
  - intros k Hk. apply obj_get_set_ne; [by apply wf_NoDup|done].
  - by apply obj_set_keys_plain.
Qed.

(** X6: [modulePackageJson] is idempotent on a manifest that holds an
    object: a second call returns as the first did and leaves every file as
    the first call left it. *)
Theorem modulePackageJson_idempotent projectPath w text o :
  let path := path_join projectPath "package.json" in
  let once := run (Generator.modulePackageJson projectPath) w in
  let twice := run (Generator.modulePackageJson projectPath) (snd once) in
  pending w = [] ->
  path ∉ dirs w ->
  files w !! path = Some text ->
  JSON.parse text = JSON.Parsed (JObj o) ->
  fst once = Returned tt /\ fst twice = Returned tt /\
  files (snd twice) = files (snd once) /\ dirs (snd twice) = dirs (snd once).
Proof.
  intros path once twice Hp Hd Hf Hparse. subst twice once. unfold path in *.
  rewrite (run_modulePackageJson_obj _ _ _ _ text o) by done.
  pose proof (parse_wf _ _ Hparse) as Ho.
  cbn [fst snd].
  rewrite (run_modulePackageJson_obj _ _ _ _
             (JSON.stringify (JObj (obj_set o "type" (JStr "module"))))
             (obj_set o "type" (JStr "module")));
    [|done|done|simpl; apply lookup_insert_eq
     |apply parse_stringify; by apply wf_obj_set].
  rewrite obj_set_set. cbn [fst snd files dirs log set_files tick].
  repeat split. by rewrite insert_insert_eq.
Qed.

(** X7: a merge of scripts into a manifest that holds an object changes
    the field scripts and nothing else: every other field keeps its value,
    the fields keep their order (a new scripts field goes last), and no
    other file and no directory changes. *)
Theorem merge_keeps_other_fields projectPath scripts w text o :
  let path := path_join projectPath "package.json" in
  let r := run (addScriptsToPackageJson projectPath scripts) w in
  pending w = [] ->
  path ∉ dirs w ->
  files w !! path = Some text ->
  JSON.parse text = JSON.Parsed (JObj o) ->
  wf (JObj scripts) = true ->
  fst r = Returned tt /\
  exists o',
    manifest_at (snd r) path = Some (JObj o') /\
    (forall k, k <> "scripts" -> obj_get o' k = obj_get o k) /\
    obj_keys o' = (if obj_has o "scripts" then obj_keys o
                   else obj_keys o ++ ["scripts"]) /\
    files (snd r) = <[path := JSON.stringify (JObj o')]> (files w) /\
    dirs (snd r) = dirs w.
Proof.
  intros path r Hp Hd Hf Hparse Hsc. subst r. unfold path in *.
  rewrite (run_addScripts_obj _ _ _ _ _ text o) by done.
  pose proof (parse_wf _ _ Hparse) as Ho.
  split; [done|]. exists (merged_manifest o scripts). repeat split.
  - apply manifest_at_stringify; [|by apply merged_manifest_wf].
    simpl. apply lookup_insert_eq.
  - intros k Hk. rewrite merged_manifest_eq.
    apply obj_get_set_ne; [by apply wf_NoDup|done].
  - rewrite merged_manifest_eq. by apply obj_set_keys_plain.
Qed.

(** X8: a merge into a manifest that has no scripts field creates the
    field with the additions and nothing else; its keys are in ascending
    order of code units when none of them is an array index. *)
Theorem merge_creates_scripts projectPath scripts w text o :
  let path := path_join projectPath "package.json" in
  let r := run (addScriptsToPackageJson projectPath scripts) w in
  pending w = [] ->
  path ∉ dirs w ->
  files w !! path = Some text ->
  JSON.parse text = JSON.Parsed (JObj o) ->
  obj_get o "scripts" = None ->
  wf (JObj scripts) = true ->
  fst r = Returned tt /\
  exists o' s',
    manifest_at (snd r) path = Some (JObj o') /\
    obj_get o' "scripts" = Some (JObj s') /\
    (forall k, obj_get s' k = obj_get scripts k) /\
    ((forall k, k ∈ obj_keys scripts -> array_index k = None) ->
     obj_keys s' = sort_keys (obj_keys scripts)).
Proof.
  intros path r Hp Hd Hf Hparse Hs Hsc. subst r. unfold path in *.
  rewrite (run_addScripts_obj _ _ _ _ _ text o) by done.
  pose proof (parse_wf _ _ Hparse) as Ho.
  pose proof Hsc as [Hsord _]%wf_obj_Forall.
  split; [done|].
  set (m := merged_scripts None scripts).
  assert (m = scripts) as Hm.
  { unfold m, merged_scripts. cbn [own_props spread_into fold_left].
    by apply spread_into_nil. }
  exists (merged_manifest o scripts), (sorted_scripts m). repeat split.
  - apply manifest_at_stringify; [|by apply merged_manifest_wf].
    simpl. apply lookup_insert_eq.
  - rewrite merged_manifest_eq, Hs. fold m.
    apply obj_get_set_eq. by apply wf_NoDup.
  - intros k. rewrite Hm. by apply sorted_scripts_spec.
  - intros Hidx. rewrite Hm. by apply sorted_scripts_ascending.
Qed.


End manifest_steps.

Lemma modulePackageJson_without_manifest_witness :
  fst (Node.run toolchain lazy (Generator.modulePackageJson "/home/demo") machine)
  = Threw (Error "File not found: /home/demo/package.json").
Proof.
  by rewrite (modulePackageJson_without_manifest toolchain lazy "/home/demo"
                machine eq_refl).
Defined.

Lemma modulePackageJson_sets_type_witness :
  field (manifest_at
           (snd (Node.run no_tools lazy (Generator.modulePackageJson "/home/demo")
                   (with_manifest "/home/demo/package.json" npm_manifest)))
           (path_join "/home/demo" "package.json")) "type"
  = Some (JStr "module").
Proof.
  destruct (modulePackageJson_sets_type no_tools lazy "/home/demo"
              (with_manifest "/home/demo/package.json" npm_manifest)
              (JSON.stringify npm_manifest)
              [("name", JStr "demo"); ("version", JStr "1.0.0");
               ("scripts", JObj [("test", JStr "echo no test")])])
    as (_ & o' & Hm & Ht & _).
  - reflexivity.
  - cbn [dirs with_manifest]. apply not_elem_of_empty.
  - reflexivity.
  - vm_compute. reflexivity.
  - cbv zeta in Hm. rewrite Hm. exact Ht.
Defined.

Lemma modulePackageJson_idempotent_witness :
  let once := Node.run no_tools lazy (Generator.modulePackageJson "/home/demo")
                (with_manifest "/home/demo/package.json" npm_manifest) in
  let twice := Node.run no_tools lazy (Generator.modulePackageJson "/home/demo")
                 (snd once) in
  fst twice = Returned tt /\ files (snd twice) = files (snd once).
Proof.
  intros once twice.
  destruct (modulePackageJson_idempotent no_tools lazy "/home/demo"
              (with_manifest "/home/demo/package.json" npm_manifest)
              (JSON.stringify npm_manifest)
              [("name", JStr "demo"); ("version", JStr "1.0.0");
               ("scripts", JObj [("test", JStr "echo no test")])])
    as (_ & H2 & Hf & _).
  - reflexivity.
  - cbn [dirs with_manifest]. apply not_elem_of_empty.
  - reflexivity.
  - vm_compute. reflexivity.
  - split; [exact H2|exact Hf].
Defined.

Lemma merge_keeps_other_fields_witness :
  field (manifest_at
           (snd (Node.run no_tools lazy
                   (addScriptsToPackageJson "/home/demo"
                      (object_literal [("lint", JStr "eslint .")]))
                   (with_manifest "/home/demo/package.json" npm_manifest)))
           (path_join "/home/demo" "package.json")) "version"
  = Some (JStr "1.0.0").
Proof.
  destruct (merge_keeps_other_fields no_tools lazy "/home/demo"
              (object_literal [("lint", JStr "eslint .")])
              (with_manifest "/home/demo/package.json" npm_manifest)
              (JSON.stringify npm_manifest)
              [("name", JStr "demo"); ("version", JStr "1.0.0");
               ("scripts", JObj [("test", JStr "echo no test")])])
    as (_ & o' & Hm & Hk & _).
  - reflexivity.
  - cbn [dirs with_manifest]. apply not_elem_of_empty.
  - reflexivity.
  - vm_compute. reflexivity.
  - reflexivity.
  - cbv zeta in Hm. rewrite Hm. cbn [field]. by rewrite Hk.
Defined.

Lemma merge_creates_scripts_witness :
  field (manifest_at
           (snd (Node.run no_tools lazy
                   (addScriptsToPackageJson "/home/demo"
                      (object_literal [("lint", JStr "eslint .")]))
                   (with_manifest "/home/demo/package.json"
                      (JObj [("name", JStr "demo")]))))
           (path_join "/home/demo" "package.json")) "scripts"
  = Some (JObj [("lint", JStr "eslint .")]).
Proof.
  destruct (merge_creates_scripts no_tools lazy "/home/demo"
              (object_literal [("lint", JStr "eslint .")])
              (with_manifest "/home/demo/package.json"
                 (JObj [("name", JStr "demo")]))
              (JSON.stringify (JObj [("name", JStr "demo")]))
              [("name", JStr "demo")])
    as (_ & o' & s' & Hm & Hs & _).
  - reflexivity.
  - cbn [dirs with_manifest]. apply not_elem_of_empty.
  - reflexivity.
  - vm_compute. reflexivity.
  - reflexivity.
  - reflexivity.
  - vm_compute. reflexivity.
Defined.


(** ** The configuration files and the repository *)

Section file_steps.
Variable dirname : string.
Variable exec :
  string -> list string -> string ->
  gmap string string * gset string ->
  proc_result * (gmap string string * gset string).
Variable sched : nat -> nat.

#[local] Abbreviation run := (Node.run exec sched).

(** Reading a template and writing it somewhere else. *)
Lemma run_copy src dst w :
  pending w = [] ->
  src ∉ dirs w ->
  run (text ← readFile src; writeFile dst text) w =
  match files w !! src with
  | None =>
      (Threw (SystemError "ENOENT" "open" src),
       log (Ended (ReadFile src) (AFailed (SystemError "ENOENT" "open" src)))
         (tick (log (Began (ReadFile src)) w)))
  | Some text =>
      let w1 := tick (log (Began (WriteFile dst text))
                  (log (Ended (ReadFile src) (AText text))
                     (tick (log (Began (ReadFile src)) w)))) in
      if bool_decide (dst ∈ dirs w)
      then (Threw (SystemError "EISDIR" "open" dst),
            log (Ended (WriteFile dst text)
                   (AFailed (SystemError "EISDIR" "open" dst))) w1)
      else (Returned tt,
            log (Ended (WriteFile dst text) AUnit)
              (set_files (<[dst := text]> (files w)) w1))
  end.
Proof.
  intros Hp Hsrc. rewrite run_mbind, run_readFile by done. cbv zeta.
  rewrite bool_decide_eq_false_2 by done.
  destruct (files w !! src) as [text|]; [|done].
  rewrite run_writeFile by done. reflexivity.
Qed.

(** X10: [createPrettierConfig] copies the Prettier template of the tool to
    the file .prettierrc.json of the project and changes nothing else; when
    the template is missing it rejects with the error of the read and
    writes nothing. *)
Theorem createPrettierConfig_copies projectPath w :
  let target := path_join projectPath ".prettierrc.json" in
  let r := run (createPrettierConfig dirname projectPath) w in
  pending w = [] ->
  PRETTIER_CONFIG dirname ∉ dirs w ->
  target ∉ dirs w ->
  match files w !! PRETTIER_CONFIG dirname with
  | Some text =>
      fst r = Returned tt /\
      files (snd r) = <[target := text]> (files w) /\ dirs (snd r) = dirs w
  | None =>
      fst r = Threw (SystemError "ENOENT" "open" (PRETTIER_CONFIG dirname)) /\
      files (snd r) = files w /\ dirs (snd r) = dirs w
  end.
Proof.
  intros target r Hp Hsrc Hdst. subst r. unfold createPrettierConfig.
  fold target. rewrite run_copy by done.
  destruct (files w !! PRETTIER_CONFIG dirname) as [text|]; [|done].
  cbv zeta. by rewrite bool_decide_eq_false_2.
Qed.

(** A project type that is neither JavaScript nor TypeScript makes
    [createEslintConfig] reject at once: no command is run, nothing is
    read, nothing is written. *)
Lemma createEslintConfig_invalid_type projectPath type w :
  type <> "JavaScript" -> type <> "TypeScript" ->
  run (createEslintConfig dirname projectPath type) w =
  (Threw (Error "Invalid project type"), w).
Proof.
  intros Hjs Hts. unfold createEslintConfig.
  apply String.eqb_neq in Hjs, Hts. by rewrite Hjs, Hts.
Qed.

(** X11: for a TypeScript project [createEslintConfig] runs no command: it
    copies the TypeScript template of the tool to the file .eslintrc.json
    of the project and changes nothing else. *)
Theorem createEslintConfig_typescript projectPath w text :
  let target := path_join projectPath ".eslintrc.json" in
  let r := run (createEslintConfig dirname projectPath "TypeScript") w in
  pending w = [] ->
  ESLINT_CONFIG_TS dirname ∉ dirs w ->
  target ∉ dirs w ->
  files w !! ESLINT_CONFIG_TS dirname = Some text ->
  fst r = Returned tt /\
  files (snd r) = <[target := text]> (files w) /\ dirs (snd r) = dirs w /\
  trace (snd r) =
    trace w ++ [Began (ReadFile (ESLINT_CONFIG_TS dirname));
                Ended (ReadFile (ESLINT_CONFIG_TS dirname)) (AText text);
                Began (WriteFile target text);
                Ended (WriteFile target text) AUnit].
Proof.
  intros target r Hp Hsrc Hdst Hf. subst r. unfold createEslintConfig.
  fold target. cbn [String.eqb Ascii.eqb Bool.eqb].
  rewrite run_copy by done. rewrite Hf. cbv zeta.
  rewrite bool_decide_eq_false_2 by done.
  cbn [fst snd files dirs trace log set_files tick].
  rewrite <- !app_assoc. done.
Qed.

(** X12: for a JavaScript project [createEslintConfig] first installs
    eslint-config-airbnb in the project; the configuration file is written
    only when that command succeeded, and it is then the JavaScript
    template as the command left it. *)
Theorem createEslintConfig_javascript projectPath w res f d :
  let target := path_join projectPath ".eslintrc.json" in
  let r := run (createEslintConfig dirname projectPath "JavaScript") w in
  pending w = [] ->
  exec "npm" ["install"; "--save-dev"; "eslint-config-airbnb"] projectPath
       (files w, dirs w) = (res, (f, d)) ->
  ESLINT_CONFIG_JS dirname ∉ d ->
  target ∉ d ->
  if succeeded res then
    match f !! ESLINT_CONFIG_JS dirname with
    | Some text =>
        fst r = Returned tt /\ files (snd r) = <[target := text]> f
    | None =>
        fst r = Threw (SystemError "ENOENT" "open" (ESLINT_CONFIG_JS dirname)) /\
        files (snd r) = f
    end
  else
    fst r = Threw (command_error "npm install --save-dev eslint-config-airbnb" res)
    /\ files (snd r) = f.
Proof.
  intros target r Hp Hexec Hsrc Hdst. subst r. unfold createEslintConfig.
  fold target. cbn [String.eqb Ascii.eqb Bool.eqb].
  rewrite run_mbind, run_mbind.
  assert (tokenize "npm install --save-dev eslint-config-airbnb"
          = ["npm"; "install"; "--save-dev"; "eslint-config-airbnb"]) as Htok
    by (vm_compute; reflexivity).
  pose proof (run_runCommand_state exec sched
                "npm install --save-dev eslint-config-airbnb" projectPath w
                "npm" ["install"; "--save-dev"; "eslint-config-airbnb"]
                res f d Hp Htok Hexec) as (Hout & Hf & Hd & Hq).
  cbv zeta in Hout, Hf, Hd, Hq.
  destruct (run (runCommand "npm install --save-dev eslint-config-airbnb"
                   projectPath) w) as [out w1].
  cbn [fst snd] in *. subst f d.
  destruct (succeeded res); subst out; [|done].
  pose proof (run_copy (ESLINT_CONFIG_JS dirname) target w1 Hq Hsrc) as Hc.
  rewrite run_mbind in Hc.
  destruct (run (readFile (ESLINT_CONFIG_JS dirname)) w1) as [[text'|e|c|] w2];
    destruct (files w1 !! ESLINT_CONFIG_JS dirname) as [text|];
    cbv zeta in Hc; rewrite ?bool_decide_eq_false_2 in Hc by done;
    try (by rewrite Hc); try (by injection Hc as <- <-).
Qed.

(** A command that exits with code 0, with no call in flight. *)
Lemma run_runCommand_zero command dir w cmd args :
  pending w = [] ->
  tokenize command = cmd :: args ->
  fst (exec cmd args dir (files w, dirs w)) = ExitCode (Some 0%Z) ->
  exists w',
    run (runCommand command dir) w = (Returned tt, w') /\
    pending w' = [] /\
    trace w' = trace w ++ [Did (ConsoleLog command) AUnit;
                           Began (Spawn cmd args dir);
                           Ended (Spawn cmd args dir) (AProc (ExitCode (Some 0%Z)))].
Proof.
  intros Hp Htok Hexec.
  destruct (exec cmd args dir (files w, dirs w)) as [res [f d]] eqn:He.
  simpl in Hexec. subst res.
  rewrite (run_runCommand_ok exec sched command cmd args dir w f d) by done.
  eexists. split; [done|]. split; [done|].
  cbn [trace log set_dirs set_files tick]. by rewrite <- !app_assoc.
Qed.

(** X13: with Git, and commands that all exit with code 0, [setupGit]
    writes the ignore file of the tool into the project first and then
    runs, one after the other and each in the project directory, git init,
    git add ., git commit with the message as one argument that keeps its
    quotes, and git checkout -b dev; the two messages are printed last. *)
Theorem setupGit_commands projectPath projectName w text :
  let target := path_join projectPath ".gitignore" in
  let done := AProc (ExitCode (Some 0%Z)) in
  let commit :=
    ("git commit -m " ++ dq ++ "Initial commit: project setup" ++ dq)%string in
  let commit_args :=
    ["commit"; "-m"; (dq ++ "Initial commit: project setup" ++ dq)%string] in
  let r := run (setupGit dirname projectPath true projectName) w in
  pending w = [] ->
  (forall cmd args cwd fs, fst (exec cmd args cwd fs) = ExitCode (Some 0%Z)) ->
  GITIGNORE dirname ∉ dirs w ->
  target ∉ dirs w ->
  files w !! GITIGNORE dirname = Some text ->
  fst r = Returned tt /\
  trace (snd r) =
    trace w ++
    [Began (ReadFile (GITIGNORE dirname));
     Ended (ReadFile (GITIGNORE dirname)) (AText text);
     Began (WriteFile target text);
     Ended (WriteFile target text) AUnit;
     Did (ConsoleLog "git init") AUnit;
     Began (Spawn "git" ["init"] projectPath);
     Ended (Spawn "git" ["init"] projectPath) done;
     Did (ConsoleLog "git add .") AUnit;
     Began (Spawn "git" ["add"; "."] projectPath);
     Ended (Spawn "git" ["add"; "."] projectPath) done;
     Did (ConsoleLog commit) AUnit;
     Began (Spawn "git" commit_args projectPath);
     Ended (Spawn "git" commit_args projectPath) done;
     Did (ConsoleLog "git checkout -b dev") AUnit;
     Began (Spawn "git" ["checkout"; "-b"; "dev"] projectPath);
     Ended (Spawn "git" ["checkout"; "-b"; "dev"] projectPath) done;
     Did (ConsoleLog "Git has been set up, and you are now on the 'dev' branch.")
         AUnit;
     Did (ConsoleLog ("Project " ++ projectName ++ " has been created")) AUnit].
Proof.
  intros target done commit commit_args r Hp Hexec Hsrc Hdst Hf.
  subst r commit commit_args.
  unfold setupGit, printOutput. fold target.
  rewrite run_mbind, run_mbind, run_readFile by done. cbv zeta.
  rewrite bool_decide_eq_false_2, Hf by done.
  rewrite run_mbind, run_writeFile by done. cbv zeta.
  rewrite bool_decide_eq_false_2 by done.
  set (w1 := log (Ended (WriteFile target text) AUnit) _).
  assert (pending w1 = []) as Hp1 by done.
  assert (trace w1 = trace w ++
            [Began (ReadFile (GITIGNORE dirname));
             Ended (ReadFile (GITIGNORE dirname)) (AText text);
             Began (WriteFile target text);
             Ended (WriteFile target text) AUnit]) as Ht1.
  { unfold w1. cbn [trace log set_files tick]. by rewrite <- !app_assoc. }
  clearbody w1. cbn iota. rewrite run_mbind.
  destruct (run_runCommand_zero "git init" projectPath w1 "git" ["init"]
              Hp1 eq_refl (Hexec _ _ _ _)) as (w2 & -> & Hp2 & Ht2).
  rewrite run_mbind.
  destruct (run_runCommand_zero "git add ." projectPath w2 "git" ["add"; "."]
              Hp2 eq_refl (Hexec _ _ _ _)) as (w3 & -> & Hp3 & Ht3).
  rewrite run_mbind.
  destruct (run_runCommand_zero
              ("git commit -m " ++ dq ++ "Initial commit: project setup" ++ dq)
              projectPath w3 "git"
              ["commit"; "-m"; (dq ++ "Initial commit: project setup" ++ dq)%string]
              Hp3 eq_refl (Hexec _ _ _ _)) as (w4 & -> & Hp4 & Ht4).
  rewrite run_mbind.
  destruct (run_runCommand_zero "git checkout -b dev" projectPath w4 "git"
              ["checkout"; "-b"; "dev"] Hp4 eq_refl (Hexec _ _ _ _))
    as (w5 & -> & Hp5 & Ht5).
  cbn [console_log Node.run Node.perform as_unit mbind prog_bind bind fst snd
       trace log].
  split; [done|].
  rewrite Ht5, Ht4, Ht3, Ht2, Ht1. rewrite <- !app_assoc. reflexivity.
Qed.

End file_steps.

Lemma createPrettierConfig_copies_witness :
  let r := Node.run no_tools lazy (createPrettierConfig "/tool" "/home/demo")
             machine in
  fst r = Returned tt /\
  files (snd r) !! path_join "/home/demo" ".prettierrc.json" = Some "{}".
Proof.
  intros r.
  assert (PRETTIER_CONFIG "/tool" ∉ dirs machine) as H1.
  { cbn [dirs machine]. intros H%elem_of_singleton. discriminate H. }
  assert (path_join "/home/demo" ".prettierrc.json" ∉ dirs machine) as H2.
  { cbn [dirs machine]. intros H%elem_of_singleton. discriminate H. }
  pose proof (createPrettierConfig_copies "/tool" no_tools lazy "/home/demo"
                machine eq_refl H1 H2) as H.
  change (files machine !! PRETTIER_CONFIG "/tool") with (Some "{}") in H.
  destruct H as (Hr & Hf & _). split; [exact Hr|].
  fold r in Hf. rewrite Hf. apply lookup_insert_eq.
Defined.

Lemma createEslintConfig_typescript_witness :
  let r := Node.run no_tools lazy
             (createEslintConfig "/tool" "/home/demo" "TypeScript") machine in
  fst r = Returned tt /\
  files (snd r) !! path_join "/home/demo" ".eslintrc.json" = Some "{}".
Proof.
  intros r.
  destruct (createEslintConfig_typescript "/tool" no_tools lazy "/home/demo"
              machine "{}") as (Hr & Hf & _).
  - reflexivity.
  - cbn [dirs machine]. intros H%elem_of_singleton. discriminate H.
  - cbn [dirs machine]. intros H%elem_of_singleton. discriminate H.
  - reflexivity.
  - split; [exact Hr|]. fold r in Hf. rewrite Hf. apply lookup_insert_eq.
Defined.

Lemma createEslintConfig_javascript_witness :
  fst (Node.run (failing "npm install --save-dev eslint-config-airbnb") lazy
         (createEslintConfig "/tool" "/home/demo" "JavaScript") machine)
  = Threw (Error ("Command " ++ dq ++ "npm install --save-dev eslint-config-airbnb"
                  ++ dq ++ " failed with exit code 1")%string).
Proof.
  pose proof (createEslintConfig_javascript "/tool"
                (failing "npm install --save-dev eslint-config-airbnb") lazy
                "/home/demo" machine (ExitCode (Some 1%Z))
                (files machine) (dirs machine) eq_refl eq_refl) as H.
  cbn [succeeded is_zero Z.eqb] in H. apply H.
  - cbn [dirs machine]. intros H'%elem_of_singleton. discriminate H'.
  - cbn [dirs machine]. intros H'%elem_of_singleton. discriminate H'.
Defined.

Lemma setupGit_commands_witness :
  fst (Node.run no_tools lazy (setupGit "/tool" "/home/demo" true "demo") machine)
  = Returned tt.
Proof.
  destruct (setupGit_commands "/tool" no_tools lazy "/home/demo" "demo" machine
              "node_modules") as [Hr _].
  - reflexivity.
  - intros cmd args cwd fs. reflexivity.
  - cbn [dirs machine]. intros H%elem_of_singleton. discriminate H.
  - cbn [dirs machine]. intros H%elem_of_singleton. discriminate H.
  - reflexivity.
  - exact Hr.
Defined.

(** ** Runs that ask for allowed operations only *)

Import Policy.

Section allowed_runs.
Variable ok : op -> bool.
Variable exec :
  string -> list string -> string ->
  gmap string string * gset string ->
  proc_result * (gmap string string * gset string).
Variable sched : nat -> nat.

#[local] Abbreviation only := (Policy.only ok).
#[local] Abbreviation only_pending := (Policy.only_pending ok).
#[local] Abbreviation within := (Policy.within ok).

Lemma within_refl w : only_pending w -> within w w.
Proof. intros H. split; [done|]. exists []. by rewrite app_nil_r. Qed.

Lemma within_trans w1 w2 w3 : within w1 w2 -> within w2 w3 -> within w1 w3.
Proof.
  intros [_ (t1 & H1 & C1)] [Q (t2 & H2 & C2)]. split; [done|].
  exists (t1 ++ t2). split; [by rewrite H2, H1, app_assoc|].
  rewrite forallb_app. by rewrite C1, C2.
Qed.

Lemma within_log ev w :
  only_pending w -> event_ok ok ev = true -> within w (log ev w).
Proof.
  intros Q H. split; [done|]. exists [ev]. split; [done|].
  simpl. by rewrite H.
Qed.

Lemma within_same w w' :
  trace w' = trace w -> pending w' = pending w -> only_pending w ->
  within w w'.
Proof.
  intros Ht Hp Q. split; [unfold Policy.only_pending; by rewrite Hp|].
  exists []. by rewrite app_nil_r.
Qed.

Lemma perform_within o w :
  only_pending w -> within w (snd (perform exec o w)).
Proof.
  intros Q. apply within_same; [apply perform_trace|apply perform_pending|done].
Qed.

Lemma only_pending_add t w :
  only_pending w -> only_task ok t ->
  only_pending (set_pending (pending w ++ [t]) w).
Proof.
  intros Q H. unfold Policy.only_pending. simpl. apply Forall_app.
  split; [done|]. by constructor.
Qed.

Lemma start_within p w :
  only p -> only_pending w -> within w (snd (start exec p w)).
Proof.
  revert p w. fix IH 1. intros p w Hq Q.
  destruct p as [x|e|c| |o k|o k|p' k]; simpl in *.
  - by apply within_refl.
  - split; [by apply only_pending_add|]. exists []. by rewrite app_nil_r.
  - split; [by constructor|]. exists [Exit c]. by split.
  - by apply within_refl.
  - destruct Hq as [Ho Hk]. pose proof (perform_within o w Q) as Hp.
    destruct (perform exec o w) as [a w']. simpl in Hp.
    eapply within_trans; [apply Hp|].
    eapply within_trans; [apply (within_log (Did o a) w'); [apply Hp|done]|].
    apply IH; [apply Hk|apply Hp].
  - destruct Hq as [Ho Hk].
    split; [by apply (only_pending_add (Suspended o k) (log (Began o) w))|].
    exists [Began o]. split; [done|]. simpl. by rewrite Ho.
  - destruct Hq as [Hp' Hk]. pose proof (IH p' w Hp' Q) as H1.
    destruct (start exec p' w) as [[| | |] w']; try done.
    eapply within_trans; [apply H1|]. apply IH; [done|apply H1].
Qed.

Lemma check_rejections_within w :
  only_pending w -> within w (snd (check_rejections w)).
Proof.
  intros Q. unfold check_rejections.
  destruct (first_rejected (pending w)); simpl; [|by apply within_refl].
  split; [by constructor|]. eexists [_; _].
  split; [simpl; by rewrite <- app_assoc|done].
Qed.

Lemma advance_within w : only_pending w -> within w (snd (advance exec w)).
Proof.
  intros Q. unfold advance.
  destruct (pending w) as [|[o k|e] rest] eqn:Hpend; simpl;
    try by apply within_refl.
  assert (only_task ok (Suspended o k) /\ Forall (only_task ok) rest)
    as [[Ho Hk] Hrest].
  { unfold Policy.only_pending in Q. rewrite Hpend in Q.
    by apply Forall_cons in Q. }
  assert (within w (set_pending rest w)) as H0.
  { split; [done|]. exists []. by rewrite app_nil_r. }
  pose proof (perform_within o (set_pending rest w) Hrest) as Hp.
  destruct (perform exec o (set_pending rest w)) as [a w']. simpl in Hp.
  assert (within w (log (Ended o a) w')) as H1.
  { eapply within_trans; [apply H0|]. eapply within_trans; [apply Hp|].
    apply (within_log (Ended o a) w'); [apply Hp|done]. }
  pose proof (start_within (k a) (log (Ended o a) w') (Hk a) (proj1 H1)) as H2.
  destruct (start exec (k a) (log (Ended o a) w')) as [[| | |] w''];
    simpl in *; try (eapply within_trans; [apply H1|apply H2]).
  eapply within_trans; [apply H1|]. eapply within_trans; [apply H2|].
  apply check_rejections_within, H2.
Qed.

Lemma advance_n_within n w :
  only_pending w -> within w (snd (advance_n exec n w)).
Proof.
  revert w. induction n as [|n IH]; intros w Q; simpl; [by apply within_refl|].
  pose proof (advance_within w Q) as Ha.
  destruct (advance exec w) as [[| | |] w']; try done.
  eapply within_trans; [apply Ha|apply IH, Ha].
Qed.

Lemma suspend_within w :
  only_pending w -> within w (snd (suspend exec sched w)).
Proof.
  intros Q. unfold suspend. pose proof (check_rejections_within w Q) as Hc.
  destruct (check_rejections w) as [[| | |] w']; try done.
  simpl in Hc. eapply within_trans; [apply Hc|].
  eapply within_trans; [|apply advance_n_within].
  - apply within_same; [done|done|apply Hc].
  - apply Hc.
Qed.

(** A program that asks for allowed operations only adds allowed events
    only, however it ends and whatever the calls in flight do meanwhile. *)
Lemma run_within {A} (p : prog A) w :
  only p -> only_pending w -> within w (snd (run exec sched p w)).
Proof.
  revert w. induction p as [A x|A e|A c|A|A o k IH|A o k IH|A p' _ k IH];
    intros w Hq Q; simpl in *.
  - by apply within_refl.
  - by apply within_refl.
  - split; [by constructor|]. exists [Exit c]. by split.
  - by apply within_refl.
  - destruct Hq as [Ho Hk]. pose proof (perform_within o w Q) as Hp.
    destruct (perform exec o w) as [ans w']. simpl in Hp.
    eapply within_trans; [apply Hp|].
    eapply within_trans; [apply (within_log (Did o ans) w'); [apply Hp|done]|].
    apply IH; [apply Hk|apply Hp].
  - destruct Hq as [Ho Hk].
    assert (within w (log (Began o) w)) as H0 by by apply within_log.
    pose proof (suspend_within (log (Began o) w) (proj1 H0)) as Hs.
    destruct (suspend exec sched (log (Began o) w)) as [[| | |] w1];
      simpl in *; try (eapply within_trans; [apply H0|apply Hs]).
    pose proof (perform_within o w1 (proj1 Hs)) as Hp.
    destruct (perform exec o w1) as [ans w2]. simpl in Hp.
    eapply within_trans; [apply H0|]. eapply within_trans; [apply Hs|].
    eapply within_trans; [apply Hp|].
    eapply within_trans;
      [apply (within_log (Ended o ans) w2); [apply Hp|done]|].
    apply IH; [apply Hk|]. apply Hp.
  - destruct Hq as [Hp' Hk]. pose proof (start_within p' w Hp' Q) as H1.
    destruct (start exec p' w) as [[| | |] w']; simpl in *; try done.
    eapply within_trans; [apply H1|]. apply IH; [done|apply H1].
Qed.

(** The same until the process has ended: the calls that were not awaited
    are run to their end. *)
Lemma drain_within fuel w :
  only_pending w -> within w (snd (drain exec fuel w)).
Proof.
  revert w. induction fuel as [|fuel IH]; intros w Q; simpl;
    [by apply within_refl|].
  pose proof (check_rejections_within w Q) as Hc.
  destruct (check_rejections w) as [[| | |] w']; try done. simpl in Hc.
  destruct (pending w') as [|t ts] eqn:Hp; [done|].
  pose proof (advance_within w' (proj1 Hc)) as Ha.
  destruct (advance exec w') as [[| | |] w'']; simpl in *;
    try (eapply within_trans; [apply Hc|apply Ha]).
  eapply within_trans; [apply Hc|]. eapply within_trans; [apply Ha|].
  apply IH, Ha.
Qed.

Lemma run_to_end_within fuel p w :
  only p -> only_pending w -> within w (snd (run_to_end exec sched fuel p w)).
Proof.
  intros Hp Q. unfold run_to_end. pose proof (run_within p w Hp Q) as Hr.
  destruct (run exec sched p w) as [[| | |] w']; try done. simpl in Hr.
  eapply within_trans; [apply Hr|]. apply drain_within, Hr.
Qed.

Lemma only_bind {A B} (p : prog A) (f : A -> prog B) :
  only p -> (forall a, only (f a)) -> only (bind p f).
Proof.
  revert f. induction p as [A x|A e|A c|A|A o k IH|A o k IH|A p' _ k IH];
    intros f Hp Hf; simpl in *; auto.
  - destruct Hp as [Ho Hk]. split; [done|]. auto.
  - destruct Hp as [Ho Hk]. split; [done|]. auto.
  - destruct Hp as [Hp' Hk]. split; [done|]. auto.
Qed.

Lemma only_mbind {A B} (p : prog A) (f : A -> prog B) :
  only p -> (forall a, only (f a)) -> only (p ≫= f).
Proof. apply only_bind. Qed.

Lemma only_try_catch {A} (p : prog A) (h : error -> prog A) :
  only p -> (forall e, only (h e)) -> only (try_catch p h).
Proof.
  induction p as [A x|A e|A c|A|A o k IH|A o k IH|A p' _ k IH];
    intros Hp Hh; simpl in *; auto.
  - destruct Hp as [Ho Hk]. split; [done|]. auto.
  - destruct Hp as [Ho Hk]. split; [done|]. auto.
  - destruct Hp as [Hp' Hk]. split; [done|]. auto.
Qed.

Lemma only_as_unit a : only (as_unit a).
Proof. by destruct a. Qed.
Lemma only_as_bool a : only (as_bool a).
Proof. by destruct a. Qed.
Lemma only_as_text a : only (as_text a).
Proof. by destruct a. Qed.

Lemma only_console_log l : ok (ConsoleLog l) = true -> only (console_log l).
Proof. intros H. split; [done|]. intros a. apply only_as_unit. Qed.
Lemma only_console_error l :
  ok (ConsoleError l) = true -> only (console_error l).
Proof. intros H. split; [done|]. intros a. apply only_as_unit. Qed.
Lemma only_console_error_object e :
  ok (ConsoleErrorObject e) = true -> only (console_error_object e).
Proof. intros H. split; [done|]. intros a. apply only_as_unit. Qed.
Lemma only_existsSync p : ok (ExistsSync p) = true -> only (existsSync p).
Proof. intros H. split; [done|]. intros a. apply only_as_bool. Qed.
Lemma only_readFile p : ok (ReadFile p) = true -> only (readFile p).
Proof. intros H. split; [done|]. intros a. apply only_as_text. Qed.
Lemma only_writeFile p d : ok (WriteFile p d) = true -> only (writeFile p d).
Proof. intros H. split; [done|]. intros a. apply only_as_unit. Qed.
Lemma only_mkdir p r : ok (Mkdir p r) = true -> only (mkdir p r).
Proof. intros H. split; [done|]. intros a. apply only_as_unit. Qed.
Lemma only_JSON_parse t : only (JSON_parse t).
Proof. unfold JSON_parse. by destruct (JSON.parse t). Qed.
Lemma only_get_property v k : only (get_property v k).
Proof. by destruct v. Qed.
Lemma only_set_property v k x : only (set_property v k x).
Proof. by destruct v. Qed.

Lemma only_runCommand command cwd :
  ok (ConsoleLog command) = true ->
  (forall l, ok (ConsoleError l) = true) ->
  (forall e, ok (ConsoleErrorObject e) = true) ->
  (forall cmd args, tokenize command = cmd :: args ->
                    ok (Spawn cmd args cwd) = true) ->
  only (runCommand command cwd).
Proof.
  intros Hlog Herr Hobj Hspawn. unfold runCommand, printCommand.
  apply only_mbind; [by apply only_console_log|intros _].
  destruct (tokenize command) as [|cmd args]; [done|].
  split; [by apply Hspawn|]. intros [| | | |[code|e]]; try done.
  - destruct (is_zero code); [done|].
    apply only_mbind; [by apply only_console_error_object|done].
  - apply only_mbind; [by apply only_console_error|intros _].
    apply only_mbind; [by apply only_console_error_object|done].
Qed.

Lemma only_addScripts projectPath scripts :
  ok (ExistsSync (path_join projectPath "package.json")) = true ->
  ok (ReadFile (path_join projectPath "package.json")) = true ->
  (forall d, ok (WriteFile (path_join projectPath "package.json") d) = true) ->
  only (addScriptsToPackageJson projectPath scripts).
Proof.
  intros He Hr Hw. unfold addScriptsToPackageJson.
  apply only_mbind; [by apply only_existsSync|intros found].
  destruct (negb found); [done|].
  apply only_mbind; [by apply only_readFile|intros text].
  apply only_mbind; [apply only_JSON_parse|intros v].
  apply only_mbind; [apply only_get_property|intros old].
  apply only_mbind; [apply only_set_property|intros v1].
  apply only_mbind; [apply only_set_property|intros v2].
  by apply only_writeFile.
Qed.

Lemma only_modulePackageJson projectPath :
  ok (ExistsSync (path_join projectPath "package.json")) = true ->
  ok (ReadFile (path_join projectPath "package.json")) = true ->
  (forall d, ok (WriteFile (path_join projectPath "package.json") d) = true) ->
  only (Generator.modulePackageJson projectPath).
Proof.
  intros He Hr Hw. unfold Generator.modulePackageJson.
  apply only_mbind; [by apply only_existsSync|intros found].
  destruct (negb found); [done|].
  apply only_mbind; [by apply only_readFile|intros text].
  apply only_mbind; [apply only_JSON_parse|intros v].
  apply only_mbind; [apply only_set_property|intros v1].
  by apply only_writeFile.
Qed.

End allowed_runs.

(** ** The scripts stay in the project *)

Lemma prefix_refl s : String.prefix s s = true.
Proof.
  induction s as [|c s IH]; [done|]. simpl. by destruct (ascii_dec c c).
Qed.

Lemma prefix_app a b : String.prefix a (a ++ b) = true.
Proof.
  induction a as [|c a IH]; [by destruct b|]. simpl.
  by destruct (ascii_dec c c).
Qed.

Lemma prefix_trans a b c :
  String.prefix a b = true -> String.prefix b c = true ->
  String.prefix a c = true.
Proof.
  revert b c. induction a as [|x a IH]; intros b c; [by destruct c|].
  destruct b as [|y b]; [done|]. destruct c as [|z c]; simpl.
  { by destruct (ascii_dec x y). }
  destruct (ascii_dec x y) as [->|]; [|done].
  destruct (ascii_dec y z) as [->|]; [|done]. apply IH.
Qed.

Lemma prefix_path_join a b : String.prefix a (path_join a b) = true.
Proof. unfold path_join. destruct (ends_with_slash a); apply prefix_app. Qed.

Lemma prefix_path_join2 a b c :
  String.prefix a (path_join (path_join a b) c) = true.
Proof.
  eapply prefix_trans; [apply prefix_path_join|apply prefix_path_join].
Qed.

(** The side conditions of the three policies. *)
Ltac policy_side :=
  first
    [ reflexivity
    | solve [ cbn [confined];
              unfold TSCONFIG, ESLINT_CONFIG_JS, ESLINT_CONFIG_TS,
                PRETTIER_CONFIG, GITIGNORE;
              rewrite ?prefix_path_join, ?prefix_path_join2, ?prefix_refl,
                ?String.eqb_refl, ?orb_true_r;
              reflexivity ] ].

Ltac only_steps :=
  repeat
    lazymatch goal with
    | |- Policy.only _ (try_catch _ _) =>
        apply only_try_catch; [|intros ?]
    | |- Policy.only _ (runCommand _ _) =>
        apply only_runCommand;
        [ policy_side | intros ?; policy_side | intros ?; policy_side
        | let H := fresh in
          intros ? ? H; vm_compute in H; injection H as <- <-; policy_side ]
    | |- Policy.only _ (addScriptsToPackageJson _ _) =>
        apply only_addScripts; [policy_side|policy_side|intros ?; policy_side]
    | |- Policy.only _ (Generator.modulePackageJson _) =>
        apply only_modulePackageJson;
        [policy_side|policy_side|intros ?; policy_side]
    | |- Policy.only _ (console_log _) => apply only_console_log; policy_side
    | |- Policy.only _ (printOutput _) => apply only_console_log; policy_side
    | |- Policy.only _ (console_error _) =>
        apply only_console_error; policy_side
    | |- Policy.only _ (readFile _) => apply only_readFile; policy_side
    | |- Policy.only _ (writeFile _ _) => apply only_writeFile; policy_side
    | |- Policy.only _ (mkdir _ _) => apply only_mkdir; policy_side
    | |- Policy.only _ (Fork _ _) => split
    | |- Policy.only _ (Ret _) => exact I
    | |- Policy.only _ (Throw _) => exact I
    | |- Policy.only _ (ExitProcess _) => exact I
    | |- Policy.only _ (_ ≫= _) => apply only_mbind; [|intros ?]
    end.

Section confined_scripts.
Variable dirname : string.
Variable runtime_message : error -> string.
Variable cwd : string.

Lemma only_confined_createProject projectName type useTailwindcss useGit :
  Policy.only (confined dirname (path_resolve cwd projectName))
    (Generator.createProject dirname runtime_message cwd projectName type
       useTailwindcss useGit).
Proof.
  unfold Generator.createProject, Generator.createNpmProject,
    Generator.setupTypescript, Generator.setupTailwindcss,
    Generator.singleDevScript, createEslintConfig, createPrettierConfig,
    setupGit.
  set (root := path_resolve cwd projectName).
  destruct (String.eqb type "TypeScript"), (String.eqb type "JavaScript"),
    useTailwindcss, useGit; cbn [andb negb]; cbv beta iota zeta; only_steps.
Qed.

Lemma only_confined_legacy projectName type useGit :
  Policy.only (confined dirname (path_resolve cwd projectName))
    (Legacy.createProject dirname runtime_message cwd projectName type useGit).
Proof.
  unfold Legacy.createProject, Legacy.createNpmProject,
    Legacy.installTypescript, createEslintConfig, createPrettierConfig,
    setupGit.
  set (root := path_resolve cwd projectName).
  destruct (String.eqb type "TypeScript"), (String.eqb type "JavaScript"),
    useGit; cbv beta iota zeta; only_steps.
Qed.

(** The executables of the script with Tailwind support: npm always, npx
    with Tailwind, git with Git. *)
Lemma only_launches_createProject projectName type
    (useTailwindcss useGit : bool) :
  Policy.only
    (launches ("npm" :: (if useTailwindcss then ["npx"] else [])
                     ++ (if useGit then ["git"] else [])))
    (Generator.createProject dirname runtime_message cwd projectName type
       useTailwindcss useGit).
Proof.
  unfold Generator.createProject, Generator.createNpmProject,
    Generator.setupTypescript, Generator.setupTailwindcss,
    Generator.singleDevScript, createEslintConfig, createPrettierConfig,
    setupGit.
  set (root := path_resolve cwd projectName).
  destruct (String.eqb type "TypeScript"), (String.eqb type "JavaScript"),
    useTailwindcss, useGit; cbn [andb negb app]; cbv beta iota zeta;
    only_steps.
Qed.

Lemma only_launches_legacy projectName type (useGit : bool) :
  Policy.only (launches ("npm" :: (if useGit then ["git"] else [])))
    (Legacy.createProject dirname runtime_message cwd projectName type useGit).
Proof.
  unfold Legacy.createProject, Legacy.createNpmProject,
    Legacy.installTypescript, createEslintConfig, createPrettierConfig,
    setupGit.
  set (root := path_resolve cwd projectName).
  destruct (String.eqb type "TypeScript"), (String.eqb type "JavaScript"),
    useGit; cbv beta iota zeta; only_steps.
Qed.

End confined_scripts.

Lemma within_idle ok w w' :
  Policy.within ok w w' ->
  exists t, trace w' = trace w ++ t /\ forallb (event_ok ok) t = true.
Proof. by intros [_ H]. Qed.

(** X14: whatever the answers, the commands and the schedule, until the
    process ends both scripts stay in the project: every path they write,
    create or look for starts with the path of the project, every file they
    read is there or in the directory of the tool, and every command runs
    in the directory of the project. *)
Theorem scripts_stay_in_the_project
    exec sched fuel dirname runtime_message cwd projectName type
    useTailwindcss useGit w :
  let root := path_resolve cwd projectName in
  let r := run_to_end exec sched fuel
             (Generator.createProject dirname runtime_message cwd projectName
                type useTailwindcss useGit) w in
  let r' := run_to_end exec sched fuel
              (Legacy.createProject dirname runtime_message cwd projectName
                 type useGit) w in
  pending w = [] ->
  (exists t, trace (snd r) = trace w ++ t /\
             forallb (event_ok (confined dirname root)) t = true) /\
  (exists t, trace (snd r') = trace w ++ t /\
             forallb (event_ok (confined dirname root)) t = true).
Proof.
  intros root r r' Hp. split; apply within_idle, run_to_end_within.
  - apply only_confined_createProject.
  - unfold Policy.only_pending. by rewrite Hp.
  - apply only_confined_legacy.
  - unfold Policy.only_pending. by rewrite Hp.
Qed.

(** X15: whatever the answers, the commands and the schedule, until the
    process ends the script with Tailwind support launches no executable
    but npm, npx when Tailwind was asked for and git when Git was asked
    for; the legacy script launches no executable but npm and, when Git
    was asked for, git. *)
Theorem scripts_launch_known_executables
    exec sched fuel dirname runtime_message cwd projectName type
    (useTailwindcss useGit : bool) w :
  let r := run_to_end exec sched fuel
             (Generator.createProject dirname runtime_message cwd projectName
                type useTailwindcss useGit) w in
  let r' := run_to_end exec sched fuel
              (Legacy.createProject dirname runtime_message cwd projectName
                 type useGit) w in
  pending w = [] ->
  (exists t, trace (snd r) = trace w ++ t /\
             forallb (event_ok
                        (launches ("npm" :: (if useTailwindcss then ["npx"] else [])
                                         ++ (if useGit then ["git"] else []))))
                     t = true) /\
  (exists t, trace (snd r') = trace w ++ t /\
             forallb (event_ok
                        (launches ("npm" :: (if useGit then ["git"] else []))))
                     t = true).
Proof.
  intros r r' Hp. split; apply within_idle, run_to_end_within.
  - apply only_launches_createProject.
  - unfold Policy.only_pending. by rewrite Hp.
  - apply only_launches_legacy.
  - unfold Policy.only_pending. by rewrite Hp.
Qed.

Lemma scripts_stay_in_the_project_witness :
  exists t,
    trace (snd (run_to_end toolchain eager 8
                  (Generator.createProject "/tool" Fixture.runtime_message
                     "/home" "demo" "JavaScript" true true) machine))
    = trace machine ++ t /\
    forallb (event_ok (confined "/tool" (path_resolve "/home" "demo"))) t = true.
Proof.
  exact (proj1 (scripts_stay_in_the_project toolchain eager 8 "/tool"
                  Fixture.runtime_message "/home" "demo" "JavaScript" true true
                  machine eq_refl)).
Defined.

Lemma scripts_launch_known_executables_witness :
  exists t,
    trace (snd (run_to_end toolchain eager 8
                  (Generator.createProject "/tool" Fixture.runtime_message
                     "/home" "demo" "JavaScript" false false) machine))
    = trace machine ++ t /\
    forallb (event_ok (launches ["npm"])) t = true.
Proof.
  exact (proj1 (scripts_launch_known_executables toolchain eager 8 "/tool"
                  Fixture.runtime_message "/home" "demo" "JavaScript" false false
                  machine eq_refl)).
Defined.

(** ** The pipeline as a whole *)

Section pipeline.
Variable dirname : string.
Variable runtime_message : error -> string.
Variable cwd : string.
Variable exec :
  string -> list string -> string ->
  gmap string string * gset string ->
  proc_result * (gmap string string * gset string).
Variable sched : nat -> nat.

#[local] Abbreviation run := (Node.run exec sched).

(** A sequence returns only if its first part returned. *)
Lemma run_mbind_Returned {A B} (p : prog A) (f : A -> prog B) w b :
  fst (run (p ≫= f) w) = Returned b ->
  exists a w1, run p w = (Returned a, w1) /\ fst (run (f a) w1) = Returned b.
Proof.
  rewrite run_mbind. destruct (run p w) as [[a|e|c|] w1]; try done.
  intros H. by exists a, w1.
Qed.

Lemma run_try_catch_Returned {A} (p : prog A) prefix w a :
  fst (run (try_catch p (fun error =>
              console_error (prefix ++ message runtime_message error);;
              ExitProcess 1)) w) = Returned a ->
  fst (run p w) = Returned a.
Proof.
  rewrite run_try_catch. destruct (run p w) as [[x|e|c|] w1]; try done.
Qed.

(** X16: the project type is checked late.  With a type that is neither
    JavaScript nor TypeScript neither script ever returns normally, and yet
    the directory of the project is created and npm init is launched in it
    before anything is refused. *)
Theorem unknown_type_is_refused_late
    projectName type useTailwindcss useGit w :
  let root := path_resolve cwd projectName in
  let r := run (Generator.createProject dirname runtime_message cwd
                  projectName type useTailwindcss useGit) w in
  let r' := run (Legacy.createProject dirname runtime_message cwd
                   projectName type useGit) w in
  let begun :=
    [Began (Mkdir root false); Ended (Mkdir root false) AUnit;
     Did (ConsoleLog "npm init -y") AUnit;
     Began (Spawn "npm" ["init"; "-y"] root)] in
  type <> "JavaScript" -> type <> "TypeScript" ->
  pending w = [] ->
  exists_path w root = false ->
  (fst r <> Returned tt /\ exists more, trace (snd r) = trace w ++ begun ++ more)
  /\
  (fst r' <> Returned tt /\ exists more, trace (snd r') = trace w ++ begun ++ more).
Proof.
  intros root r r' begun Hjs Hts Hp Hfresh. subst r r'. split; split.
  - intros H. unfold Generator.createProject in H.
    apply run_try_catch_Returned in H. fold root in H.
    apply run_mbind_Returned in H as (? & w1 & _ & H).
    apply run_mbind_Returned in H as (? & w2 & _ & H).
    apply run_mbind_Returned in H as (? & w3 & _ & H).
    apply run_mbind_Returned in H as (? & w4 & _ & H).
    apply run_mbind_Returned in H as (? & w5 & _ & H).
    apply run_mbind_Returned in H as (? & w6 & H & _).
    by rewrite createEslintConfig_invalid_type in H.
  - unfold Generator.createProject. fold root.
    eapply extends_from; cycle 1.
    + eapply extends_trans; [|apply try_catch_extends].
      rewrite run_mbind, run_mkdir by done. cbv zeta. rewrite Hfresh.
      eapply extends_trans; [|apply mbind_extends].
      unfold Generator.createNpmProject.
      eapply extends_trans; [|apply try_catch_extends].
      eapply extends_trans; [|apply mbind_extends].
      unfold runCommand, printCommand. rewrite run_mbind.
      cbn [console_log Node.run perform as_unit].
      change (tokenize "npm init -y") with ["npm"; "init"; "-y"].
      apply run_Await_began.
    + cbn [trace log tick set_dirs]. rewrite <- !app_assoc. reflexivity.
  - intros H. unfold Legacy.createProject in H.
    apply run_try_catch_Returned in H. fold root in H.
    apply run_mbind_Returned in H as (? & w1 & _ & H).
    apply run_mbind_Returned in H as (? & w2 & _ & H).
    apply run_mbind_Returned in H as (? & w3 & _ & H).
    apply run_mbind_Returned in H as (? & w4 & H & _).
    by rewrite createEslintConfig_invalid_type in H.
  - unfold Legacy.createProject. fold root.
    eapply extends_from; cycle 1.
    + eapply extends_trans; [|apply try_catch_extends].
      rewrite run_mbind, run_mkdir by done. cbv zeta. rewrite Hfresh.
      eapply extends_trans; [|apply mbind_extends].
      unfold Legacy.createNpmProject.
      eapply extends_trans; [|apply try_catch_extends].
      eapply extends_trans; [|apply mbind_extends].
      unfold runCommand, printCommand. rewrite run_mbind.
      cbn [console_log Node.run perform as_unit].
      change (tokenize "npm init -y") with ["npm"; "init"; "-y"].
      apply run_Await_began.
    + cbn [trace log tick set_dirs]. rewrite <- !app_assoc. reflexivity.
Qed.

End pipeline.

Lemma unknown_type_is_refused_late_witness :
  let r := Node.run toolchain lazy
             (Generator.createProject "/tool" Fixture.runtime_message "/home"
                "demo" "CoffeeScript" false false) machine in
  fst r <> Returned tt /\
  exists more,
    trace (snd r)
    = trace machine
      ++ [Began (Mkdir (path_resolve "/home" "demo") false);
          Ended (Mkdir (path_resolve "/home" "demo") false) AUnit;
          Did (ConsoleLog "npm init -y") AUnit;
          Began (Spawn "npm" ["init"; "-y"] (path_resolve "/home" "demo"))]
      ++ more.
Proof.
  apply (unknown_type_is_refused_late "/tool" Fixture.runtime_message "/home"
           toolchain lazy "demo" "CoffeeScript" false false machine).
  - discriminate.
  - discriminate.
  - reflexivity.
  - reflexivity.
Defined.

Section module_type.
Variable dirname : string.
Variable runtime_message : error -> string.
Variable cwd : string.
Variable exec :
  string -> list string -> string ->
  gmap string string * gset string ->
  proc_result * (gmap string string * gset string).
Variable sched : nat -> nat.

#[local] Abbreviation run := (Node.run exec sched).

(** X17: the script with Tailwind support sets the manifest field type to
    module for every project type, TypeScript included: when the two npm
    commands of [createNpmProject] have succeeded and left a manifest that
    holds an object, the next thing the run does is to store that object
    with type set to module, before any script is merged. *)
Theorem module_type_is_set_for_every_type
    projectName type useTailwindcss useGit w fs1 fs2 text o :
  let projectPath := path_resolve cwd projectName in
  let manifest := path_join projectPath "package.json" in
  let install :=
    "npm install --save-dev eslint prettier eslint-config-prettier eslint-config-airbnb eslint-plugin-import" in
  let install_args :=
    ["install"; "--save-dev"; "eslint"; "prettier"; "eslint-config-prettier";
     "eslint-config-airbnb"; "eslint-plugin-import"] in
  let done := AProc (ExitCode (Some 0%Z)) in
  let new := JSON.stringify (JObj (obj_set o "type" (JStr "module"))) in
  let r := run (Generator.createProject dirname runtime_message cwd
                  projectName type useTailwindcss useGit) w in
  pending w = [] ->
  exists_path w projectPath = false ->
  exec "npm" ["init"; "-y"] projectPath (files w, {[projectPath]} ∪ dirs w)
  = (ExitCode (Some 0%Z), fs1) ->
  exec "npm" install_args projectPath fs1 = (ExitCode (Some 0%Z), fs2) ->
  manifest ∉ snd fs2 ->
  fst fs2 !! manifest = Some text ->
  JSON.parse text = JSON.Parsed (JObj o) ->
  exists more,
    trace (snd r) =
    trace w ++
    [Began (Mkdir projectPath false);
     Ended (Mkdir projectPath false) AUnit;
     Did (ConsoleLog "npm init -y") AUnit;
     Began (Spawn "npm" ["init"; "-y"] projectPath);
     Ended (Spawn "npm" ["init"; "-y"] projectPath) done;
     Did (ConsoleLog install) AUnit;
     Began (Spawn "npm" install_args projectPath);
     Ended (Spawn "npm" install_args projectPath) done;
     Did (ExistsSync manifest) (ABool true);
     Began (ReadFile manifest);
     Ended (ReadFile manifest) (AText text);
     Began (WriteFile manifest new);
     Ended (WriteFile manifest new) AUnit] ++ more.
Proof.
  intros projectPath manifest install install_args done new r
    Hp Hfresh Hinit Hinstall Hnd Hf Hparse.
  destruct fs1 as [f1 d1], fs2 as [f2 d2]. simpl in Hnd, Hf.
  subst r. unfold Generator.createProject. fold projectPath.
  eapply extends_from; cycle 1.
  - eapply extends_trans; [|apply try_catch_extends].
    rewrite run_mbind, run_mkdir by done. cbv zeta. rewrite Hfresh.
    eapply extends_trans; [|apply mbind_extends].
    unfold Generator.createNpmProject.
    eapply extends_trans; [|apply try_catch_extends].
    rewrite run_mbind.
    rewrite (run_runCommand_ok exec sched "npm init -y" "npm" ["init"; "-y"]
               projectPath _ f1 d1);
      [|done|by vm_compute|exact Hinit].
    rewrite run_mbind.
    rewrite (run_runCommand_ok exec sched install "npm" install_args
               projectPath _ f2 d2);
      [|done|by vm_compute|exact Hinstall].
    rewrite run_mbind.
    rewrite (run_modulePackageJson_obj exec sched projectPath _ text o);
      [|done|done|done|done].
    apply run_extends.
  - cbn [trace log tick set_files set_dirs]. rewrite <- !app_assoc.
    reflexivity.
Qed.

End module_type.

Lemma module_type_is_set_for_every_type_witness :
  let r := Node.run toolchain lazy
             (Generator.createProject "/tool" Fixture.runtime_message "/home"
                "demo" "TypeScript" false false) machine in
  fst r = Returned tt /\
  field (manifest_at (snd r) "/home/demo/package.json") "type"
  = Some (JStr "module") /\
  exists more,
    trace (snd r) =
    [Began (Mkdir "/home/demo" false);
     Ended (Mkdir "/home/demo" false) AUnit;
     Did (ConsoleLog "npm init -y") AUnit;
     Began (Spawn "npm" ["init"; "-y"] "/home/demo");
     Ended (Spawn "npm" ["init"; "-y"] "/home/demo") (AProc (ExitCode (Some 0%Z)));
     Did (ConsoleLog
            "npm install --save-dev eslint prettier eslint-config-prettier eslint-config-airbnb eslint-plugin-import")
         AUnit;
     Began (Spawn "npm"
              ["install"; "--save-dev"; "eslint"; "prettier";
               "eslint-config-prettier"; "eslint-config-airbnb";
               "eslint-plugin-import"] "/home/demo");
     Ended (Spawn "npm"
              ["install"; "--save-dev"; "eslint"; "prettier";
               "eslint-config-prettier"; "eslint-config-airbnb";
               "eslint-plugin-import"] "/home/demo")
           (AProc (ExitCode (Some 0%Z)));
     Did (ExistsSync "/home/demo/package.json") (ABool true);
     Began (ReadFile "/home/demo/package.json");
     Ended (ReadFile "/home/demo/package.json")
           (AText (JSON.stringify npm_manifest));
     Began (WriteFile "/home/demo/package.json"
              (JSON.stringify
                 (JObj (obj_set [("name", JStr "demo"); ("version", JStr "1.0.0");
                                 ("scripts", JObj [("test", JStr "echo no test")])]
                          "type" (JStr "module")))));
     Ended (WriteFile "/home/demo/package.json"
              (JSON.stringify
                 (JObj (obj_set [("name", JStr "demo"); ("version", JStr "1.0.0");
                                 ("scripts", JObj [("test", JStr "echo no test")])]
                          "type" (JStr "module"))))) AUnit] ++ more.
Proof.
  intros r. split; [vm_compute; reflexivity|]. split; [vm_compute; reflexivity|].
  apply (module_type_is_set_for_every_type "/tool" Fixture.runtime_message
           "/home" toolchain lazy "demo" "TypeScript" false false machine
           (<["/home/demo/package.json" := JSON.stringify npm_manifest]>
              (files machine), {["/home/demo"]} ∪ dirs machine)
           (<["/home/demo/package.json" := JSON.stringify npm_manifest]>
              (files machine), {["/home/demo"]} ∪ dirs machine)
           (JSON.stringify npm_manifest)
           [("name", JStr "demo"); ("version", JStr "1.0.0");
            ("scripts", JObj [("test", JStr "echo no test")])]).
  - reflexivity.
  - reflexivity.
  - reflexivity.
  - reflexivity.
  - cbn [snd dirs machine]. intros H. apply elem_of_union in H as [H|H];
      apply elem_of_singleton in H; discriminate H.
  - reflexivity.
  - vm_compute. reflexivity.
Defined.

(** ** Calls that are awaited *)

Lemma awaits_all_console_log l : awaits_all (console_log l).
Proof. intros a. apply awaits_all_as_unit. Qed.
Lemma awaits_all_console_error l : awaits_all (console_error l).
Proof. intros a. apply awaits_all_as_unit. Qed.
Lemma awaits_all_console_error_object e : awaits_all (console_error_object e).
Proof. intros a. apply awaits_all_as_unit. Qed.
Lemma awaits_all_readFile p : awaits_all (readFile p).
Proof. intros a. apply awaits_all_as_text. Qed.
Lemma awaits_all_writeFile p d : awaits_all (writeFile p d).
Proof. intros a. apply awaits_all_as_unit. Qed.
Lemma awaits_all_mkdir p r : awaits_all (mkdir p r).
Proof. intros a. apply awaits_all_as_unit. Qed.

Lemma awaits_all_runCommand command cwd : awaits_all (runCommand command cwd).
Proof.
  unfold runCommand, printCommand.
  apply awaits_all_mbind; [apply awaits_all_console_log|intros _].
  destruct (tokenize command) as [|cmd args]; [done|].
  intros [| | | |[code|e]]; try done.
  - destruct (is_zero code); [done|].
    apply awaits_all_mbind; [apply awaits_all_console_error_object|done].
  - apply awaits_all_mbind; [apply awaits_all_console_error|intros _].
    apply awaits_all_mbind; [apply awaits_all_console_error_object|done].
Qed.

Lemma awaits_all_modulePackageJson projectPath :
  awaits_all (Generator.modulePackageJson projectPath).
Proof.
  unfold Generator.modulePackageJson.
  apply awaits_all_mbind; [intros a; apply awaits_all_as_bool|].
  intros []; simpl; [|done].
  intros a. destruct a as [| |text| |]; simpl; try done.
  unfold JSON_parse. destruct (JSON.parse text) as [v| |]; simpl; try done.
  destruct v as [|b|n|s|l|o]; simpl; try done; intros a; apply awaits_all_as_unit.
Qed.

Ltac awaits_steps :=
  repeat
    lazymatch goal with
    | |- awaits_all (try_catch _ _) => apply awaits_all_try_catch; [|intros ?]
    | |- awaits_all (runCommand _ _) => apply awaits_all_runCommand
    | |- awaits_all (addScriptsToPackageJson _ _) => apply awaits_all_addScripts
    | |- awaits_all (Generator.modulePackageJson _) =>
        apply awaits_all_modulePackageJson
    | |- awaits_all (console_log _) => apply awaits_all_console_log
    | |- awaits_all (printOutput _) => apply awaits_all_console_log
    | |- awaits_all (console_error _) => apply awaits_all_console_error
    | |- awaits_all (readFile _) => apply awaits_all_readFile
    | |- awaits_all (writeFile _ _) => apply awaits_all_writeFile
    | |- awaits_all (mkdir _ _) => apply awaits_all_mkdir
    | |- awaits_all (Ret _) => exact I
    | |- awaits_all (Throw _) => exact I
    | |- awaits_all (ExitProcess _) => exact I
    | |- awaits_all (_ ≫= _) => apply awaits_all_mbind; [|intros ?]
    end.

Section awaited.
Variable dirname : string.
Variable runtime_message : error -> string.
Variable cwd : string.

Lemma awaits_all_createProject projectName type useTailwindcss useGit :
  (useTailwindcss = true -> type = "TypeScript") ->
  awaits_all (Generator.createProject dirname runtime_message cwd projectName
                type useTailwindcss useGit).
Proof.
  intros H.
  unfold Generator.createProject, Generator.createNpmProject,
    Generator.setupTypescript, Generator.setupTailwindcss,
    Generator.singleDevScript, createEslintConfig, createPrettierConfig,
    setupGit.
  destruct useTailwindcss.
  - rewrite (H eq_refl).
    destruct useGit; cbn [String.eqb Ascii.eqb Bool.eqb andb negb];
      cbv beta iota zeta; awaits_steps.
  - destruct (String.eqb type "TypeScript"), (String.eqb type "JavaScript"),
      useGit; cbn [andb negb]; cbv beta iota zeta; awaits_steps.
Qed.

Lemma awaits_all_legacy projectName type useGit :
  awaits_all (Legacy.createProject dirname runtime_message cwd projectName
                type useGit).
Proof.
  unfold Legacy.createProject, Legacy.createNpmProject,
    Legacy.installTypescript, createEslintConfig, createPrettierConfig,
    setupGit.
  destruct (String.eqb type "TypeScript"), (String.eqb type "JavaScript"),
    useGit; cbv beta iota zeta; awaits_steps.
Qed.

End awaited.

Section idle_runs.
Variable exec :
  string -> list string -> string ->
  gmap string string * gset string ->
  proc_result * (gmap string string * gset string).
Variable sched : nat -> nat.

#[local] Abbreviation run := (Node.run exec sched).

(** A program that awaits every call leaves no call in flight, and no
    rejection is ever left without a handler. *)
Lemma run_awaited {A} (p : prog A) w :
  awaits_all p -> pending w = [] ->
  pending (snd (run p w)) = [] /\
  exists t, trace (snd (run p w)) = trace w ++ t /\
            forallb (fun ev => negb (is_crash ev)) t = true.
Proof.
  revert w. induction p as [A x|A e|A c|A|A o k IH|A o k IH|A p' _ k IH];
    intros w Ha Hp.
  - split; [done|]. exists []. by rewrite app_nil_r.
  - split; [done|]. exists []. by rewrite app_nil_r.
  - split; [done|]. by exists [Exit c].
  - split; [done|]. exists []. by rewrite app_nil_r.
  - cbn [Node.run].
    pose proof (perform_pending exec o w) as Hq.
    pose proof (perform_trace exec o w) as Ht.
    destruct (Node.perform exec o w) as [ans w1]. simpl in Hq, Ht.
    destruct (IH ans (log (Did o ans) w1) (Ha ans)) as (Hq' & t & Ht' & Hc).
    { simpl. by rewrite Hq. }
    split; [done|]. exists (Did o ans :: t). split; [|done].
    rewrite Ht'. cbn [trace log]. by rewrite Ht, <- app_assoc.
  - rewrite run_Await_idle by done.
    pose proof (perform_pending exec o (tick (log (Began o) w))) as Hq.
    pose proof (perform_trace exec o (tick (log (Began o) w))) as Ht.
    destruct (Node.perform exec o (tick (log (Began o) w))) as [ans w1].
    simpl in Hq, Ht.
    destruct (IH ans (log (Ended o ans) w1) (Ha ans)) as (Hq' & t & Ht' & Hc).
    { simpl. by rewrite Hq. }
    split; [done|]. exists (Began o :: Ended o ans :: t). split; [|done].
    rewrite Ht'. cbn [trace log]. by rewrite Ht, <- !app_assoc.
  - destruct Ha.
Qed.

(** X18: the only call that is not awaited is the merge of the css script,
    made for Tailwind without TypeScript.  In every other configuration of
    the script with Tailwind support, and always in the legacy script, the
    run leaves no call in flight when it ends and no rejection ever goes
    without a handler. *)
Theorem every_other_call_is_awaited
    dirname runtime_message cwd projectName type (useTailwindcss useGit : bool) w :
  let r := run (Generator.createProject dirname runtime_message cwd
                  projectName type useTailwindcss useGit) w in
  let r' := run (Legacy.createProject dirname runtime_message cwd
                   projectName type useGit) w in
  pending w = [] ->
  ((useTailwindcss = true -> type = "TypeScript") ->
   pending (snd r) = [] /\
   exists t, trace (snd r) = trace w ++ t /\
             forallb (fun ev => negb (is_crash ev)) t = true) /\
  (pending (snd r') = [] /\
   exists t, trace (snd r') = trace w ++ t /\
             forallb (fun ev => negb (is_crash ev)) t = true).
Proof.
  intros r r' Hp. split.
  - intros H. apply run_awaited; [by apply awaits_all_createProject|done].
  - apply run_awaited; [apply awaits_all_legacy|done].
Qed.

End idle_runs.

Lemma every_other_call_is_awaited_witness :
  pending (snd (Node.run toolchain eager
                  (Generator.createProject "/tool" Fixture.runtime_message
                     "/home" "demo" "TypeScript" true true) machine)) = [].
Proof.
  destruct (every_other_call_is_awaited toolchain eager "/tool"
              Fixture.runtime_message "/home" "demo" "TypeScript" true true
              machine eq_refl) as [H _].
  exact (proj1 (H (fun _ => eq_refl))).
Defined.

(** ** The message of success *)

Section announced.
Variable exec :
  string -> list string -> string ->
  gmap string string * gset string ->
  proc_result * (gmap string string * gset string).
Variable sched : nat -> nat.
Variable line : string.

#[local] Abbreviation run := (Node.run exec sched).
#[local] Abbreviation quiet_about := (Policy.only (never_prints line)).
#[local] Abbreviation announces := (Policy.announces exec sched line).

Lemma announces_print : announces (printOutput line).
Proof.
  intros w Q. split; [done|]. exists [Did (ConsoleLog line) AUnit].
  split; [done|]. by exists [].
Qed.

Lemma announces_mbind {A B} (p : prog A) (f : A -> prog B) :
  quiet_about p -> (forall a, announces (f a)) -> announces (p ≫= f).
Proof.
  intros Hp Hf w Q. rewrite run_mbind.
  destruct (run_within (never_prints line) exec sched p w Hp Q)
    as (Q1 & t1 & Ht1 & C1).
  destruct (run p w) as [[a|e|c|] w1]; simpl in *;
    try (split; [done|]; by exists t1).
  destruct (Hf a w1 Q1) as (Q2 & t2 & Ht2 & C2).
  split; [done|]. exists (t1 ++ t2).
  split; [by rewrite Ht2, Ht1, app_assoc|].
  destruct (fst (run (f a) w1)).
  - destruct C2 as (t0 & -> & C0). exists (t1 ++ t0).
    split; [by rewrite app_assoc|]. by rewrite forallb_app, C1, C0.
  - by rewrite forallb_app, C1, C2.
  - by rewrite forallb_app, C1, C2.
  - by rewrite forallb_app, C1, C2.
Qed.

Lemma announces_try_catch {A} (p : prog A) runtime_message prefix :
  announces p ->
  announces (try_catch p (fun error =>
               console_error (prefix ++ message runtime_message error);;
               ExitProcess 1)).
Proof.
  intros Hp w Q. rewrite run_try_catch.
  destruct (Hp w Q) as (Q1 & t1 & Ht1 & C1).
  destruct (run p w) as [[a|e|c|] w1]; simpl in *;
    try (split; [done|]; by exists t1).
  split; [by constructor|].
  exists (t1 ++ [Did (ConsoleError (prefix ++ message runtime_message e)) AUnit;
                 Exit 1]).
  split; [by rewrite Ht1, <- !app_assoc|].
  by rewrite forallb_app, C1.
Qed.

End announced.

Section announced_scripts.
Variable dirname : string.
Variable runtime_message : error -> string.
Variable cwd : string.
Variable exec :
  string -> list string -> string ->
  gmap string string * gset string ->
  proc_result * (gmap string string * gset string).
Variable sched : nat -> nat.

Lemma announces_setupGit projectPath useGit projectName :
  Policy.announces exec sched ("Project " ++ projectName ++ " has been created")
    (setupGit dirname projectPath useGit projectName).
Proof.
  unfold setupGit. apply announces_mbind; [|intros ?; apply announces_print].
  destruct useGit; only_steps.
Qed.

Lemma announces_createProject projectName type useTailwindcss useGit :
  Policy.announces exec sched ("Project " ++ projectName ++ " has been created")
    (Generator.createProject dirname runtime_message cwd projectName type
       useTailwindcss useGit).
Proof.
  unfold Generator.createProject.
  set (root := path_resolve cwd projectName).
  apply announces_try_catch.
  apply announces_mbind; [only_steps|intros ?].
  apply announces_mbind;
    [unfold Generator.createNpmProject; only_steps|intros ?].
  apply announces_mbind;
    [destruct (String.eqb type "TypeScript" && useTailwindcss); only_steps
    |intros ?].
  apply announces_mbind;
    [destruct (String.eqb type "TypeScript");
     [unfold Generator.setupTypescript;
      destruct (Generator.singleDevScript type useTailwindcss)|];
     only_steps
    |intros ?].
  apply announces_mbind;
    [destruct useTailwindcss;
     [unfold Generator.setupTailwindcss;
      destruct (Generator.singleDevScript type true),
        (String.eqb type "TypeScript"); cbv beta iota zeta|];
     only_steps
    |intros ?].
  apply announces_mbind;
    [unfold createEslintConfig;
     destruct (String.eqb type "JavaScript"), (String.eqb type "TypeScript");
     only_steps
    |intros ?].
  apply announces_mbind; [unfold createPrettierConfig; only_steps|intros ?].
  apply announces_setupGit.
Qed.

Lemma announces_legacy projectName type useGit :
  Policy.announces exec sched ("Project " ++ projectName ++ " has been created")
    (Legacy.createProject dirname runtime_message cwd projectName type useGit).
Proof.
  unfold Legacy.createProject.
  set (root := path_resolve cwd projectName).
  apply announces_try_catch.
  apply announces_mbind; [only_steps|intros ?].
  apply announces_mbind; [unfold Legacy.createNpmProject; only_steps|intros ?].
  apply announces_mbind;
    [destruct (String.eqb type "TypeScript");
     [unfold Legacy.installTypescript|]; only_steps
    |intros ?].
  apply announces_mbind;
    [unfold createEslintConfig;
     destruct (String.eqb type "JavaScript"), (String.eqb type "TypeScript");
     only_steps
    |intros ?].
  apply announces_mbind; [unfold createPrettierConfig; only_steps|intros ?].
  apply announces_setupGit.
Qed.

Lemma announces_said {A} line (p : prog A) w :
  Policy.announces exec sched line p ->
  pending w = [] ->
  exists t,
    trace (snd (Node.run exec sched p w)) = trace w ++ t /\
    (forall a, fst (Node.run exec sched p w) = Returned a ->
       exists t0, t = t0 ++ [Did (ConsoleLog line) AUnit] /\
                  Did (ConsoleLog line) AUnit ∉ t0) /\
    ((forall a, fst (Node.run exec sched p w) <> Returned a) ->
       Did (ConsoleLog line) AUnit ∉ t).
Proof.
  intros Hp Hw.
  assert (forall t, forallb (event_ok (never_prints line)) t = true ->
                    Did (ConsoleLog line) AUnit ∉ t) as Hnot.
  { intros t Ht Hin. rewrite forallb_forall in Ht.
    apply list_elem_of_In in Hin. specialize (Ht _ Hin). simpl in Ht.
    by rewrite String.eqb_refl in Ht. }
  destruct (Hp w) as (_ & t & Ht & C).
  { unfold Policy.only_pending. by rewrite Hw. }
  exists t. split; [done|]. split.
  - intros a Ha. rewrite Ha in C. destruct C as (t0 & -> & C0).
    exists t0. split; [done|]. by apply Hnot.
  - intros Hne. apply Hnot.
    destruct (fst (Node.run exec sched p w)) as [a| | |]; try done.
    by destruct (Hne a).
Qed.


End announced_scripts.


(** ** The merge that is not awaited *)

Section not_awaited.
Variable exec :
  string -> list string -> string ->
  gmap string string * gset string ->
  proc_result * (gmap string string * gset string).
Variable sched : nat -> nat.

#[local] Abbreviation run := (Node.run exec sched).

(** A step that awaits its calls and returns leaves no call in flight and
    only adds to the trace. *)
Lemma step_awaited {A} (p : prog A) w a w1 :
  awaits_all p -> pending w = [] -> run p w = (Returned a, w1) ->
  pending w1 = [] /\ extends w w1.
Proof.
  intros Ha Hp Hr. pose proof (run_awaited exec sched p w Ha Hp) as [Hq _].
  pose proof (run_extends exec sched p w) as He.
  rewrite Hr in Hq, He. done.
Qed.

(** The merge, called and not awaited, runs up to its read. *)
Lemma start_addScripts projectPath scripts w :
  let path := path_join projectPath "package.json" in
  if exists_path w path
  then exists k,
         start exec (addScriptsToPackageJson projectPath scripts) w =
         (Returned tt,
          set_pending (pending w ++ [Suspended (ReadFile path) k])
            (log (Began (ReadFile path))
               (log (Did (ExistsSync path) (ABool true)) w)))
  else start exec (addScriptsToPackageJson projectPath scripts) w =
       (Returned tt,
        set_pending
          (pending w ++ [Rejected (Error ("File not found: " ++ path))])
          (log (Did (ExistsSync path) (ABool false)) w)).
Proof.
  intros path. unfold addScriptsToPackageJson. fold path.
  cbn [existsSync mbind prog_bind bind start perform as_bool].
  destruct (exists_path w path); cbn [as_bool bind negb];
    [eexists; reflexivity|reflexivity].
Qed.

Lemma run_Fork_alone (p' : prog unit) w :
  run (Fork p' (Ret tt)) w =
  match start exec p' w with
  | (Returned _, w') => (Returned tt, w')
  | (r, w') => (not_returned r, w')
  end.
Proof. simpl. by destruct (start exec p' w) as [[| | |] w']. Qed.

(** A command that is run while a rejection has no handler: the process
    ends when the command is awaited. *)
Lemma runCommand_crashes command cwd w cmd args e :
  tokenize command = cmd :: args ->
  first_rejected (pending w) = Some e ->
  fst (run (runCommand command cwd) w) = Exited 1.
Proof.
  intros Htok Hrej. unfold runCommand, printCommand. rewrite run_mbind.
  cbn [console_log Node.run perform as_unit]. rewrite Htok.
  cbn [Node.run]. unfold suspend, check_rejections.
  cbn [pending log]. by rewrite Hrej.
Qed.

(** X20: for Tailwind without TypeScript the merge of the css script is
    called and not awaited.  Whenever [setupTailwindcss] returns in that
    mode, the merge had found the manifest and begun to read it, and the
    next things that happened were the printing and the launch of the last
    command: the command was started before the merge had read the
    manifest, let alone written it. *)
Theorem css_merge_is_not_awaited projectPath type w :
  let manifest := path_join projectPath "package.json" in
  let install := "npm install --save-dev prettier-plugin-tailwindcss" in
  let r := run (Generator.setupTailwindcss projectPath type true) w in
  pending w = [] ->
  fst r = Returned tt ->
  exists before after,
    trace (snd r) =
    trace w ++ before ++
    [Did (ExistsSync manifest) (ABool true);
     Began (ReadFile manifest);
     Did (ConsoleLog install) AUnit;
     Began (Spawn "npm" ["install"; "--save-dev"; "prettier-plugin-tailwindcss"]
              projectPath)] ++ after.
Proof.
  intros manifest install r Hp Hr. subst r install.
  unfold Generator.setupTailwindcss in *. cbv zeta in *.
  apply run_mbind_Returned in Hr as (? & w1 & H1 & Hr). rewrite run_mbind, H1.
  apply step_awaited in H1 as [Hp1 E1]; [|apply awaits_all_runCommand|done].
  apply run_mbind_Returned in Hr as (? & w2 & H2 & Hr). rewrite run_mbind, H2.
  apply step_awaited in H2 as [Hp2 E2]; [|apply awaits_all_runCommand|done].
  apply run_mbind_Returned in Hr as (? & w3 & H3 & Hr). rewrite run_mbind, H3.
  apply step_awaited in H3 as [Hp3 E3]; [|apply awaits_all_mkdir|done].
  apply run_mbind_Returned in Hr as (? & w4 & H4 & Hr). rewrite run_mbind, H4.
  apply step_awaited in H4 as [Hp4 E4]; [|apply awaits_all_readFile|done].
  apply run_mbind_Returned in Hr as (? & w5 & H5 & Hr). rewrite run_mbind, H5.
  apply step_awaited in H5 as [Hp5 E5]; [|apply awaits_all_writeFile|done].
  apply run_mbind_Returned in Hr as (? & w6 & H6 & Hr). rewrite run_mbind, H6.
  apply step_awaited in H6 as [Hp6 E6]; [|apply awaits_all_writeFile|done].
  apply run_mbind_Returned in Hr as (? & w7 & H7 & Hr). rewrite run_mbind, H7.
  apply step_awaited in H7 as [Hp7 E7]; [|apply awaits_all_writeFile|done].
  assert (extends w w7) as [before Hbefore].
  { repeat (eapply extends_trans; [eassumption|]). apply extends_refl. }
  rewrite run_mbind, run_Fork_alone in Hr |- *.
  pose proof (start_addScripts projectPath
    (object_literal
       [("css", JStr "tailwindcss -i ./src/styles.css -o ./build/output.css --watch")])
    w7) as Hs.
  cbv zeta in Hs. fold manifest in Hs.
  destruct (exists_path w7 manifest).
  - destruct Hs as [k Hs]. rewrite Hs.
    match goal with
    | |- context [Node.run exec sched _ ?w'] =>
        destruct (runCommand_spawns exec sched
                    "npm install --save-dev prettier-plugin-tailwindcss"
                    projectPath w' "npm"
                    ["install"; "--save-dev"; "prettier-plugin-tailwindcss"])
          as [after Hafter]; [vm_compute; reflexivity|]
    end.
    exists before, after. rewrite Hafter.
    cbn [trace log set_pending]. rewrite Hbefore, <- !app_assoc. reflexivity.
  - exfalso. rewrite Hs in Hr.
    rewrite (runCommand_crashes _ _ _ "npm"
               ["install"; "--save-dev"; "prettier-plugin-tailwindcss"]
               (Error ("File not found: " ++ manifest))) in Hr;
      [done|vm_compute; reflexivity|].
    cbn [pending set_pending]. by rewrite Hp7.
Qed.

End not_awaited.

Lemma css_merge_is_not_awaited_witness :
  let w := set_dirs {["/home"; "/home/demo"]}
             (set_files (<["/home/demo/package.json" := JSON.stringify npm_manifest]>
                           templates) machine) in
  let r := Node.run toolchain eager
             (Generator.setupTailwindcss "/home/demo" "JavaScript" true) w in
  fst r = Returned tt /\
  exists before after,
    trace (snd r) =
    before ++
    [Did (ExistsSync (path_join "/home/demo" "package.json")) (ABool true);
     Began (ReadFile (path_join "/home/demo" "package.json"));
     Did (ConsoleLog "npm install --save-dev prettier-plugin-tailwindcss") AUnit;
     Began (Spawn "npm" ["install"; "--save-dev"; "prettier-plugin-tailwindcss"]
              "/home/demo")] ++ after.
Proof.
  intros w r.
  assert (fst r = Returned tt) as Hr by (vm_compute; reflexivity).
  split; [exact Hr|].
  exact (css_merge_is_not_awaited toolchain eager "/home/demo" "JavaScript" w
           eq_refl Hr).
Defined.

(** ** The scripts a project gets *)

Import Scripts.

Lemma ends_with_slash_app a b :
  b <> "" -> ends_with_slash (a ++ b) = ends_with_slash b.
Proof.
  intros Hb. induction a as [|c a IH]; [done|].
  change (String c a ++ b)%string with (String c (a ++ b)%string).
  cbn [ends_with_slash]. rewrite IH.
  destruct (a ++ b)%string eqn:E; [|done].
  destruct a; [|done]. by destruct b.
Qed.

Lemma string_app_assoc (a b c : string) :
  ((a ++ b) ++ c = a ++ b ++ c)%string.
Proof.
  induction a as [|x a IH]; [done|].
  change (String x ((a ++ b) ++ c) = String x (a ++ b ++ c))%string.
  by f_equal.
Qed.

Lemma string_app_inv_head (a b c : string) :
  (a ++ b = a ++ c)%string -> b = c.
Proof.
  induction a as [|x a IH]; [done|].
  change (String x (a ++ b) = String x (a ++ c) -> b = c)%string.
  intros [= H]. by apply IH.
Qed.

Lemma path_join_inj a b c : path_join a b = path_join a c -> b = c.
Proof.
  unfold path_join. destruct (ends_with_slash a); intros H.
  - by apply string_app_inv_head in H.
  - apply string_app_inv_head in H. by injection H.
Qed.

(** A relative name inside a directory that is itself given relative to
    the project. *)
Lemma path_join_nested a b c :
  b <> "" ->
  path_join (path_join a b) c =
  path_join a (if ends_with_slash b then b ++ c else b ++ "/" ++ c).
Proof.
  intros Hb. unfold path_join at 1 2.
  destruct (ends_with_slash a) eqn:Ha.
  - rewrite ends_with_slash_app by done. unfold path_join. rewrite Ha.
    destruct (ends_with_slash b); by rewrite string_app_assoc.
  - rewrite (ends_with_slash_app a ("/" ++ b)) by done.
    assert (ends_with_slash ("/" ++ b) = ends_with_slash b) as ->.
    { by apply (ends_with_slash_app "/" b). }
    unfold path_join. rewrite Ha.
    destruct (ends_with_slash b); by rewrite !string_app_assoc.
Qed.

Lemma script_of_insert_ne f p d m k :
  p <> m -> script_of (<[p := d]> f) m k = script_of f m k.
Proof. intros H. unfold script_of. by rewrite lookup_insert_ne. Qed.

Section script_steps.
Variable exec :
  string -> list string -> string ->
  gmap string string * gset string ->
  proc_result * (gmap string string * gset string).
Variable sched : nat -> nat.
Variable root : string.

#[local] Abbreviation run := (Node.run exec sched).
#[local] Abbreviation manifest := (path_join root "package.json").
#[local] Abbreviation ready := (Scripts.ready manifest).
#[local] Abbreviation hoare := (Scripts.hoare exec sched).

Lemma hoare_mbind {A B} P Q R (p : prog A) (f : A -> prog B) :
  hoare P p Q -> (forall a, hoare Q (f a) R) -> hoare P (p ≫= f) R.
Proof.
  intros Hp Hf w b w2 HP. rewrite run_mbind.
  destruct (run p w) as [[a|e|c|] w1] eqn:E; try done.
  intros H. eapply Hf; [|exact H]. by eapply Hp.
Qed.

Lemma hoare_ret {A} P (a : A) : hoare P (Ret a) P.
Proof. intros w b w1 HP [= <- <-]. done. Qed.

Lemma hoare_throw {A} P Q e : hoare P (@Throw A e) Q.
Proof. intros w b w1 HP. done. Qed.

Lemma hoare_console_log S l : hoare (ready S) (console_log l) (ready S).
Proof. intros w b w1 HP [= <- <-]. done. Qed.

Lemma hoare_readFile S p : hoare (ready S) (readFile p) (ready S).
Proof.
  intros w b w1 [Hp HS]. rewrite run_readFile by done. cbv zeta.
  destruct (bool_decide _); [done|]. destruct (files w !! p); [|done].
  intros [= <- <-]. done.
Qed.

Lemma hoare_writeFile S p d :
  p <> manifest -> hoare (ready S) (writeFile p d) (ready S).
Proof.
  intros Hne w b w1 [Hp HS]. rewrite run_writeFile by done. cbv zeta.
  destruct (bool_decide _); [done|]. intros [= <- <-]. split; [done|].
  cbn [files log set_files tick]. eapply Forall_impl; [exact HS|].
  intros kv H. by rewrite script_of_insert_ne.
Qed.

Lemma hoare_mkdir S p r : hoare (ready S) (mkdir p r) (ready S).
Proof.
  intros w b w1 [Hp HS]. unfold mkdir. rewrite run_Await_idle by done.
  destruct r; cbn [perform].
  - destruct (bool_decide _); [done|]. intros [= <- <-]. done.
  - destruct (exists_path _ _); [done|]. intros [= <- <-]. done.
Qed.

Lemma hoare_runCommand S command :
  keeps_scripts exec root manifest ->
  hoare (ready S) (runCommand command root) (ready S).
Proof.
  intros Hk w b w1 [Hp HS]. unfold runCommand, printCommand.
  rewrite run_mbind. cbn [console_log Node.run perform as_unit].
  destruct (tokenize command) as [|cmd args]; [done|].
  rewrite run_Await_idle by done. cbn [perform files dirs log tick].
  pose proof (fun key v => Hk cmd args (files w) (dirs w) key v) as Hk'.
  destruct (exec cmd args root (files w, dirs w)) as [res [f d]].
  cbn [fst snd] in Hk'.
  destruct res as [code|e]; [|done].
  destruct (is_zero code); [|done]. intros [= <- <-]. split; [done|].
  cbn [files log set_files set_dirs tick]. eapply Forall_impl; [exact HS|].
  intros kv H. by apply Hk'.
Qed.

(** The handlers of the scripts never return. *)
Lemma hoare_try_catch {A} P Q (p : prog A) runtime_message prefix :
  hoare P p Q ->
  hoare P (try_catch p (fun error =>
             console_error (prefix ++ message runtime_message error);;
             ExitProcess 1)) Q.
Proof.
  intros Hp w b w1 HP. rewrite run_try_catch.
  destruct (run p w) as [[a|e|c|] w'] eqn:E; try done.
  intros [= <- <-]. by eapply Hp.
Qed.

(** What a merge stores, in a manifest that holds an object. *)
Lemma script_of_merged f o adds k :
  wf (JObj o) = true -> wf (JObj adds) = true ->
  script_of (<[manifest := JSON.stringify (JObj (merged_manifest o adds))]> f)
            manifest k
  = match obj_get adds k with
    | Some v => Some v
    | None =>
        match obj_get o "scripts" with
        | Some (JObj s) => obj_get s k
        | _ => obj_get (spread_into [] (own_props (obj_get o "scripts"))) k
        end
    end.
Proof.
  intros Ho Ha. unfold script_of. rewrite lookup_insert_eq.
  rewrite parse_stringify by by apply merged_manifest_wf.
  rewrite merged_manifest_eq, obj_get_set_eq by by apply wf_NoDup.
  pose proof (merged_scripts_ordered (obj_get o "scripts") adds) as Hm.
  destruct (sorted_scripts_spec _ Hm) as [_ ->].
  unfold merged_scripts. rewrite obj_get_spread_into.
  - destruct (obj_get adds k); [done|].
    destruct (obj_get o "scripts") as [[| | | | |s]|] eqn:Hs; try done.
    rewrite spread_into_nil; [done|].
    by apply (obj_get_wf _ _ _ Ho) in Hs as [? _]%wf_obj_Forall.
  - apply spread_into_NoDup. constructor.
  - by apply wf_NoDup.
Qed.

(** A merge into a manifest that holds scripts already. *)
Lemma hoare_merge S T :
  S <> [] ->
  wf (JObj (additions T)) = true ->
  Forall (fun kv => obj_get (additions T) (fst kv) = None) S ->
  Forall (fun kv => obj_get (additions T) (fst kv) = Some (JStr (snd kv))) T ->
  hoare (ready S) (addScriptsToPackageJson root (additions T)) (ready (S ++ T)).
Proof.
  intros Hne Hwf Hold Hnew w b w1 [Hp HS] Hrun.
  destruct (run_addScripts_effect exec sched root (additions T) w Hp)
    as (_ & Hq & Hcases).
  rewrite Hrun in Hq, Hcases. cbn [fst snd] in Hq, Hcases.
  destruct S as [|kv0 S0]; [done|].
  pose proof (Forall_inv HS) as H0. unfold script_of in H0.
  destruct (files w !! manifest) as [text|] eqn:Hf; [|done].
  destruct (JSON.parse text) as [[| | | | |o]| |] eqn:Hparse; try done.
  destruct (obj_get o "scripts") as [[| | | | |s]|] eqn:Hs; try done.
  destruct Hcases as [(text' & o' & _ & [= <-] & Hparse' & _ & Hfiles)
                     |[(text' & l & _ & [= <-] & Hparse' & _)|[Hno _]]];
    [|by rewrite Hparse in Hparse'|by destruct b].
  rewrite Hparse in Hparse'. injection Hparse' as <-.
  pose proof (parse_wf _ _ Hparse) as Ho.
  split; [done|]. rewrite Hfiles. apply Forall_app. split.
  - rewrite Forall_forall in HS, Hold |- *. intros kv Hin.
    rewrite script_of_merged, (Hold kv Hin), Hs by done.
    specialize (HS kv Hin). unfold script_of in HS.
    by rewrite Hf, Hparse, Hs in HS.
  - rewrite Forall_forall in Hnew |- *. intros kv Hin.
    by rewrite script_of_merged, (Hnew kv Hin).
Qed.

End script_steps.

Lemma path_join_ne root b c : b <> c -> path_join root b <> path_join root c.
Proof. intros Hne H. by apply path_join_inj in H. Qed.

Lemma path_join_nested_ne root b c d :
  b <> "" ->
  (if ends_with_slash b then b ++ c else b ++ "/" ++ c)%string <> d ->
  path_join (path_join root b) c <> path_join root d.
Proof. intros Hb Hne. rewrite path_join_nested by done. by apply path_join_ne. Qed.

Ltac other_path :=
  first
    [ solve [apply path_join_ne; discriminate]
    | solve [apply path_join_nested_ne; [discriminate|vm_compute; discriminate]] ].

Ltac pairs_of l :=
  lazymatch l with
  | [] => constr:(@nil (string * string))
  | (?k, JStr ?v) :: ?l' => let r := pairs_of l' in constr:((k, v) :: r)
  end.

Ltac hoare_leaf exec sched root Hk :=
  lazymatch goal with
  | |- Scripts.hoare _ _ _ (runCommand _ _) _ =>
      apply (hoare_runCommand exec sched root); exact Hk
  | |- Scripts.hoare _ _ _ (readFile _) _ => apply hoare_readFile
  | |- Scripts.hoare _ _ _ (writeFile _ _) _ =>
      apply hoare_writeFile; other_path
  | |- Scripts.hoare _ _ _ (mkdir _ _) _ => apply hoare_mkdir
  | |- Scripts.hoare _ _ _ (console_log _) _ => apply hoare_console_log
  | |- Scripts.hoare _ _ _ (printOutput _) _ => apply hoare_console_log
  | |- Scripts.hoare _ _ (Scripts.ready _ ?S)
         (addScriptsToPackageJson _ (object_literal ?l)) _ =>
      let T := pairs_of l in
      apply (hoare_merge exec sched root S T);
      [discriminate|vm_compute; reflexivity
      |repeat constructor|repeat constructor]
  | |- Scripts.hoare _ _ _ (Ret _) _ => apply hoare_ret
  | |- Scripts.hoare _ _ _ (Throw _) _ => apply hoare_throw
  end.

Ltac hoare_steps exec sched root Hk :=
  repeat
    lazymatch goal with
    | |- Scripts.hoare _ _ _ (_ ≫= _) _ =>
        eapply hoare_mbind; [|intros ?]
    | |- _ => hoare_leaf exec sched root Hk
    end.

Section project_scripts.
Variable dirname : string.
Variable runtime_message : error -> string.
Variable cwd : string.
Variable exec :
  string -> list string -> string ->
  gmap string string * gset string ->
  proc_result * (gmap string string * gset string).
Variable sched : nat -> nat.
Variable projectName : string.

#[local] Abbreviation run := (Node.run exec sched).
#[local] Abbreviation root := (path_resolve cwd projectName).
#[local] Abbreviation manifest := (path_join root "package.json").
#[local] Abbreviation ready := (Scripts.ready manifest).
#[local] Abbreviation hoare := (Scripts.hoare exec sched).
#[local] Abbreviation install_args :=
  ["install"; "--save-dev"; "eslint"; "prettier"; "eslint-config-prettier";
   "eslint-config-airbnb"; "eslint-plugin-import"].

(** The first step: the directory, the two npm commands, the module type
    and the first merge. *)
Lemma hoare_createNpmProject fs1 fs2 text o :
  exec "npm" install_args root fs1 = (ExitCode (Some 0%Z), fs2) ->
  manifest ∉ snd fs2 ->
  fst fs2 !! manifest = Some text ->
  JSON.parse text = JSON.Parsed (JObj o) ->
  hoare (fun w => pending w = [] /\
                  exec "npm" ["init"; "-y"] root (files w, dirs w)
                  = (ExitCode (Some 0%Z), fs1))
        (Generator.createNpmProject runtime_message root)
        (ready [("format", "prettier --write ."); ("lint", "eslint .")]).
Proof.
  intros Hinstall Hnd Hf Hparse. destruct fs1 as [f1 d1], fs2 as [f2 d2].
  simpl in Hnd, Hf. unfold Generator.createNpmProject.
  apply hoare_try_catch. intros w b w1 [Hp Hinit].
  rewrite run_mbind.
  rewrite (run_runCommand_ok exec sched "npm init -y" "npm" ["init"; "-y"]
             root _ f1 d1); [|done|by vm_compute|exact Hinit].
  rewrite run_mbind.
  rewrite (run_runCommand_ok exec sched _ "npm" install_args root _ f2 d2);
    [|done|by vm_compute|exact Hinstall].
  rewrite run_mbind.
  rewrite (run_modulePackageJson_obj exec sched root _ text o);
    [|done|done|done|done].
  pose proof (parse_wf _ _ Hparse) as Ho.
  assert (wf (JObj (obj_set o "type" (JStr "module"))) = true) as Ho1
    by by apply wf_obj_set.
  rewrite (run_addScripts_obj exec sched root _ _
             (JSON.stringify (JObj (obj_set o "type" (JStr "module"))))
             (obj_set o "type" (JStr "module")));
    [|done|done|apply lookup_insert_eq|by apply parse_stringify].
  intros [= <- <-]. split; [done|].
  cbn [files log set_files set_dirs tick].
  repeat constructor; cbn [fst snd]; by rewrite script_of_merged.
Qed.

Lemma hoare_mkdir_root fs1 :
  hoare (fun w => pending w = [] /\ exists_path w root = false /\
                  exec "npm" ["init"; "-y"] root
                       (files w, {[root]} ∪ dirs w)
                  = (ExitCode (Some 0%Z), fs1))
        (mkdir root false)
        (fun w => pending w = [] /\
                  exec "npm" ["init"; "-y"] root (files w, dirs w)
                  = (ExitCode (Some 0%Z), fs1)).
Proof.
  intros w b w1 (Hp & Hfresh & Hinit). rewrite run_mkdir by done. cbv zeta.
  rewrite Hfresh. intros [= <- <-]. done.
Qed.

(** X21: the scripts a project gets from the script with Tailwind support,
    in every configuration in which every call is awaited.  When the run
    returns, npm having left a manifest that holds an object and the
    commands having left its scripts alone, the manifest holds the scripts
    format and lint and, for TypeScript, either build, dev and typecheck
    or, with Tailwind, the dev script that runs dev:typescript and
    dev:tailwind side by side. *)
Theorem scripts_of_the_project type (useTailwindcss useGit : bool)
    w fs1 fs2 text o :
  let expected :=
    [("format", "prettier --write ."); ("lint", "eslint .")] ++
    (if String.eqb type "TypeScript" then
       if useTailwindcss then
         [("dev", "run-p dev:*"); ("dev:typescript", "tsc -w");
          ("dev:tailwind",
           "tailwindcss -i ./src/styles/tailwind.css -o ./build/output.css --watch")]
       else [("build", "tsc"); ("dev", "tsc -w"); ("typecheck", "tsc -b")]
     else []) in
  let r := run (Generator.createProject dirname runtime_message cwd
                  projectName type useTailwindcss useGit) w in
  pending w = [] ->
  exists_path w root = false ->
  exec "npm" ["init"; "-y"] root (files w, {[root]} ∪ dirs w)
  = (ExitCode (Some 0%Z), fs1) ->
  exec "npm" install_args root fs1 = (ExitCode (Some 0%Z), fs2) ->
  manifest ∉ snd fs2 ->
  fst fs2 !! manifest = Some text ->
  JSON.parse text = JSON.Parsed (JObj o) ->
  keeps_scripts exec root manifest ->
  (useTailwindcss = true -> type = "TypeScript") ->
  fst r = Returned tt ->
  Forall (fun kv =>
            script_of (files (snd r)) manifest (fst kv) = Some (JStr (snd kv)))
         expected.
Proof.
  intros expected r Hp Hfresh Hinit Hinstall Hnd Hf Hparse Hk Htw Hr.
  cut (hoare (fun w => pending w = [] /\ exists_path w root = false /\
                       exec "npm" ["init"; "-y"] root
                            (files w, {[root]} ∪ dirs w)
                       = (ExitCode (Some 0%Z), fs1))
             (Generator.createProject dirname runtime_message cwd projectName
                type useTailwindcss useGit)
             (ready expected)).
  { intros H. apply (H w tt (snd r)); [done|].
    subst r. destruct (run _ w) as [out w']. simpl in Hr. by subst out. }
  clear Hr r Hp Hfresh Hinit w.
  unfold Generator.createProject. apply hoare_try_catch.
  eapply hoare_mbind; [apply hoare_mkdir_root|intros _].
  eapply hoare_mbind;
    [by apply (hoare_createNpmProject fs1 fs2 text o)|intros _].
  unfold Generator.setupTypescript, Generator.setupTailwindcss,
    Generator.singleDevScript, createEslintConfig, createPrettierConfig,
    setupGit.
  subst expected. destruct useTailwindcss.
  - rewrite (Htw eq_refl).
    destruct useGit; cbn [String.eqb Ascii.eqb Bool.eqb andb negb];
      cbv beta iota zeta; hoare_steps exec sched (path_resolve cwd projectName) Hk.
  - destruct (String.eqb type "TypeScript"), (String.eqb type "JavaScript"),
      useGit; cbn [andb negb]; cbv beta iota zeta;
      hoare_steps exec sched (path_resolve cwd projectName) Hk.
Qed.

End project_scripts.

Section legacy_scripts.
Variable dirname : string.
Variable runtime_message : error -> string.
Variable cwd : string.
Variable exec :
  string -> list string -> string ->
  gmap string string * gset string ->
  proc_result * (gmap string string * gset string).
Variable sched : nat -> nat.
Variable projectName : string.

#[local] Abbreviation run := (Node.run exec sched).
#[local] Abbreviation root := (path_resolve cwd projectName).
#[local] Abbreviation manifest := (path_join root "package.json").
#[local] Abbreviation ready := (Scripts.ready manifest).
#[local] Abbreviation hoare := (Scripts.hoare exec sched).
#[local] Abbreviation install_args :=
  ["install"; "--save-dev"; "eslint"; "prettier"; "eslint-config-prettier";
   "eslint-config-airbnb"; "eslint-plugin-import"].

Lemma hoare_legacy_createNpmProject fs1 fs2 text o :
  exec "npm" install_args root fs1 = (ExitCode (Some 0%Z), fs2) ->
  manifest ∉ snd fs2 ->
  fst fs2 !! manifest = Some text ->
  JSON.parse text = JSON.Parsed (JObj o) ->
  hoare (fun w => pending w = [] /\
                  exec "npm" ["init"; "-y"] root (files w, dirs w)
                  = (ExitCode (Some 0%Z), fs1))
        (Legacy.createNpmProject runtime_message root)
        (ready [("format", "prettier --write ."); ("lint", "eslint .")]).
Proof.
  intros Hinstall Hnd Hf Hparse. destruct fs1 as [f1 d1], fs2 as [f2 d2].
  simpl in Hnd, Hf. unfold Legacy.createNpmProject.
  apply hoare_try_catch. intros w b w1 [Hp Hinit].
  rewrite run_mbind.
  rewrite (run_runCommand_ok exec sched "npm init -y" "npm" ["init"; "-y"]
             root _ f1 d1); [|done|by vm_compute|exact Hinit].
  rewrite run_mbind.
  rewrite (run_runCommand_ok exec sched _ "npm" install_args root _ f2 d2);
    [|done|by vm_compute|exact Hinstall].
  pose proof (parse_wf _ _ Hparse) as Ho.
  rewrite (run_addScripts_obj exec sched root _ _ text o);
    [|done|done|done|done].
  intros [= <- <-]. split; [done|].
  cbn [files log set_files set_dirs tick].
  repeat constructor; cbn [fst snd]; by rewrite script_of_merged.
Qed.

(** X22: the scripts a project gets from the legacy script.  When the run
    returns, npm having left a manifest that holds an object and the
    commands having left its scripts alone, the manifest holds the scripts
    format and lint and, for TypeScript, build, dev and typecheck. *)
Theorem scripts_of_the_legacy_project type (useGit : bool) w fs1 fs2 text o :
  let expected :=
    [("format", "prettier --write ."); ("lint", "eslint .")] ++
    (if String.eqb type "TypeScript"
     then [("build", "tsc"); ("dev", "tsc -w"); ("typecheck", "tsc -b")]
     else []) in
  let r := run (Legacy.createProject dirname runtime_message cwd
                  projectName type useGit) w in
  pending w = [] ->
  exists_path w root = false ->
  exec "npm" ["init"; "-y"] root (files w, {[root]} ∪ dirs w)
  = (ExitCode (Some 0%Z), fs1) ->
  exec "npm" install_args root fs1 = (ExitCode (Some 0%Z), fs2) ->
  manifest ∉ snd fs2 ->
  fst fs2 !! manifest = Some text ->
  JSON.parse text = JSON.Parsed (JObj o) ->
  keeps_scripts exec root manifest ->
  fst r = Returned tt ->
  Forall (fun kv =>
            script_of (files (snd r)) manifest (fst kv) = Some (JStr (snd kv)))
         expected.
Proof.
  intros expected r Hp Hfresh Hinit Hinstall Hnd Hf Hparse Hk Hr.
  cut (hoare (fun w => pending w = [] /\ exists_path w root = false /\
                       exec "npm" ["init"; "-y"] root
                            (files w, {[root]} ∪ dirs w)
                       = (ExitCode (Some 0%Z), fs1))
             (Legacy.createProject dirname runtime_message cwd projectName
                type useGit)
             (ready expected)).
  { intros H. apply (H w tt (snd r)); [done|].
    subst r. destruct (run _ w) as [out w']. simpl in Hr. by subst out. }
  clear Hr r Hp Hfresh Hinit w.
  unfold Legacy.createProject. apply hoare_try_catch.
  eapply hoare_mbind; [apply hoare_mkdir_root|intros _].
  eapply hoare_mbind;
    [by apply (hoare_legacy_createNpmProject fs1 fs2 text o)|intros _].
  unfold Legacy.installTypescript, createEslintConfig, createPrettierConfig,
    setupGit.
  subst expected.
  destruct (String.eqb type "TypeScript"), (String.eqb type "JavaScript"),
    useGit; cbv beta iota zeta;
    hoare_steps exec sched (path_resolve cwd projectName) Hk.
Qed.

End legacy_scripts.

(** The toolchain of the examples leaves the scripts of a manifest alone. *)
Lemma toolchain_keeps_scripts :
  keeps_scripts toolchain (path_resolve "/home" "demo")
    (path_join (path_resolve "/home" "demo") "package.json").
Proof.
  intros cmd args f d key v H. unfold toolchain. cbn [fst snd].
  change (path_join (path_resolve "/home" "demo") "package.json")
    with "/home/demo/package.json" in *.
  destruct (String.eqb cmd "npm" && bool_decide (args = ["init"; "-y"])).
  - destruct (f !! "/home/demo/package.json") eqn:E; [done|].
    unfold script_of in H. by rewrite E in H.
  - destruct (String.eqb cmd "npx"); [|done]. cbn [fst snd].
    rewrite script_of_insert_ne; [done|].
    destruct (bool_decide _); vm_compute; discriminate.
Qed.

Lemma scripts_of_the_project_witness :
  let r := Node.run toolchain lazy
             (Generator.createProject "/tool" Fixture.runtime_message "/home"
                "demo" "TypeScript" true true) machine in
  fst r = Returned tt /\
  script_of (files (snd r))
    (path_join (path_resolve "/home" "demo") "package.json") "dev"
  = Some (JStr "run-p dev:*").
Proof.
  intros r.
  assert (fst r = Returned tt) as Hr by (vm_compute; reflexivity).
  split; [exact Hr|].
  pose proof (scripts_of_the_project "/tool" Fixture.runtime_message "/home"
                toolchain lazy "demo" "TypeScript" true true machine
                (<["/home/demo/package.json" := JSON.stringify npm_manifest]>
                   (files machine), {["/home/demo"]} ∪ dirs machine)
                (<["/home/demo/package.json" := JSON.stringify npm_manifest]>
                   (files machine), {["/home/demo"]} ∪ dirs machine)
                (JSON.stringify npm_manifest)
                [("name", JStr "demo"); ("version", JStr "1.0.0");
                 ("scripts", JObj [("test", JStr "echo no test")])]
                eq_refl eq_refl eq_refl eq_refl) as H.
  cbv zeta in H.
  assert (path_join (path_resolve "/home" "demo") "package.json"
          ∉ snd (<["/home/demo/package.json" := JSON.stringify npm_manifest]>
                   (files machine), ({["/home/demo"]} ∪ dirs machine : gset string)))
    as Hnd.
  { cbn [snd dirs machine]. intros H'. apply elem_of_union in H' as [H'|H'];
      apply elem_of_singleton in H'; discriminate H'. }
  assert (JSON.parse (JSON.stringify npm_manifest)
          = JSON.Parsed (JObj [("name", JStr "demo"); ("version", JStr "1.0.0");
                               ("scripts", JObj [("test", JStr "echo no test")])]))
    as Hparse by (vm_compute; reflexivity).
  specialize (H Hnd eq_refl Hparse toolchain_keeps_scripts (fun _ => eq_refl) Hr).
  apply Forall_inv_tail, Forall_inv_tail, Forall_inv in H. exact H.
Defined.

Lemma scripts_of_the_legacy_project_witness :
  let r := Node.run toolchain lazy
             (Legacy.createProject "/tool" Fixture.runtime_message "/home"
                "demo" "TypeScript" true) machine in
  fst r = Returned tt /\
  script_of (files (snd r))
    (path_join (path_resolve "/home" "demo") "package.json") "dev"
  = Some (JStr "tsc -w").
Proof.
  intros r.
  assert (fst r = Returned tt) as Hr by (vm_compute; reflexivity).
  split; [exact Hr|].
  pose proof (scripts_of_the_legacy_project "/tool" Fixture.runtime_message
                "/home" toolchain lazy "demo" "TypeScript" true machine
                (<["/home/demo/package.json" := JSON.stringify npm_manifest]>
                   (files machine), {["/home/demo"]} ∪ dirs machine)
                (<["/home/demo/package.json" := JSON.stringify npm_manifest]>
                   (files machine), {["/home/demo"]} ∪ dirs machine)
                (JSON.stringify npm_manifest)
                [("name", JStr "demo"); ("version", JStr "1.0.0");
                 ("scripts", JObj [("test", JStr "echo no test")])]
                eq_refl eq_refl eq_refl eq_refl) as H.
  cbv zeta in H.
  assert (path_join (path_resolve "/home" "demo") "package.json"
          ∉ snd (<["/home/demo/package.json" := JSON.stringify npm_manifest]>
                   (files machine), ({["/home/demo"]} ∪ dirs machine : gset string)))
    as Hnd.
  { cbn [snd dirs machine]. intros H'. apply elem_of_union in H' as [H'|H'];
      apply elem_of_singleton in H'; discriminate H'. }
  assert (JSON.parse (JSON.stringify npm_manifest)
          = JSON.Parsed (JObj [("name", JStr "demo"); ("version", JStr "1.0.0");
                               ("scripts", JObj [("test", JStr "echo no test")])]))
    as Hparse by (vm_compute; reflexivity).
  specialize (H Hnd eq_refl Hparse toolchain_keeps_scripts Hr).
  apply Forall_inv_tail, Forall_inv_tail, Forall_inv_tail, Forall_inv in H.
  exact H.
Defined.

(** ** The configuration of Tailwind *)

Lemma prefix_split p s :
  String.prefix p s = true ->
  exists b, s = (p ++ b)%string /\
            String.substring (String.length p)
              (String.length s - String.length p) s = b.
Proof.
  revert s. induction p as [|x p IH]; intros s H.
  - exists s. split; [done|]. cbn [String.length]. rewrite Nat.sub_0_r.
    clear H. induction s as [|c s IHs]; [done|]. simpl. by rewrite IHs.
  - destruct s as [|c s]; [done|]. simpl in H.
    destruct (ascii_dec x c) as [->|]; [|done].
    destruct (IH s H) as (b & -> & Hb). exists b. split; [done|].
    exact Hb.
Qed.

(** X23: the edit of the Tailwind configuration replaces the first
    occurrence of the text of the pattern and nothing else: a text
    without an occurrence is left as it is, and otherwise what stands
    before the first occurrence and what stands after it are kept. *)
Theorem replace_first_spec pattern by_ s :
  ((forall a b, s <> a ++ pattern ++ b) /\
   Generator.replace_first pattern by_ s = s)%string \/
  (exists a b,
     s = a ++ pattern ++ b /\
     Generator.replace_first pattern by_ s = a ++ by_ ++ b /\
     forall a' b', s = a' ++ pattern ++ b' ->
                   String.length a <= String.length a')%string.
Proof.
  induction s as [|c s IH].
  - cbn [Generator.replace_first].
    destruct (String.prefix pattern "") eqn:Hp.
    + right. destruct (prefix_split _ _ Hp) as (b & Hs & Hb).
      exists ""%string, b. split; [done|]. split; [by rewrite Hb|].
      intros a' b' _. cbn [String.length]. lia.
    + left. split; [|done]. intros a b Hs.
      destruct a; [|done]. destruct pattern; [done|done].
  - cbn [Generator.replace_first].
    destruct (String.prefix pattern (String c s)) eqn:Hp.
    + right. destruct (prefix_split _ _ Hp) as (b & Hs & Hb).
      exists ""%string, b. split; [done|]. split; [by rewrite Hb|].
      intros a' b' _. cbn [String.length]. lia.
    + assert (forall b, String c s <> ("" ++ pattern ++ b)%string) as Hhere.
      { intros b Hs. cbn [String.append] in Hs.
        change (""%string ++ pattern ++ b)%string with (pattern ++ b)%string in Hs.
        rewrite Hs, prefix_app in Hp. done. }
      destruct IH as [[Hno Hsame]|(a & b & Hs & Hrep & Hmin)].
      * left. split; [|by rewrite Hsame]. intros a b Hs.
        destruct a as [|x a]; [by apply (Hhere b)|].
        change (String x a ++ pattern ++ b)%string
          with (String x (a ++ pattern ++ b)) in Hs.
        injection Hs as _ Hs. by apply (Hno a b).
      * right. exists (String c a), b. split; [by rewrite Hs|].
        split; [by rewrite Hrep|]. intros a' b' Hs'.
        destruct a' as [|x a']; [by destruct (Hhere b')|].
        change (String x a' ++ pattern ++ b')%string
          with (String x (a' ++ pattern ++ b')) in Hs'.
        injection Hs' as _ Hs'. cbn [String.length].
        specialize (Hmin a' b' Hs'). lia.
Qed.

(** ** Errors that are caught, directories that exist *)

Section caught.
Variable dirname : string.
Variable runtime_message : error -> string.
Variable cwd : string.
Variable exec :
  string -> list string -> string ->
  gmap string string * gset string ->
  proc_result * (gmap string string * gset string).
Variable sched : nat -> nat.

#[local] Abbreviation run := (Node.run exec sched).

Lemma run_try_catch_never_throws {A} (p : prog A) prefix w e :
  fst (run (try_catch p (fun error =>
              console_error (prefix ++ message runtime_message error);;
              ExitProcess 1)) w) <> Threw e.
Proof.
  rewrite run_try_catch. by destruct (run p w) as [[a|e'|c|] w1].
Qed.

Lemma run_mkdir_recursive path w :
  pending w = [] ->
  run (mkdir path true) w =
  let w1 := tick (log (Began (Mkdir path true)) w) in
  if bool_decide (is_Some (files w !! path))
  then (Threw (SystemError "EEXIST" "mkdir" path),
        log (Ended (Mkdir path true)
                   (AFailed (SystemError "EEXIST" "mkdir" path))) w1)
  else (Returned tt,
        log (Ended (Mkdir path true) AUnit)
            (set_dirs (list_to_set (path :: ancestors "" path) ∪ dirs w) w1)).
Proof.
  intros Hp. unfold mkdir. rewrite run_Await_idle by done.
  cbn [perform files dirs log tick].
  by destruct (bool_decide (is_Some (files w !! path))).
Qed.

(** X24: neither [createProject] nor [createNpmProject] ever rejects, in
    either script: an error thrown inside is caught, printed, and ends the
    process, so their caller never sees it. *)
Theorem the_pipeline_never_rejects
    projectName projectPath type useTailwindcss useGit w e :
  fst (run (Generator.createProject dirname runtime_message cwd projectName
              type useTailwindcss useGit) w) <> Threw e /\
  fst (run (Legacy.createProject dirname runtime_message cwd projectName
              type useGit) w) <> Threw e /\
  fst (run (Generator.createNpmProject runtime_message projectPath) w)
  <> Threw e /\
  fst (run (Legacy.createNpmProject runtime_message projectPath) w) <> Threw e.
Proof. repeat split; apply run_try_catch_never_throws. Qed.

(** X25: the two scripts differ on a src directory that exists already.
    Once the TypeScript packages are installed and the tsconfig template is
    copied, the legacy [installTypescript] creates src without the
    recursive option and rejects with EEXIST, merging no script; the
    [setupTypescript] of the script with Tailwind support creates it with
    the recursive option and goes on. *)
Theorem existing_src_directory projectPath single w f d text :
  let src := path_join projectPath "src" in
  let tsconfig := path_join projectPath "tsconfig.json" in
  let r := run (Legacy.installTypescript dirname projectPath) w in
  let r' := run (Generator.setupTypescript dirname projectPath single) w in
  pending w = [] ->
  exec "npm" ["install"; "typescript"; "@types/node";
              "@typescript-eslint/parser"; "@typescript-eslint/eslint-plugin"]
       projectPath (files w, dirs w) = (ExitCode (Some 0%Z), (f, d)) ->
  exec "npm" ["install"; "--save-dev"; "typescript"; "@types/node";
              "@typescript-eslint/parser"; "@typescript-eslint/eslint-plugin"]
       projectPath (files w, dirs w) = (ExitCode (Some 0%Z), (f, d)) ->
  TSCONFIG dirname ∉ d ->
  f !! TSCONFIG dirname = Some text ->
  tsconfig ∉ d ->
  src ∈ d ->
  f !! src = None ->
  (fst r = Threw (SystemError "EEXIST" "mkdir" src) /\
   files (snd r) = <[tsconfig := text]> f) /\
  (exists before after,
     trace (snd r') =
     trace w ++ before ++
     [Began (Mkdir src true); Ended (Mkdir src true) AUnit] ++ after).
Proof.
  intros src tsconfig r r' Hp Hlegacy Hnew Htd Htf Hcd Hsrc Hsf.
  subst r r'. split.
  - unfold Legacy.installTypescript. fold src tsconfig.
    rewrite run_mbind.
    rewrite (run_runCommand_ok exec sched _ "npm"
               ["install"; "typescript"; "@types/node";
                "@typescript-eslint/parser"; "@typescript-eslint/eslint-plugin"]
               projectPath w f d); [|done|by vm_compute|exact Hlegacy].
    rewrite run_mbind, run_readFile by done. cbv zeta.
    cbn [files dirs log set_files set_dirs tick].
    rewrite bool_decide_eq_false_2, Htf by done.
    rewrite run_mbind, run_writeFile by done. cbv zeta.
    cbn [files dirs log set_files set_dirs tick].
    rewrite bool_decide_eq_false_2 by done.
    rewrite run_mbind, run_mkdir by done. cbv zeta.
    unfold exists_path. cbn [files dirs log set_files set_dirs tick].
    rewrite (bool_decide_eq_true_2 (src ∈ d)) by done.
    rewrite orb_true_r. done.
  - unfold Generator.setupTypescript. fold src tsconfig.
    rewrite run_mbind.
    rewrite (run_runCommand_ok exec sched _ "npm"
               ["install"; "--save-dev"; "typescript"; "@types/node";
                "@typescript-eslint/parser"; "@typescript-eslint/eslint-plugin"]
               projectPath w f d); [|done|by vm_compute|exact Hnew].
    rewrite run_mbind, run_readFile by done. cbv zeta.
    cbn [files dirs log set_files set_dirs tick].
    rewrite bool_decide_eq_false_2, Htf by done.
    rewrite run_mbind, run_writeFile by done. cbv zeta.
    cbn [files dirs log set_files set_dirs tick].
    rewrite bool_decide_eq_false_2 by done.
    rewrite run_mbind, run_mkdir_recursive by done. cbv zeta.
    cbn [files dirs log set_files set_dirs tick].
    rewrite bool_decide_eq_false_2; cycle 1.
    { rewrite lookup_insert_ne; [by rewrite Hsf; intros [? ?]|].
      apply path_join_ne. discriminate. }
    match goal with
    | |- context [Node.run exec sched ?p ?w'] =>
        destruct (run_extends exec sched p w') as [after Hafter]
    end.
    exists [Did (ConsoleLog
                   "npm install --save-dev typescript @types/node @typescript-eslint/parser @typescript-eslint/eslint-plugin")
                AUnit;
            Began (Spawn "npm"
                     ["install"; "--save-dev"; "typescript"; "@types/node";
                      "@typescript-eslint/parser";
                      "@typescript-eslint/eslint-plugin"] projectPath);
            Ended (Spawn "npm"
                     ["install"; "--save-dev"; "typescript"; "@types/node";
                      "@typescript-eslint/parser";
                      "@typescript-eslint/eslint-plugin"] projectPath)
                  (AProc (ExitCode (Some 0%Z)));
            Began (ReadFile (TSCONFIG dirname));
            Ended (ReadFile (TSCONFIG dirname)) (AText text);
            Began (WriteFile tsconfig text);
            Ended (WriteFile tsconfig text) AUnit], after.
    rewrite Hafter. cbn [trace log set_files set_dirs set_pending tick].
    rewrite <- !app_assoc. reflexivity.
Qed.

End caught.

Lemma existing_src_directory_witness :
  let w := set_dirs {["/home"; "/home/demo"; "/home/demo/src"]} machine in
  fst (Node.run no_tools lazy (Legacy.installTypescript "/tool" "/home/demo") w)
  = Threw (SystemError "EEXIST" "mkdir" (path_join "/home/demo" "src")).
Proof.
  intros w.
  destruct (existing_src_directory "/tool" no_tools lazy "/home/demo" true w
              (files w) (dirs w) "{}") as [[H _] _].
  - reflexivity.
  - reflexivity.
  - reflexivity.
  - unfold w; cbn [dirs set_dirs]. intros H.
    repeat (apply elem_of_union in H as [H|H]);
      apply elem_of_singleton in H; discriminate H.
  - reflexivity.
  - unfold w; cbn [dirs set_dirs]. intros H.
    repeat (apply elem_of_union in H as [H|H]);
      apply elem_of_singleton in H; discriminate H.
  - unfold w; cbn [dirs set_dirs]. apply elem_of_union_r.
    by apply elem_of_singleton.
  - reflexivity.
  - exact H.
Defined.

(** ** The stylesheet of Tailwind *)

Lemma never_writes_other paths q d :
  Forall (fun n => q <> n) paths ->
  never_writes paths (WriteFile q d) = true.
Proof.
  intros H. cbn [never_writes]. apply negb_true_iff.
  induction H as [|n paths Hn _ IH]; [done|]. cbn [existsb].
  apply String.eqb_neq in Hn. by rewrite Hn.
Qed.

Section stylesheet.
Variable exec :
  string -> list string -> string ->
  gmap string string * gset string ->
  proc_result * (gmap string string * gset string).
Variable sched : nat -> nat.

#[local] Abbreviation run := (Node.run exec sched).

Lemma only_never_writes_setupTailwindcss projectPath type single :
  Policy.only
    (never_writes [path_join projectPath "src/styles.css";
                   path_join projectPath "src/styles/tailwind.css"])
    (Generator.setupTailwindcss projectPath type single).
Proof.
  unfold Generator.setupTailwindcss.
  destruct (String.eqb type "TypeScript"), single; cbv beta iota zeta;
    repeat
      lazymatch goal with
      | |- Policy.only _ (runCommand _ _) =>
          apply only_runCommand; [done|done|done|done]
      | |- Policy.only _ (addScriptsToPackageJson _ _) =>
          apply only_addScripts;
          [done|done
          |intros ?; apply never_writes_other; repeat constructor; other_path]
      | |- Policy.only _ (readFile _) => apply only_readFile; done
      | |- Policy.only _ (writeFile _ _) =>
          apply only_writeFile, never_writes_other; repeat constructor;
          other_path
      | |- Policy.only _ (mkdir _ _) => apply only_mkdir; done
      | |- Policy.only _ (Fork _ _) => split
      | |- Policy.only _ (Ret _) => exact I
      | |- Policy.only _ (_ ≫= _) => apply only_mbind; [|intros ?]
      end.
Qed.

(** X26: [setupTailwindcss] writes its stylesheet to src/styles/styles.css
    in the project, and never writes src/styles.css or
    src/styles/tailwind.css, the files that the css script and the
    dev:tailwind script it adds give to Tailwind as input. *)
Theorem stylesheet_is_not_where_the_scripts_look projectPath type single w :
  let stylesheet := path_join (path_join projectPath "src/styles/") "styles.css" in
  let inputs := [path_join projectPath "src/styles.css";
                 path_join projectPath "src/styles/tailwind.css"] in
  let r := run (Generator.setupTailwindcss projectPath type single) w in
  pending w = [] ->
  (exists t, trace (snd r) = trace w ++ t /\
             forallb (event_ok (never_writes inputs)) t = true) /\
  (fst r = Returned tt ->
   exists before after,
     trace (snd r) =
     trace w ++ before ++
     [Began (WriteFile stylesheet Generator.cssContent);
      Ended (WriteFile stylesheet Generator.cssContent) AUnit] ++ after).
Proof.
  intros stylesheet inputs r Hp. split.
  - apply within_idle, run_within;
      [apply only_never_writes_setupTailwindcss|].
    unfold Policy.only_pending. by rewrite Hp.
  - intros Hr. subst r. unfold Generator.setupTailwindcss in *.
    cbv zeta in *.
    apply run_mbind_Returned in Hr as (? & w1 & H1 & Hr). rewrite run_mbind, H1.
    apply step_awaited in H1 as [Hp1 E1]; [|apply awaits_all_runCommand|done].
    apply run_mbind_Returned in Hr as (? & w2 & H2 & Hr). rewrite run_mbind, H2.
    apply step_awaited in H2 as [Hp2 E2]; [|apply awaits_all_runCommand|done].
    apply run_mbind_Returned in Hr as (? & w3 & H3 & Hr). rewrite run_mbind, H3.
    apply step_awaited in H3 as [Hp3 E3]; [|apply awaits_all_mkdir|done].
    apply run_mbind_Returned in Hr as (? & w4 & H4 & Hr). rewrite run_mbind, H4.
    apply step_awaited in H4 as [Hp4 E4]; [|apply awaits_all_readFile|done].
    apply run_mbind_Returned in Hr as (? & w5 & H5 & Hr). rewrite run_mbind, H5.
    apply step_awaited in H5 as [Hp5 E5]; [|apply awaits_all_writeFile|done].
    apply run_mbind_Returned in Hr as (? & w6 & H6 & Hr). rewrite run_mbind, H6.
    assert (extends w w5) as [before Hbefore].
    { repeat (eapply extends_trans; [eassumption|]). apply extends_refl. }
    fold stylesheet in H6. rewrite run_writeFile in H6 by done.
    cbv zeta in H6. destruct (bool_decide (stylesheet ∈ dirs w5)); [done|].
    injection H6 as _ <-.
    match goal with
    | |- context [Node.run exec sched ?p ?w'] =>
        destruct (run_extends exec sched p w') as [after Hafter]
    end.
    exists before, after. rewrite Hafter.
    cbn [trace log set_files tick]. rewrite Hbefore, <- !app_assoc.
    reflexivity.
Qed.

End stylesheet.

Lemma stylesheet_is_not_where_the_scripts_look_witness :
  let w := set_dirs {["/home"; "/home/demo"]}
             (set_files (<["/home/demo/package.json" := JSON.stringify npm_manifest]>
                           templates) machine) in
  let r := Node.run toolchain eager
             (Generator.setupTailwindcss "/home/demo" "TypeScript" false) w in
  fst r = Returned tt /\
  files (snd r) !! "/home/demo/src/styles/tailwind.css" = None /\
  exists t, trace (snd r) = trace w ++ t /\
            forallb (event_ok
                       (never_writes
                          [path_join "/home/demo" "src/styles.css";
                           path_join "/home/demo" "src/styles/tailwind.css"]))
                    t = true.
Proof.
  intros w r. split; [vm_compute; reflexivity|]. split; [vm_compute; reflexivity|].
  exact (proj1 (stylesheet_is_not_where_the_scripts_look toolchain eager
                  "/home/demo" "TypeScript" false w eq_refl)).
Defined.

(** ** The merge as a union *)

Section union.
Variable exec :
  string -> list string -> string ->
  gmap string string * gset string ->
  proc_result * (gmap string string * gset string).
Variable sched : nat -> nat.

(** X27: a merge stores the union of the old scripts and the additions,
    key by key.  In a manifest that holds an object whose scripts field is
    an object or is missing, after the merge every key of the additions
    has the command of the additions, and every other key has the command
    it had before, if it had one: the additions win and no script is
    lost. *)
Theorem merge_is_the_union projectPath scripts w text o :
  let path := path_join projectPath "package.json" in
  let r := Node.run exec sched (addScriptsToPackageJson projectPath scripts) w in
  pending w = [] ->
  path ∉ dirs w ->
  files w !! path = Some text ->
  JSON.parse text = JSON.Parsed (JObj o) ->
  match obj_get o "scripts" with
  | None | Some (JObj _) => True
  | _ => False
  end ->
  wf (JObj scripts) = true ->
  fst r = Returned tt /\
  forall key,
    script_of (files (snd r)) path key =
    match obj_get scripts key with
    | Some v => Some v
    | None => script_of (files w) path key
    end.
Proof.
  intros path r Hp Hd Hf Hparse Hs Hwf. subst r. unfold path in *.
  rewrite (run_addScripts_obj exec sched _ _ _ text o) by done.
  split; [done|]. intros key. cbn [snd files log set_files tick].
  rewrite script_of_merged by (done || by eapply parse_wf).
  destruct (obj_get scripts key); [done|].
  unfold script_of. rewrite Hf, Hparse.
  by destruct (obj_get o "scripts") as [[| | | | |s]|].
Qed.

End union.

Lemma merge_is_the_union_witness :
  let r := Node.run no_tools lazy
             (addScriptsToPackageJson "/home/demo"
                (object_literal [("lint", JStr "eslint ."); ("test", JStr "jest")]))
             (with_manifest "/home/demo/package.json" npm_manifest) in
  script_of (files (snd r)) (path_join "/home/demo" "package.json") "test"
  = Some (JStr "jest").
Proof.
  intros r.
  destruct (merge_is_the_union no_tools lazy "/home/demo"
              (object_literal [("lint", JStr "eslint ."); ("test", JStr "jest")])
              (with_manifest "/home/demo/package.json" npm_manifest)
              (JSON.stringify npm_manifest)
              [("name", JStr "demo"); ("version", JStr "1.0.0");
               ("scripts", JObj [("test", JStr "echo no test")])])
    as [_ H].
  - reflexivity.
  - cbn [dirs with_manifest]. apply not_elem_of_empty.
  - reflexivity.
  - vm_compute. reflexivity.
  - exact I.
  - reflexivity.
  - exact (H "test").
Defined.
